(** * Contracts Wizard: access control and address verification

    A shallow embedding of

    - [packages/core/solidity/src/add-address-verification.ts]: both
      variants of [addAddressVerification], and the module they import as
      [./set-access-control] ([setAccessControl], [requireAccessControl]),
      which the sources keep in the same file;
    - [packages/core/stylus/src/set-access-control.ts];

    together with a model of the contract builder these features drive.

    The feature modules only import the _type_ [ContractBuilder]; they are
    embedded against an interface (a type class), statement by statement.
    The builder's implementation is not among the sources: its operations
    are given by one instance, written from the design document. *)

From stdpp Require Import base decidable option list strings gmap.

(** ** JavaScript values and string helpers *)

Module Js.

(** A line feed and a double quote, as one-character strings. *)
Definition nl : string := String (Ascii.ascii_of_nat 10) EmptyString.
Definition dq : string := String (Ascii.ascii_of_nat 34) EmptyString.

(** White space and line terminators among the code units below 256:
    TAB, LF, VT, FF, CR, SP and NBSP. *)
Definition isWhiteSpace (a : Ascii.ascii) : bool :=
  let n := Ascii.nat_of_ascii a in
  bool_decide (n ∈ [9; 10; 11; 12; 13; 32; 160]).

(** [String.prototype.trimEnd]. *)
Fixpoint trimEnd (s : string) : string :=
  match s with
  | EmptyString => EmptyString
  | String a rest =>
      match trimEnd rest with
      | EmptyString => if isWhiteSpace a then EmptyString else String a EmptyString
      | kept => String a kept
      end
  end.

(** [Array.prototype.join]. *)
Fixpoint join (sep : string) (parts : list string) : string :=
  match parts with
  | [] => EmptyString
  | [p] => p
  | p :: rest => p +:+ sep +:+ join sep rest
  end.

(** [lines.filter(line => line !== '')]. *)
Definition nonEmptyLines (parts : list string) : list string :=
  filter (λ line, line ≠ EmptyString) parts.

(** Truthiness of a string: only the empty string is falsy. *)
Definition truthyString (s : string) : bool :=
  match s with EmptyString => false | String _ _ => true end.

End Js.

(** The value of an [access] option as a feature receives it at run time.
    The union type [Access] is erased by the TypeScript compiler; what is
    left is [false], a string, or any other value ([true], a number,
    [undefined], an object). The features compare the value with [===]
    against [false] and string literals and test its truthiness, so all
    they can tell of another value is whether it is truthy. *)
Inductive AccessValue : Type :=
| AFalse
| AStr (s : string)
| AOther (isTruthy : bool).

#[export] Instance AccessValue_eq_dec : EqDecision AccessValue.
Proof. solve_decision. Defined.

(** [if (access)]. *)
Definition accessTruthy (access : AccessValue) : bool :=
  match access with
  | AFalse => false
  | AStr s => Js.truthyString s
  | AOther isTruthy => isTruthy
  end.

(** ** State and exceptions

    A feature is a procedure over one mutable builder that may throw:
    [M E S A] threads the builder [S] and stops at the first exception [E]. *)

Definition M (E S A : Type) : Type := S → E + (A * S).

#[export] Instance M_ret {E S} : MRet (M E S) := λ A a s, inr (a, s).

#[export] Instance M_bind {E S} : MBind (M E S) := λ A B f m s,
  match m s with
  | inl e => inl e
  | inr (a, s') => f a s'
  end.

#[export] Instance M_throw {E S} : MThrow E (M E S) := λ A e _, inl e.

Definition get {E S} : M E S S := λ s, inr (s, s).
Definition modify {E S} (f : S → S) : M E S unit := λ s, inr (tt, f s).

(** [a === b] on values with decidable equality. *)
Notation "a === b" := (bool_decide (a = b)) (at level 70, no associativity).

(** ** Solidity *)

Module Solidity.

(** *** Values the features hand to the builder *)

(** [{ name, path }]: a contract and the file it is imported from. *)
Record ImportContract : Type := {
  contract_name : string;
  contract_path : string;
}.

(** A construction argument of a parent: [{ lit }] or a reference by name. *)
Inductive Value : Type :=
| Lit (lit : string)
| Named (ref : string).

(** The text a construction argument stands for in the call of the parent's
    constructor: the literal, or the name referred to. *)
Definition valueText (v : Value) : string :=
  match v with
  | Lit lit => lit
  | Named ref => ref
  end.

(** [{ type, name }]. *)
Record FunctionArgument : Type := {
  arg_type : string;
  arg_name : string;
}.

Inductive FunctionKind : Type := Public | External | Internal | Private.

Inductive FunctionMutability : Type := Pure | View | Payable | Nonpayable.

(** The [docs] of a function definition. *)
Record FunctionDocs : Type := {
  notice : string;
  details : option string;
  params : list (string * string);
  returns : list (string * string);
}.

(** What [defineFunctions] yields for one key: the key becomes [fn_name];
    an absent [returns] or [code] is the empty list. *)
Record BaseFunction : Type := {
  fn_name : string;
  fn_kind : FunctionKind;
  fn_args : list FunctionArgument;
  fn_returns : list string;
  fn_mutability : option FunctionMutability;
  fn_code : list string;
  fn_docs : FunctionDocs;
}.

#[export] Instance ImportContract_eq_dec : EqDecision ImportContract.
Proof. solve_decision. Defined.
#[export] Instance Value_eq_dec : EqDecision Value.
Proof. solve_decision. Defined.
#[export] Instance FunctionArgument_eq_dec : EqDecision FunctionArgument.
Proof. solve_decision. Defined.

(** *** Errors of a build (design document, section 7) *)

(** Modelled from the spec: the kinds of entity the Symbol Registry tracks
    (sections 2 and 4.1); events, errors and constants are all
    NamedConstants. The registry belongs to [./contract], which is not
    among the sources. *)
Inductive SymbolKind : Type := KImport | KNamedConstant | KStateVariable.

(** Modelled from the spec: what the registry stores under a key (section
    3): an ImportEntry (source locator, import-only flag), a NamedConstant
    (declaration text, doc lines), or a state variable (declaration text,
    upgradeable flag). *)
Inductive Payload : Type :=
| PImport (path : string) (importOnly : bool)
| PNamedConstant (text : string) (docs : list string)
| PStateVariable (text : string) (upgradeableFlag : bool).

(** Modelled from the spec: who contributed a constructor argument, a
    parent or the contract's own features (ConstructorModel, section 3). *)
Inductive Owner : Type :=
| OwnerParent (identifier : string)
| Own.

(** Modelled from the spec: the error kinds of section 7. The builder that
    raises them is not among the sources. *)
Inductive BuildError : Type :=
| SymbolConflict (key : string) (registered offered : Payload)
| DuplicateBodyError (fn : string)
| ArgumentNameCollision (arg : string) (first second : Owner)
| ModelFrozenError
| UnknownEnumValue (value : string).

#[export] Instance SymbolKind_eq_dec : EqDecision SymbolKind.
Proof. solve_decision. Defined.
#[export] Instance Payload_eq_dec : EqDecision Payload.
Proof. solve_decision. Defined.
#[export] Instance Owner_eq_dec : EqDecision Owner.
Proof. solve_decision. Defined.

(** *** The builder as the features see it

    [import type { ContractBuilder } from './contract']: the members the
    three source files read or call. *)
Class ContractBuilder (B : Type) : Type := {
  name : B → string;
  upgradeable : B → bool;
  addParent : ImportContract → list Value → M BuildError B bool;
  addImportOnly : ImportContract → M BuildError B bool;
  addOverride : ImportContract → BaseFunction → M BuildError B unit;
  addModifier : string → BaseFunction → M BuildError B unit;
  addFunction : BaseFunction → M BuildError B unit;
  addFunctionCode : string → BaseFunction → M BuildError B unit;
  addConstructorArgument : FunctionArgument → M BuildError B unit;
  addConstructorCode : string → M BuildError B unit;
  addConstantOrImmutableOrErrorDefinition :
    string → list string → M BuildError B bool;
  addStateVariable : string → bool → M BuildError B bool;
  addVariable : string → M BuildError B unit;
}.

(** [import { supportsInterface } from './common-functions']: a function
    definition the sources use and do not contain. *)
Class CommonFunctions : Type := {
  supportsInterface : BaseFunction;
}.

(** [import { setNamespacedStorage, toStorageStructInstantiation } from
    './set-namespaced-storage']. *)
Class NamespacedStorage (B : Type) : Type := {
  setNamespacedStorage : list string → string → M BuildError B unit;
  toStorageStructInstantiation : string → string;
}.

(** *** set-access-control.ts *)

(** [const parents = { Ownable, AccessControl, AccessManaged }]. *)
Module parents.
Definition Ownable : ImportContract :=
  {| contract_name := "Ownable";
     contract_path := "@openzeppelin/contracts/access/Ownable.sol" |}.
Definition AccessControl : ImportContract :=
  {| contract_name := "AccessControl";
     contract_path := "@openzeppelin/contracts/access/AccessControl.sol" |}.
Definition AccessManaged : ImportContract :=
  {| contract_name := "AccessManaged";
     contract_path := "@openzeppelin/contracts/access/manager/AccessManaged.sol" |}.
End parents.

(** [export const accessOptions = [false, 'ownable', 'roles', 'managed']]. *)
Definition accessOptions : list AccessValue :=
  [AFalse; AStr "ownable"; AStr "roles"; AStr "managed"].

(** The statements the access-control feature writes into constructors. *)
Definition requireOwner : string :=
  "require(initialOwner != address(0), " +:+ Js.dq +:+
  "Ownable: initial owner is zero address" +:+ Js.dq +:+ ");".
Definition requireAdmin : string :=
  "require(defaultAdmin != address(0), " +:+ Js.dq +:+
  "AccessControl: default admin is zero address" +:+ Js.dq +:+ ");".
Definition grantAdmin : string :=
  "_grantRole(DEFAULT_ADMIN_ROLE, defaultAdmin);".
Definition requireAuthority : string :=
  "require(initialAuthority != address(0), " +:+ Js.dq +:+
  "AccessManaged: initial authority is zero address" +:+ Js.dq +:+ ");".
Definition requireRoleOwner (roleOwner : string) : string :=
  "require(" +:+ roleOwner +:+ " != address(0), " +:+ Js.dq +:+
  "AccessControl: role owner is zero address" +:+ Js.dq +:+ ");".
Definition grantRole (roleId roleOwner : string) : string :=
  "_grantRole(" +:+ roleId +:+ ", " +:+ roleOwner +:+ ");".
Definition roleConstant (roleId : string) : string :=
  "bytes32 public constant " +:+ roleId +:+ " = keccak256(" +:+ Js.dq +:+
  roleId +:+ Js.dq +:+ ");".

Section AccessControlFeature.
Context {B : Type} {builder : ContractBuilder B} {common : CommonFunctions}.

(** [export function setAccessControl(c, access)]: a [switch] with three
    cases and no [default]. *)
Definition setAccessControl (access : AccessValue) : M BuildError B unit :=
  if access === AStr "ownable" then
    added ← addParent parents.Ownable [Lit "initialOwner"];
    if added : bool then
      addConstructorArgument {| arg_type := "address"; arg_name := "initialOwner" |} ;;
      addConstructorCode requireOwner
    else mret tt
  else if access === AStr "roles" then
    added ← addParent parents.AccessControl [];
    (if added : bool then
       addConstructorArgument {| arg_type := "address"; arg_name := "defaultAdmin" |} ;;
       addConstructorCode requireAdmin ;;
       addConstructorCode grantAdmin
     else mret tt) ;;
    addOverride parents.AccessControl supportsInterface
  else if access === AStr "managed" then
    added ← addParent parents.AccessManaged [Lit "initialAuthority"];
    if added : bool then
      addConstructorArgument {| arg_type := "address"; arg_name := "initialAuthority" |} ;;
      addConstructorCode requireAuthority
    else mret tt
  else mret tt.

(** [export function requireAccessControl(c, fn, access, roleIdPrefix,
    roleOwner)]. *)
Definition requireAccessControl (fn : BaseFunction) (access : AccessValue)
    (roleIdPrefix : string) (roleOwner : option string) : M BuildError B unit :=
  let access := if access === AFalse then AStr "ownable" else access in
  setAccessControl access ;;
  if access === AStr "ownable" then
    addModifier "onlyOwner" fn
  else if access === AStr "roles" then
    let roleId := roleIdPrefix +:+ "_ROLE" in
    addedConstant ← addConstantOrImmutableOrErrorDefinition (roleConstant roleId) [];
    (match roleOwner with
     | Some owner =>
         if Js.truthyString owner && addedConstant then
           addConstructorArgument {| arg_type := "address"; arg_name := owner |} ;;
           addConstructorCode (requireRoleOwner owner) ;;
           addConstructorCode (grantRole roleId owner)
         else mret tt
     | None => mret tt
     end) ;;
    addModifier ("onlyRole(" +:+ roleId +:+ ")") fn
  else if access === AStr "managed" then
    addModifier "restricted" fn
  else mret tt.

End AccessControlFeature.

(** *** add-address-verification.ts, with structured declarations

    The variant that declares events and errors through
    [addConstantOrImmutableOrErrorDefinition] and places the mapping
    through the storage layout. *)

Module Structured.

(** [const functions = defineFunctions({ ... })]: no definition has [code]. *)
Module functions.
Definition isAddressVerified : BaseFunction :=
  {| fn_name := "isAddressVerified";
     fn_kind := Public;
     fn_args := [{| arg_type := "address"; arg_name := "account" |}];
     fn_returns := ["bool"];
     fn_mutability := Some View;
     fn_code := [];
     fn_docs :=
       {| notice := "Check if an address has been verified";
          details := None;
          params := [("account", "The address to check")];
          returns := [("_0", "True if the address is verified, false otherwise")] |} |}.
Definition verifyAddressOwnership : BaseFunction :=
  {| fn_name := "verifyAddressOwnership";
     fn_kind := Public;
     fn_args := [{| arg_type := "bytes32"; arg_name := "message" |};
                 {| arg_type := "bytes"; arg_name := "signature" |}];
     fn_returns := [];
     fn_mutability := None;
     fn_code := [];
     fn_docs :=
       {| notice := "Verify address ownership by providing a signature";
          details := Some ("The caller must provide a signature of a message signed with their private key. " +:+
                           "The signature is verified to ensure the caller controls the private key associated with their address. " +:+
                           "This allows verification of address ownership without exposing the private key.");
          params := [("message", "The original message that was signed");
                     ("signature", "The signature of the message, signed by the caller")];
          returns := [] |} |}.
Definition revokeAddressVerification : BaseFunction :=
  {| fn_name := "revokeAddressVerification";
     fn_kind := Public;
     fn_args := [{| arg_type := "address"; arg_name := "account" |}];
     fn_returns := [];
     fn_mutability := None;
     fn_code := [];
     fn_docs :=
       {| notice := "Revoke address verification (admin only)";
          details := None;
          params := [("account", "The address to revoke verification for")];
          returns := [] |} |}.
End functions.

Section Feature.
Context {B : Type} {builder : ContractBuilder B} {common : CommonFunctions}
  {storage : NamespacedStorage B}.

Definition addIsAddressVerifiedFunction : M BuildError B unit :=
  c ← get;
  let storageAccess :=
    if upgradeable c then toStorageStructInstantiation (name c) +:+ Js.nl else "" in
  let verifiedAddressesAccess :=
    if upgradeable c then "$._verifiedAddresses[account]" else "_verifiedAddresses[account]" in
  addFunctionCode
    (storageAccess +:+ "return " +:+ verifiedAddressesAccess +:+ ";")
    functions.isAddressVerified.

Definition addVerifyAddressOwnershipFunction : M BuildError B unit :=
  c ← get;
  let storageAccess :=
    if upgradeable c then toStorageStructInstantiation (name c) +:+ Js.nl else "" in
  let verifiedAddressesRef :=
    if upgradeable c then "$._verifiedAddresses" else "_verifiedAddresses" in
  addFunctionCode
    (Js.join Js.nl (Js.nonEmptyLines [
       Js.trimEnd storageAccess;
       "// Hash the message according to EIP-191";
       "bytes32 ethSignedMessageHash = MessageHashUtils.toEthSignedMessageHash(message);";
       "";
       "// Recover the signer address from the signature";
       "address recoveredAddress = ECDSA.recover(ethSignedMessageHash, signature);";
       "";
       "// Check if the recovered address matches the sender";
       "if (recoveredAddress != msg.sender) {";
       "    revert InvalidSignature();";
       "}";
       "";
       "// Check if already verified";
       "if (" +:+ verifiedAddressesRef +:+ "[msg.sender]) {";
       "    revert AlreadyVerified();";
       "}";
       "";
       "// Mark the address as verified";
       verifiedAddressesRef +:+ "[msg.sender] = true;";
       "";
       "// Emit verification event";
       "emit AddressVerified(msg.sender);"
     ]))
    functions.verifyAddressOwnership.

Definition addRevokeAddressVerificationFunction (access : AccessValue)
    : M BuildError B unit :=
  requireAccessControl functions.revokeAddressVerification access "DEFAULT_ADMIN_ROLE" None ;;
  c ← get;
  let storageAccess :=
    if upgradeable c then toStorageStructInstantiation (name c) +:+ Js.nl else "" in
  let verifiedAddressesRef :=
    if upgradeable c then "$._verifiedAddresses" else "_verifiedAddresses" in
  addFunctionCode
    (Js.join Js.nl (Js.nonEmptyLines [
       Js.trimEnd storageAccess;
       "// Revoke verification";
       verifiedAddressesRef +:+ "[account] = false;";
       "";
       "// Emit revocation event";
       "emit VerificationRevoked(account);"
     ]))
    functions.revokeAddressVerification.

Definition addAddressVerification (access : AccessValue) : M BuildError B unit :=
  addImportOnly
    {| contract_name := "ECDSA";
       contract_path := "@openzeppelin/contracts/utils/cryptography/ECDSA.sol" |} ;;
  addImportOnly
    {| contract_name := "MessageHashUtils";
       contract_path := "@openzeppelin/contracts/utils/cryptography/MessageHashUtils.sol" |} ;;
  addConstantOrImmutableOrErrorDefinition
    "event AddressVerified(address indexed account);"
    ["/// @dev Emitted when an address is verified"] ;;
  addConstantOrImmutableOrErrorDefinition
    "event VerificationRevoked(address indexed account);"
    ["/// @dev Emitted when address verification is revoked"] ;;
  addConstantOrImmutableOrErrorDefinition
    "error InvalidSignature();"
    ["/// @dev Error thrown when signature verification fails"] ;;
  addConstantOrImmutableOrErrorDefinition
    "error AlreadyVerified();"
    ["/// @dev Error thrown when address is already verified"] ;;
  c ← get;
  (if upgradeable c then
     setNamespacedStorage
       ["mapping(address account => bool verified) _verifiedAddresses"]
       "openzeppelin.storage"
   else
     addStateVariable "mapping(address => bool) private _verifiedAddresses;" false ;;
     mret tt) ;;
  addIsAddressVerifiedFunction ;;
  addVerifyAddressOwnershipFunction ;;
  if accessTruthy access then addRevokeAddressVerificationFunction access
  else mret tt.

End Feature.
End Structured.

(** *** add-address-verification.ts, with freeform declarations

    The variant that hands the mapping, the events and the errors to
    [addVariable] as blocks of text, and whose function definitions carry
    their own [code]. *)

Module Freeform.

Module functions.
Definition isAddressVerified : BaseFunction :=
  {| fn_name := "isAddressVerified";
     fn_kind := Public;
     fn_args := [{| arg_type := "address"; arg_name := "account" |}];
     fn_returns := ["bool"];
     fn_mutability := None;
     fn_code := ["return _verifiedAddresses[account];"];
     fn_docs :=
       {| notice := "Check if an address has been verified";
          details := None;
          params := [("account", "The address to check")];
          returns := [("_0", "True if the address is verified, false otherwise")] |} |}.
Definition verifyAddressOwnership : BaseFunction :=
  {| fn_name := "verifyAddressOwnership";
     fn_kind := Public;
     fn_args := [{| arg_type := "bytes32"; arg_name := "message" |};
                 {| arg_type := "bytes"; arg_name := "signature" |}];
     fn_returns := [];
     fn_mutability := None;
     fn_code := [
       "// Hash the message according to EIP-191";
       "bytes32 ethSignedMessageHash = MessageHashUtils.toEthSignedMessageHash(message);";
       "";
       "// Recover the signer address from the signature";
       "address recoveredAddress = ECDSA.recover(ethSignedMessageHash, signature);";
       "";
       "// Check if the recovered address matches the sender";
       "if (recoveredAddress != msg.sender) {";
       "    revert InvalidSignature();";
       "}";
       "";
       "// Check if already verified";
       "if (_verifiedAddresses[msg.sender]) {";
       "    revert AlreadyVerified();";
       "}";
       "";
       "// Mark the address as verified";
       "_verifiedAddresses[msg.sender] = true;";
       "";
       "// Emit verification event";
       "emit AddressVerified(msg.sender);"
     ];
     fn_docs :=
       {| notice := "Verify address ownership by providing a signature";
          details := Some ("The caller must provide a signature of a message signed with their private key. " +:+
                           "The signature is verified to ensure the caller controls the private key associated with their address. " +:+
                           "This allows verification of address ownership without exposing the private key.");
          params := [("message", "The original message that was signed");
                     ("signature", "The signature of the message, signed by the caller")];
          returns := [] |} |}.
Definition revokeAddressVerification : BaseFunction :=
  {| fn_name := "revokeAddressVerification";
     fn_kind := Public;
     fn_args := [{| arg_type := "address"; arg_name := "account" |}];
     fn_returns := [];
     fn_mutability := None;
     fn_code := [
       "// Revoke verification";
       "_verifiedAddresses[account] = false;";
       "";
       "// Emit revocation event";
       "emit VerificationRevoked(account);"
     ];
     fn_docs :=
       {| notice := "Revoke address verification (admin only)";
          details := None;
          params := [("account", "The address to revoke verification for")];
          returns := [] |} |}.
End functions.

(** A template literal of two indented lines: a comment and a declaration. *)
Definition block (comment declaration : string) : string :=
  Js.nl +:+ "    " +:+ comment +:+ Js.nl +:+ "    " +:+ declaration +:+ Js.nl +:+ "  ".

Section Feature.
Context {B : Type} {builder : ContractBuilder B} {common : CommonFunctions}.

Definition addAddressVerification (access : AccessValue) : M BuildError B unit :=
  addImportOnly
    {| contract_name := "ECDSA";
       contract_path := "@openzeppelin/contracts/utils/cryptography/ECDSA.sol" |} ;;
  addImportOnly
    {| contract_name := "MessageHashUtils";
       contract_path := "@openzeppelin/contracts/utils/cryptography/MessageHashUtils.sol" |} ;;
  addVariable (block "// Mapping to track addresses that have been verified"
                     "mapping(address => bool) private _verifiedAddresses;") ;;
  addVariable (block "// Event emitted when an address is verified"
                     "event AddressVerified(address indexed account);") ;;
  addVariable (block "// Event emitted when address verification is revoked"
                     "event VerificationRevoked(address indexed account);") ;;
  addVariable (block "// Error thrown when signature verification fails"
                     "error InvalidSignature();") ;;
  addVariable (block "// Error thrown when address is already verified"
                     "error AlreadyVerified();") ;;
  addFunction functions.isAddressVerified ;;
  addFunction functions.verifyAddressOwnership ;;
  if accessTruthy access then
    requireAccessControl functions.revokeAddressVerification access "DEFAULT_ADMIN_ROLE" None
  else mret tt.

End Feature.
End Freeform.

(** *** The contract model

    [./contract] is not among the sources. The builder below is written
    from the design document: its data model (section 3) and the contracts
    of its components (section 4). *)

Module Model.

(** Modelled from the spec: the two states of a model, Building and
    Emitted (section 4.6); [ContractBuilder] itself is missing from the
    sources. *)
Inductive Phase : Type := Building | Emitted.

(** Modelled from the spec: ParentReference (section 3), an identifier with
    its source locator and its ordered construction arguments. *)
Record ParentReference : Type := {
  parent_contract : ImportContract;
  parent_params : list Value;
}.

(** Modelled from the spec: the uniqueness key of a ParentReference is its
    identifier. *)
Definition parent_identifier (p : ParentReference) : string :=
  contract_name (parent_contract p).

(** Modelled from the spec: an argument of the ConstructorModel (section 3),
    tagged with the contributing parent or with [Own]. *)
Record ConstructorArgument : Type := {
  ctor_arg : FunctionArgument;
  ctor_owner : Owner;
}.

(** Modelled from the spec: FunctionEntry (section 3). The definition holds
    the name, arguments, return types, kind, mutability and documentation;
    the body, the modifiers (insertion order) and the override targets
    accumulate. *)
Record FunctionEntry : Type := {
  entry_def : BaseFunction;
  entry_body : list string;
  entry_modifiers : list string;
  entry_override : gset string;
}.

(** Modelled from the spec: an entry of the Symbol Registry (section 4.1). *)
Record Symbol : Type := {
  sym_kind : SymbolKind;
  sym_key : string;
  sym_payload : Payload;
}.

(** Modelled from the spec: StorageLayoutEntry (section 3). *)
Record StorageLayoutEntry : Type := {
  layout_owner : string;
  layout_label : string;
  layout_fields : list string;
}.

(** Modelled from the spec: ContractModel (section 3). The registry keeps
    imports, named constants and state variables in insertion order;
    [cm_variables] keeps the freeform blocks of text. *)
Record ContractModel : Type := {
  cm_name : string;
  cm_upgradeable : bool;
  cm_parents : list ParentReference;
  cm_functions : list FunctionEntry;
  cm_constructorArgs : list ConstructorArgument;
  cm_constructorCode : list string;
  cm_registry : list Symbol;
  cm_variables : list string;
  cm_storage : list StorageLayoutEntry;
  cm_phase : Phase;
}.

Abbreviation Build := (M BuildError ContractModel).

(** Modelled from the spec: the model at the start of a build session
    (section 3, lifecycle): nothing added yet, Building. *)
Definition empty (contractName : string) (isUpgradeable : bool) : ContractModel :=
  {| cm_name := contractName; cm_upgradeable := isUpgradeable;
     cm_parents := []; cm_functions := []; cm_constructorArgs := [];
     cm_constructorCode := []; cm_registry := []; cm_variables := [];
     cm_storage := []; cm_phase := Building |}.

(** Modelled from the spec: the model is a mutable aggregate; each
    [with_] function below writes one of its parts and keeps the others. *)
Definition with_parents (f : list ParentReference → list ParentReference)
    (c : ContractModel) : ContractModel :=
  {| cm_name := cm_name c; cm_upgradeable := cm_upgradeable c;
     cm_parents := f (cm_parents c); cm_functions := cm_functions c;
     cm_constructorArgs := cm_constructorArgs c;
     cm_constructorCode := cm_constructorCode c; cm_registry := cm_registry c;
     cm_variables := cm_variables c; cm_storage := cm_storage c;
     cm_phase := cm_phase c |}.

(** Modelled from the spec: a write to the function table of the model. *)
Definition with_functions (f : list FunctionEntry → list FunctionEntry)
    (c : ContractModel) : ContractModel :=
  {| cm_name := cm_name c; cm_upgradeable := cm_upgradeable c;
     cm_parents := cm_parents c; cm_functions := f (cm_functions c);
     cm_constructorArgs := cm_constructorArgs c;
     cm_constructorCode := cm_constructorCode c; cm_registry := cm_registry c;
     cm_variables := cm_variables c; cm_storage := cm_storage c;
     cm_phase := cm_phase c |}.

(** Modelled from the spec: a write to the constructor arguments of the model. *)
Definition with_constructorArgs
    (f : list ConstructorArgument → list ConstructorArgument)
    (c : ContractModel) : ContractModel :=
  {| cm_name := cm_name c; cm_upgradeable := cm_upgradeable c;
     cm_parents := cm_parents c; cm_functions := cm_functions c;
     cm_constructorArgs := f (cm_constructorArgs c);
     cm_constructorCode := cm_constructorCode c; cm_registry := cm_registry c;
     cm_variables := cm_variables c; cm_storage := cm_storage c;
     cm_phase := cm_phase c |}.

(** Modelled from the spec: a write to the constructor body of the model. *)
Definition with_constructorCode (f : list string → list string)
    (c : ContractModel) : ContractModel :=
  {| cm_name := cm_name c; cm_upgradeable := cm_upgradeable c;
     cm_parents := cm_parents c; cm_functions := cm_functions c;
     cm_constructorArgs := cm_constructorArgs c;
     cm_constructorCode := f (cm_constructorCode c); cm_registry := cm_registry c;
     cm_variables := cm_variables c; cm_storage := cm_storage c;
     cm_phase := cm_phase c |}.

(** Modelled from the spec: a write to the Symbol Registry of the model. *)
Definition with_registry (f : list Symbol → list Symbol)
    (c : ContractModel) : ContractModel :=
  {| cm_name := cm_name c; cm_upgradeable := cm_upgradeable c;
     cm_parents := cm_parents c; cm_functions := cm_functions c;
     cm_constructorArgs := cm_constructorArgs c;
     cm_constructorCode := cm_constructorCode c; cm_registry := f (cm_registry c);
     cm_variables := cm_variables c; cm_storage := cm_storage c;
     cm_phase := cm_phase c |}.

(** Modelled from the spec: a write to the freeform variables of the model. *)
Definition with_variables (f : list string → list string)
    (c : ContractModel) : ContractModel :=
  {| cm_name := cm_name c; cm_upgradeable := cm_upgradeable c;
     cm_parents := cm_parents c; cm_functions := cm_functions c;
     cm_constructorArgs := cm_constructorArgs c;
     cm_constructorCode := cm_constructorCode c; cm_registry := cm_registry c;
     cm_variables := f (cm_variables c); cm_storage := cm_storage c;
     cm_phase := cm_phase c |}.

(** Modelled from the spec: a write to the storage layout of the model. *)
Definition with_storage (f : list StorageLayoutEntry → list StorageLayoutEntry)
    (c : ContractModel) : ContractModel :=
  {| cm_name := cm_name c; cm_upgradeable := cm_upgradeable c;
     cm_parents := cm_parents c; cm_functions := cm_functions c;
     cm_constructorArgs := cm_constructorArgs c;
     cm_constructorCode := cm_constructorCode c; cm_registry := cm_registry c;
     cm_variables := cm_variables c; cm_storage := f (cm_storage c);
     cm_phase := cm_phase c |}.

(** Modelled from the spec: a write to the state of the model. *)
Definition with_phase (p : Phase) (c : ContractModel) : ContractModel :=
  {| cm_name := cm_name c; cm_upgradeable := cm_upgradeable c;
     cm_parents := cm_parents c; cm_functions := cm_functions c;
     cm_constructorArgs := cm_constructorArgs c;
     cm_constructorCode := cm_constructorCode c; cm_registry := cm_registry c;
     cm_variables := cm_variables c; cm_storage := cm_storage c;
     cm_phase := p |}.

(** Modelled from the spec: the state machine of section 4.6. A mutation is
    permitted while Building and fails with ModelFrozenError once Emitted. *)
Definition building : Build unit :=
  c ← get;
  match cm_phase c with
  | Building => mret tt
  | Emitted => mthrow ModelFrozenError
  end.

(** Modelled from the spec: the transition from Building to Emitted on the
    first successful emission (section 4.6). *)
Definition emitted (c : ContractModel) : ContractModel := with_phase Emitted c.

(** **** Symbol Registry (section 4.1) *)

(** Modelled from the spec: what is registered under a key of a kind, if
    anything. *)
Definition lookupSymbol (kind : SymbolKind) (key : string)
    (registry : list Symbol) : option Payload :=
  (sym_payload ∘ snd) <$>
    list_find (λ s, sym_kind s = kind ∧ sym_key s = key) registry.

(** Modelled from the spec: [register(kind, key, payload) -> {added}]. A key
    registered with the identical payload gives [added = false]; a key
    registered with a different payload fails with SymbolConflict, naming
    the key and both payloads. *)
Definition register (kind : SymbolKind) (key : string) (payload : Payload)
    : Build bool :=
  building ;;
  c ← get;
  match lookupSymbol kind key (cm_registry c) with
  | Some registered =>
      if decide (registered = payload) then mret false
      else mthrow (SymbolConflict key registered payload)
  | None =>
      modify (with_registry (λ r, r ++
        [{| sym_kind := kind; sym_key := key; sym_payload := payload |}])) ;;
      mret true
  end.

(** **** Parent/Trait Set (section 4.2) *)

(** Modelled from the spec: whether the identifier is already present. *)
Definition hasParent (identifier : string) (c : ContractModel) : bool :=
  bool_decide (identifier ∈ parent_identifier <$> cm_parents c).

(** Modelled from the spec: [addParent(ref) -> bool], true when the parent
    was newly added and false when the identifier is already present;
    parents are kept in first-added order. *)
Definition addParent (contract : ImportContract) (params : list Value)
    : Build bool :=
  building ;;
  c ← get;
  if hasParent (contract_name contract) c then mret false
  else
    modify (with_parents (λ ps, ps ++
      [{| parent_contract := contract; parent_params := params |}])) ;;
    mret true.

(** **** Function Table (section 4.3) *)

(** Modelled from the spec: the identity of a function is its name and its
    argument type signature (FunctionEntry, section 3). *)
Definition signature (def : BaseFunction) : string * list string :=
  (fn_name def, arg_type <$> fn_args def).

(** Modelled from the spec: the entry of a function on first request; its
    body is the code of the definition, empty for a declaration. *)
Definition newEntry (def : BaseFunction) : FunctionEntry :=
  {| entry_def := def; entry_body := fn_code def;
     entry_modifiers := []; entry_override := ∅ |}.

(** Modelled from the spec: [addFunction(def) -> FunctionEntry]. The entry
    is returned as its position in the table, which later calls update in
    place; a function with the same identity is not overwritten. *)
Definition addFunction (def : BaseFunction) : Build nat :=
  building ;;
  c ← get;
  match list_find (λ e, signature (entry_def e) = signature def) (cm_functions c) with
  | Some (entry, _) => mret entry
  | None =>
      modify (with_functions (λ fs, fs ++ [newEntry def])) ;;
      mret (length (cm_functions c))
  end.

(** Modelled from the spec: the writes to one entry. Modifiers have set
    semantics on their text and keep first-seen order; override targets are
    a set. *)
Definition setEntryBody (text : string) (e : FunctionEntry) : FunctionEntry :=
  {| entry_def := entry_def e; entry_body := [text];
     entry_modifiers := entry_modifiers e; entry_override := entry_override e |}.

(** Modelled from the spec: a modifier is appended if not already
    present. *)
Definition addEntryModifier (modifierText : string) (e : FunctionEntry)
    : FunctionEntry :=
  if decide (modifierText ∈ entry_modifiers e) then e
  else
    {| entry_def := entry_def e; entry_body := entry_body e;
       entry_modifiers := entry_modifiers e ++ [modifierText];
       entry_override := entry_override e |}.

(** Modelled from the spec: an identifier joins the override-target set. *)
Definition addEntryOverride (identifier : string) (e : FunctionEntry)
    : FunctionEntry :=
  {| entry_def := entry_def e; entry_body := entry_body e;
     entry_modifiers := entry_modifiers e;
     entry_override := {[ identifier ]} ∪ entry_override e |}.

(** Modelled from the spec: [setBody(entry, text)] fails with
    DuplicateBodyError when the body is already non-empty. A position
    outside the table is never produced by [addFunction]. *)
Definition setBody (entry : nat) (text : string) : Build unit :=
  building ;;
  c ← get;
  match cm_functions c !! entry with
  | Some e =>
      if decide (entry_body e = []) then
        modify (with_functions (alter (setEntryBody text) entry))
      else mthrow (DuplicateBodyError (fn_name (entry_def e)))
  | None => mret tt
  end.

(** Modelled from the spec: [addModifier(entry, modifierText)] appends the
    text if it is not already present, keeping first-seen order. *)
Definition addModifier (entry : nat) (modifierText : string) : Build unit :=
  building ;;
  modify (with_functions (alter (addEntryModifier modifierText) entry)).

(** Modelled from the spec: [addOverride(parentRef, function)] adds the
    identifier of [parentRef] to the override-target set of the function. *)
Definition addOverride (parentRef : ImportContract) (def : BaseFunction)
    : Build unit :=
  entry ← addFunction def;
  modify (with_functions (alter (addEntryOverride (contract_name parentRef)) entry)).

(** **** Constructor Assembler (section 4.4) *)

(** Modelled from the spec: who contributes the constructor argument of a
    name (ConstructorModel, section 3: each argument is tagged with the
    contributing parent or own). A parent contributes the arguments that
    its construction argument list names; of several such parents the one
    added last, so that the same name supplied with a second parent is a
    second contribution (section 8); a name no parent passes on is the
    contract's own. *)
Definition contributor (argName : string) (ps : list ParentReference) : Owner :=
  foldl (λ owner p,
           if decide (argName ∈ valueText <$> parent_params p)
           then OwnerParent (parent_identifier p) else owner)
        Own ps.

(** Modelled from the spec: [addArgument(arg, owner)] fails with
    ArgumentNameCollision when the name is present from a different owner
    and is a no-op when the owner already contributed it; argument names
    stay unique. *)
Definition addArgument (arg : FunctionArgument) (owner : Owner) : Build unit :=
  building ;;
  c ← get;
  match list_find (λ a, arg_name (ctor_arg a) = arg_name arg) (cm_constructorArgs c) with
  | Some (_, present) =>
      if decide (ctor_owner present = owner) then mret tt
      else mthrow (ArgumentNameCollision (arg_name arg) (ctor_owner present) owner)
  | None =>
      modify (with_constructorArgs (λ args, args ++
        [{| ctor_arg := arg; ctor_owner := owner |}]))
  end.

(** Modelled from the spec: [addCode(stmt)] appends a statement to the
    constructor body, in call order. *)
Definition addCode (stmt : string) : Build unit :=
  building ;;
  modify (with_constructorCode (λ body, body ++ [stmt])).

(** **** Storage Layout Resolver (section 4.5) *)

(** Modelled from the spec: the fields of a record are in addition order,
    deduplicated by field text. *)
Definition mergeFields (present new : list string) : list string :=
  foldl (λ acc field, if decide (field ∈ acc) then acc else acc ++ [field])
        present new.

(** Modelled from the spec: variables sharing a label are merged into the
    record of that label. *)
Definition addLayoutFields (fields : list string) (e : StorageLayoutEntry)
    : StorageLayoutEntry :=
  {| layout_owner := layout_owner e; layout_label := layout_label e;
     layout_fields := mergeFields (layout_fields e) fields |}.

(** Modelled from the spec: variables of an upgradeable build are routed
    into the StorageLayoutEntry keyed by the namespace label; all variables
    sharing a label are merged into one record. *)
Definition setNamespacedStorage (fields : list string) (label : string)
    : Build unit :=
  building ;;
  c ← get;
  match list_find (λ e, layout_label e = label) (cm_storage c) with
  | Some (i, _) => modify (with_storage (alter (addLayoutFields fields) i))
  | None =>
      modify (with_storage (λ es, es ++
        [{| layout_owner := cm_name c; layout_label := label;
            layout_fields := mergeFields [] fields |}]))
  end.

(** **** Freeform text *)

(** Modelled from the spec: a freeform block of text is appended to the
    variables of the model as it is; it does not pass through the Symbol
    Registry (section 9, open question). *)
Definition addVariable (text : string) : Build unit :=
  building ;;
  modify (with_variables (λ vs, vs ++ [text])).

(** **** Emitter (section 4.6) *)

(** Modelled from the spec: the body statements of the constructor are
    emitted in append order. *)
Definition emitConstructorBody (c : ContractModel) : list string :=
  cm_constructorCode c.

(** Modelled from the spec: the inheritance clause lists the parents in
    first-added order. *)
Definition emitInheritance (c : ContractModel) : list string :=
  parent_identifier <$> cm_parents c.

End Model.

(** *** The builder's members over the model

    Each member of [ContractBuilder] is one call, or one short sequence of
    calls, into the components of the model. *)

(** Modelled from the spec: [ContractBuilder.addImportOnly], missing from
    the sources. An import is registered under its identifier, with its
    source locator and the import-only flag (ImportEntry). *)
Definition model_addImportOnly (contract : ImportContract) : Model.Build bool :=
  Model.register KImport (contract_name contract)
    (PImport (contract_path contract) true).

(** Modelled from the spec:
    [ContractBuilder.addConstantOrImmutableOrErrorDefinition], missing from
    the sources. Events, errors and constants are NamedConstants, registered
    under their full declaration text. *)
Definition model_addConstantOrImmutableOrErrorDefinition (text : string)
    (docs : list string) : Model.Build bool :=
  Model.register KNamedConstant text (PNamedConstant text docs).

(** Modelled from the spec: [ContractBuilder.addStateVariable], missing from
    the sources. A state variable of a non-upgradeable build is a direct
    declaration, tracked by the Symbol Registry. *)
Definition model_addStateVariable (text : string) (upgradeableFlag : bool)
    : Model.Build bool :=
  Model.register KStateVariable text (PStateVariable text upgradeableFlag).

(** Modelled from the spec: [ContractBuilder.addModifier], missing from the
    sources. A feature decorates the function it names, which is added to
    the table on first request. *)
Definition model_addModifier (modifierText : string) (fn : BaseFunction)
    : Model.Build unit :=
  entry ← Model.addFunction fn;
  Model.addModifier entry modifierText.

(** Modelled from the spec: [ContractBuilder.addFunction], missing from the
    sources; the entry it returns is not used by the features. *)
Definition model_addFunction (def : BaseFunction) : Model.Build unit :=
  Model.addFunction def ;; mret tt.

(** Modelled from the spec: [ContractBuilder.addFunctionCode], missing from
    the sources. The body of a function is set at most once. *)
Definition model_addFunctionCode (code : string) (fn : BaseFunction)
    : Model.Build unit :=
  entry ← Model.addFunction fn;
  Model.setBody entry code.

(** Modelled from the spec: [ContractBuilder.addConstructorArgument],
    missing from the sources. The call names no owner: the argument is
    tagged with its contributor among the parents of the model, or as the
    contract's own (sections 3 and 4.4). *)
Definition model_addConstructorArgument (arg : FunctionArgument)
    : Model.Build unit :=
  c ← get;
  Model.addArgument arg (Model.contributor (arg_name arg) (Model.cm_parents c)).

(** Modelled from the spec: the builder of [./contract], which is not among
    the sources, as an implementation of the interface the features use. *)
#[export] Instance ModelBuilder : ContractBuilder Model.ContractModel := {|
  name := Model.cm_name;
  upgradeable := Model.cm_upgradeable;
  addParent := Model.addParent;
  addImportOnly := model_addImportOnly;
  addOverride := Model.addOverride;
  addModifier := model_addModifier;
  addFunction := model_addFunction;
  addFunctionCode := model_addFunctionCode;
  addConstructorArgument := model_addConstructorArgument;
  addConstructorCode := Model.addCode;
  addConstantOrImmutableOrErrorDefinition :=
    model_addConstantOrImmutableOrErrorDefinition;
  addStateVariable := model_addStateVariable;
  addVariable := Model.addVariable;
|}.

(** Modelled from the spec: the helpers of [./set-namespaced-storage],
    which is not among the sources. The text of the accessor statement is
    given by neither the sources nor the design document: it is a
    parameter. *)
Definition ModelStorage (accessor : string → string)
    : NamespacedStorage Model.ContractModel :=
  {| setNamespacedStorage := Model.setNamespacedStorage;
     toStorageStructInstantiation := accessor |}.

(** *** Reading a model *)

(** The entry of a function in the table, by identity. *)
Definition entryOf (fn : BaseFunction) (c : Model.ContractModel)
    : option Model.FunctionEntry :=
  snd <$> list_find
    (λ e, Model.signature (Model.entry_def e) = Model.signature fn)
    (Model.cm_functions c).

(** The modifiers a function carries, in the order they were applied. *)
Definition modifiersOf (fn : BaseFunction) (c : Model.ContractModel)
    : list string :=
  from_option Model.entry_modifiers [] (entryOf fn c).

(** [x] appended to [l] unless it is there already. *)
Definition addIfAbsent (x : string) (l : list string) : list string :=
  if decide (x ∈ l) then l else l ++ [x].

(** How often an identifier occurs among the parents. *)
Definition parentCount (identifier : string) (c : Model.ContractModel) : nat :=
  length (filter (λ p, Model.parent_identifier p = identifier) (Model.cm_parents c)).

(** How often an argument name occurs in the constructor. *)
Definition argumentCount (argName : string) (c : Model.ContractModel) : nat :=
  length (filter (λ a, arg_name (Model.ctor_arg a) = argName)
                 (Model.cm_constructorArgs c)).

(** *** What a procedure keeps *)

(** [op] leaves what [view] shows of a model as it was. *)
Definition keeps {A T : Type} (view : Model.ContractModel → T)
    (op : Model.Build A) : Prop :=
  ∀ c x c', op c = inr (x, c') → view c' = view c.

(** What [addAddressVerification] in ['roles'] mode leaves of the function
    [fn] it guards, whose modifiers were [before]: the guard
    [onlyRole(DEFAULT_ADMIN_ROLE_ROLE)] is added, the guard
    [onlyRole(DEFAULT_ADMIN_ROLE)] is not, and the constant
    [DEFAULT_ADMIN_ROLE_ROLE] is registered as the hash of its own name. *)
Definition guardedByDerivedRole (fn : BaseFunction) (before : list string)
    (c' : Model.ContractModel) : Prop :=
  modifiersOf fn c' = addIfAbsent "onlyRole(DEFAULT_ADMIN_ROLE_ROLE)" before ∧
  ("onlyRole(DEFAULT_ADMIN_ROLE)" ∈ modifiersOf fn c' ↔
   "onlyRole(DEFAULT_ADMIN_ROLE)" ∈ before) ∧
  Model.lookupSymbol KNamedConstant
    ("bytes32 public constant DEFAULT_ADMIN_ROLE_ROLE = keccak256(" +:+ Js.dq
       +:+ "DEFAULT_ADMIN_ROLE_ROLE" +:+ Js.dq +:+ ");")
    (Model.cm_registry c') =
    Some (PNamedConstant
      ("bytes32 public constant DEFAULT_ADMIN_ROLE_ROLE = keccak256(" +:+ Js.dq
         +:+ "DEFAULT_ADMIN_ROLE_ROLE" +:+ Js.dq +:+ ");") []).

(** *** The three access modes of [setAccessControl]

    For each [case] of the [switch]: the value it matches, the parent it
    adds with its construction arguments, the constructor argument it
    declares and the zero-address check it writes. *)

Inductive AccessMode : Type := ModeOwnable | ModeRoles | ModeManaged.

Definition accessOf (m : AccessMode) : AccessValue :=
  match m with
  | ModeOwnable => AStr "ownable"
  | ModeRoles => AStr "roles"
  | ModeManaged => AStr "managed"
  end.

Definition parentOf (m : AccessMode) : ImportContract :=
  match m with
  | ModeOwnable => parents.Ownable
  | ModeRoles => parents.AccessControl
  | ModeManaged => parents.AccessManaged
  end.

Definition paramsOf (m : AccessMode) : list Value :=
  match m with
  | ModeOwnable => [Lit "initialOwner"]
  | ModeRoles => []
  | ModeManaged => [Lit "initialAuthority"]
  end.

Definition argumentOf (m : AccessMode) : string :=
  match m with
  | ModeOwnable => "initialOwner"
  | ModeRoles => "defaultAdmin"
  | ModeManaged => "initialAuthority"
  end.

Definition zeroCheckOf (m : AccessMode) : string :=
  match m with
  | ModeOwnable => requireOwner
  | ModeRoles => requireAdmin
  | ModeManaged => requireAuthority
  end.

(** What follows the zero-address check in the same [case]. *)
Definition afterZeroCheck (m : AccessMode) : list string :=
  match m with
  | ModeRoles => [grantAdmin]
  | _ => []
  end.

(** [addConstructorCode] for each statement of a list, in order. *)
Fixpoint addConstructorCodes {B : Type} {builder : ContractBuilder B}
    (stmts : list string) : M BuildError B unit :=
  match stmts with
  | [] => mret tt
  | stmt :: rest => addConstructorCode stmt ;; addConstructorCodes rest
  end.

(** What the [case] does after its [if] block: only [roles] declares an
    override. *)
Definition afterBlock {B : Type} {builder : ContractBuilder B}
    {common : CommonFunctions} (m : AccessMode) : M BuildError B unit :=
  match m with
  | ModeRoles => addOverride parents.AccessControl supportsInterface
  | _ => mret tt
  end.

(** *** Sample collaborators, for running the features *)

Definition sampleFunctions : CommonFunctions :=
  {| supportsInterface :=
       {| fn_name := "supportsInterface";
          fn_kind := Public;
          fn_args := [{| arg_type := "bytes4"; arg_name := "interfaceId" |}];
          fn_returns := ["bool"];
          fn_mutability := Some View;
          fn_code := [];
          fn_docs := {| notice := ""; details := None; params := []; returns := [] |} |} |}.

Definition sampleAccessor (contractName : string) : string :=
  contractName +:+ "Storage storage $ = _get" +:+ contractName +:+ "Storage();".

(** *** Further readings of a model and of a procedure *)

(** The modifier [requireAccessControl] attaches in each [case] of its
    second [switch]. *)
Definition guardOf (m : AccessMode) (roleIdPrefix : string) : string :=
  match m with
  | ModeOwnable => "onlyOwner"
  | ModeRoles => "onlyRole(" +:+ (roleIdPrefix +:+ "_ROLE") +:+ ")"
  | ModeManaged => "restricted"
  end.

(** The body a function has in the table, if the function is there. *)
Definition bodyOf (fn : BaseFunction) (c : Model.ContractModel)
    : option (list string) :=
  Model.entry_body <$> entryOf fn c.

(** [op] only appends to the list that [view] shows of a model. *)
Definition appendsTo {A T : Type} (view : Model.ContractModel → list T)
    (op : Model.Build A) : Prop :=
  ∀ c x c', op c = inr (x, c') → view c `prefix_of` view c'.

(** [op] leaves a model that has the property [P] with the property [P]. *)
Definition preserves {A : Type} (P : Model.ContractModel → Prop)
    (op : Model.Build A) : Prop :=
  ∀ c x c', P c → op c = inr (x, c') → P c'.



(** The five template literals the freeform variant hands to
    [addVariable], in call order. *)
Definition freeformBlocks : list string :=
  [ Freeform.block "// Mapping to track addresses that have been verified"
                   "mapping(address => bool) private _verifiedAddresses;";
    Freeform.block "// Event emitted when an address is verified"
                   "event AddressVerified(address indexed account);";
    Freeform.block "// Event emitted when address verification is revoked"
                   "event VerificationRevoked(address indexed account);";
    Freeform.block "// Error thrown when signature verification fails"
                   "error InvalidSignature();";
    Freeform.block "// Error thrown when address is already verified"
                   "error AlreadyVerified();" ].


(** What is registered under a key of a kind in a model. *)
Definition registered (kind : SymbolKind) (key : string)
    (c : Model.ContractModel) : option Payload :=
  Model.lookupSymbol kind key (Model.cm_registry c).

(** [op] fails with no error but those of [Err]. *)
Definition throwsOnly {A : Type} (Err : BuildError → Prop)
    (op : Model.Build A) : Prop :=
  ∀ c e, op c = inl e → Err e.




(** The errors of access control: the model is frozen; an address argument
    of a mode, or the role owner, is the name of an argument of another
    owner; the constant of the role is registered with another payload. *)
Definition accessControlError (roleIdPrefix : string)
    (roleOwner : option string) (e : BuildError) : Prop :=
  e = ModelFrozenError ∨
  (∃ argName first second,
     e = ArgumentNameCollision argName first second ∧ first ≠ second ∧
     (argName ∈ ["initialOwner"; "defaultAdmin"; "initialAuthority"] ∨
      roleOwner = Some argName)) ∨
  (∃ present,
     e = SymbolConflict (roleConstant (roleIdPrefix +:+ "_ROLE")) present
           (PNamedConstant (roleConstant (roleIdPrefix +:+ "_ROLE")) []) ∧
     present ≠ PNamedConstant (roleConstant (roleIdPrefix +:+ "_ROLE")) []).

(** What follows the declaration of the mapping in the structured variant
    of [addAddressVerification]: the three functions. *)
Definition structuredFunctions `{!CommonFunctions} (accessor : string → string)
    (access : AccessValue) : Model.Build unit :=
  Structured.addIsAddressVerifiedFunction (storage := ModelStorage accessor) ;;
  Structured.addVerifyAddressOwnershipFunction (storage := ModelStorage accessor) ;;
  if accessTruthy access then
    Structured.addRevokeAddressVerificationFunction
      (storage := ModelStorage accessor) access
  else mret tt.



(** The function [def] is in the table, and its entry satisfies [Q]. *)
Definition decorated (def : BaseFunction) (Q : Model.FunctionEntry → Prop)
    (c : Model.ContractModel) : Prop :=
  ∃ i e,
    list_find (λ e, Model.signature (Model.entry_def e) = Model.signature def)
      (Model.cm_functions c) = Some (i, e) ∧ Q e.

(** When [op] returns, the model it returns satisfies [P]. *)
Definition establishes {A : Type} (P : Model.ContractModel → Prop)
    (op : Model.Build A) : Prop :=
  ∀ c x c', op c = inr (x, c') → P c'.




End Solidity.

(** ** Stylus *)

Module Stylus.

(** [export const accessOptions = [false, 'ownable', 'roles']]. *)
Definition accessOptions : list AccessValue :=
  [AFalse; AStr "ownable"; AStr "roles"].

Definition DEFAULT_ACCESS_CONTROL : string := "ownable".

(** [throw new Error(message)]. *)
Inductive Exception : Type :=
| Error (message : string).

Definition unknownAccess : Exception := Error "Unknown value for `access`".

Section Features.
(** The objects a call may reach live in a store; the builder, the trait
    and the function are references into it. Every statement that would
    read or write through them is commented out in the source. *)
Context {Store Ref : Type}.

(** [export function setAccessControl(_c, access): void]. *)
Definition setAccessControl (_c : Ref) (access : AccessValue)
    : M Exception Store unit :=
  if access === AFalse then mret tt
  else if access === AStr "ownable" then mret tt
  else if access === AStr "roles" then mret tt
  else mthrow unknownAccess.

(** [export function requireAccessControl(c, _trait, _fn, access,
    _roleIdPrefix, _roleOwner): void]. *)
Definition requireAccessControl (c _trait _fn : Ref) (access : AccessValue)
    (_roleIdPrefix : string) (_roleOwner : option string)
    : M Exception Store unit :=
  let access := if access === AFalse then AStr DEFAULT_ACCESS_CONTROL else access in
  setAccessControl c access ;;
  if access === AStr "ownable" then mret tt
  else if access === AStr "roles" then mret tt
  else mthrow unknownAccess.

End Features.
End Stylus.


(** * Facts *)

Import Solidity.

(** ** Running a procedure *)

Section Running.
Context {E S : Type}.

Lemma bind_run {A B} (m : M E S A) (f : A → M E S B) (s : S) :
  (m ≫= f) s = match m s with inl e => inl e | inr (a, s') => f a s' end.
Proof. reflexivity. Qed.

Lemma bind_returns {A B} (m : M E S A) (f : A → M E S B) (s s2 : S) (b : B) :
  (m ≫= f) s = inr (b, s2) →
  ∃ a s1, m s = inr (a, s1) ∧ f a s1 = inr (b, s2).
Proof.
  rewrite bind_run. destruct (m s) as [e|[a s1]]; [discriminate|]. eauto.
Qed.

Lemma bind_step {A B} (m : M E S A) (f : A → M E S B) (s s1 : S) (a : A) :
  m s = inr (a, s1) → (m ≫= f) s = f a s1.
Proof. intros Hm. by rewrite bind_run, Hm. Qed.


End Running.

(** Unfolds the plumbing of [M] and the guard of the builder's operations. *)
Ltac unfold_build :=
  cbv beta iota delta
    [mbind M_bind mret M_ret mthrow M_throw get modify Model.building].

Ltac destruct_units :=
  repeat match goal with u : unit |- _ => destruct u end.

(** ** The components of the model, run on a model that is Building *)

Section Components.
Implicit Types c : Model.ContractModel.

Lemma building_run c :
  Model.building c =
    match Model.cm_phase c with
    | Model.Building => inr (tt, c)
    | Model.Emitted => inl ModelFrozenError
    end.
Proof. unfold_build. by destruct (Model.cm_phase c). Qed.

Lemma addParent_run c contract params :
  Model.cm_phase c = Model.Building →
  Model.addParent contract params c =
    if Model.hasParent (contract_name contract) c then inr (false, c)
    else inr (true, Model.with_parents (λ ps, ps ++
           [{| Model.parent_contract := contract; Model.parent_params := params |}]) c).
Proof.
  intros Hc. unfold Model.addParent. unfold_build. rewrite Hc.
  by destruct (Model.hasParent _ c).
Qed.

Lemma addParent_returns c contract params added c' :
  Model.addParent contract params c = inr (added, c') →
  Model.cm_phase c = Model.Building.
Proof.
  unfold Model.addParent. unfold_build.
  by destruct (Model.cm_phase c).
Qed.

Lemma addArgument_run c arg owner :
  Model.cm_phase c = Model.Building →
  Model.addArgument arg owner c =
    match list_find (λ a, arg_name (Model.ctor_arg a) = arg_name arg)
                    (Model.cm_constructorArgs c) with
    | Some (_, present) =>
        if decide (Model.ctor_owner present = owner) then inr (tt, c)
        else inl (ArgumentNameCollision (arg_name arg) (Model.ctor_owner present) owner)
    | None =>
        inr (tt, Model.with_constructorArgs (λ args, args ++
               [{| Model.ctor_arg := arg; Model.ctor_owner := owner |}]) c)
    end.
Proof.
  intros Hc. unfold Model.addArgument. unfold_build. rewrite Hc.
  destruct (list_find _ _) as [[i present]|]; [|done].
  by destruct (decide _).
Qed.

Lemma addCode_run c stmt :
  Model.cm_phase c = Model.Building →
  Model.addCode stmt c =
    inr (tt, Model.with_constructorCode (λ body, body ++ [stmt]) c).
Proof.
  intros Hc. unfold Model.addCode. unfold_build. by rewrite Hc.
Qed.

Lemma register_run c kind key payload :
  Model.cm_phase c = Model.Building →
  Model.register kind key payload c =
    match Model.lookupSymbol kind key (Model.cm_registry c) with
    | Some registered =>
        if decide (registered = payload) then inr (false, c)
        else inl (SymbolConflict key registered payload)
    | None =>
        inr (true, Model.with_registry (λ r, r ++
          [{| Model.sym_kind := kind; Model.sym_key := key;
              Model.sym_payload := payload |}]) c)
    end.
Proof.
  intros Hc. unfold Model.register. unfold_build. rewrite Hc.
  destruct (Model.lookupSymbol _ _ _); [|done]. by destruct (decide _).
Qed.

Lemma addFunction_run c def :
  Model.cm_phase c = Model.Building →
  Model.addFunction def c =
    match list_find (λ e, Model.signature (Model.entry_def e) = Model.signature def)
                    (Model.cm_functions c) with
    | Some (entry, _) => inr (entry, c)
    | None =>
        inr (length (Model.cm_functions c),
             Model.with_functions (λ fs, fs ++ [Model.newEntry def]) c)
    end.
Proof.
  intros Hc. unfold Model.addFunction. unfold_build. rewrite Hc.
  by destruct (list_find _ _) as [[i e]|].
Qed.

Lemma setBody_run c entry text :
  Model.cm_phase c = Model.Building →
  Model.setBody entry text c =
    match Model.cm_functions c !! entry with
    | Some e =>
        if decide (Model.entry_body e = []) then
          inr (tt, Model.with_functions (alter (Model.setEntryBody text) entry) c)
        else inl (DuplicateBodyError (fn_name (Model.entry_def e)))
    | None => inr (tt, c)
    end.
Proof.
  intros Hc. unfold Model.setBody. unfold_build. rewrite Hc.
  destruct (_ !! _); [|done]. by destruct (decide _).
Qed.

Lemma addModifier_run c entry modifierText :
  Model.cm_phase c = Model.Building →
  Model.addModifier entry modifierText c =
    inr (tt, Model.with_functions (alter (Model.addEntryModifier modifierText) entry) c).
Proof.
  intros Hc. unfold Model.addModifier. unfold_build. by rewrite Hc.
Qed.


Lemma frozen_addParent c contract params :
  Model.cm_phase c = Model.Emitted →
  Model.addParent contract params c = inl ModelFrozenError.
Proof.
  intros Hc. unfold Model.addParent. unfold_build. by rewrite Hc.
Qed.

End Components.

(** ** Finding an entry after an update in place *)

Section Find.
Context {A : Type} (P : A → Prop) `{!∀ x, Decision (P x)}.

Lemma list_find_alter_hit (f : A → A) (l : list A) (i : nat) (x : A) :
  list_find P l = Some (i, x) → P (f x) →
  list_find P (alter f i l) = Some (i, f x).
Proof.
  intros (Hi & HP & Hleast)%list_find_Some HPf. apply list_find_Some.
  split_and!; [by rewrite list_lookup_alter_eq, Hi|done|].
  intros j y Hj Hlt. rewrite list_lookup_alter_ne in Hj by lia. eauto.
Qed.

Lemma list_find_alter_miss (f : A → A) (l : list A) (i j : nat) (x : A) :
  (∀ y, P (f y) ↔ P y) → i ≠ j →
  list_find P l = Some (j, x) →
  list_find P (alter f i l) = Some (j, x).
Proof.
  intros Hf Hne (Hj & HP & Hleast)%list_find_Some. apply list_find_Some.
  split_and!; [by rewrite list_lookup_alter_ne|done|].
  intros k y Hk Hlt. destruct (decide (i = k)) as [->|Hik].
  - rewrite list_lookup_alter_eq in Hk.
    destruct (l !! k) as [z|] eqn:Hz; simplify_eq/=. rewrite Hf. eauto.
  - rewrite list_lookup_alter_ne in Hk by done. eauto.
Qed.

Lemma list_find_alter_None (f : A → A) (l : list A) (i : nat) :
  (∀ y, P (f y) ↔ P y) →
  list_find P l = None → list_find P (alter f i l) = None.
Proof.
  intros Hf Hnone. apply list_find_None, Forall_lookup. intros k y Hk.
  apply list_find_None in Hnone. rewrite Forall_lookup in Hnone.
  destruct (decide (i = k)) as [->|Hik].
  - rewrite list_lookup_alter_eq in Hk.
    destruct (l !! k) as [z|] eqn:Hz; simplify_eq/=. rewrite Hf. eauto.
  - rewrite list_lookup_alter_ne in Hk by done. eauto.
Qed.

Lemma list_find_snoc_new (l : list A) (x : A) :
  list_find P l = None → P x →
  list_find P (l ++ [x]) = Some (length l, x).
Proof.
  intros Hnone HP. rewrite list_find_app_r by done. simpl.
  by rewrite decide_True.
Qed.

Lemma list_find_snoc_old (l : list A) (x : A) (i : nat) (y : A) :
  list_find P l = Some (i, y) → list_find P (l ++ [x]) = Some (i, y).
Proof. apply list_find_app_l. Qed.

Lemma alter_twice (f : A → A) (l : list A) (i : nat) :
  (∀ y, f (f y) = f y) → alter f i (alter f i l) = alter f i l.
Proof.
  intros Hf. rewrite list_alter_alter_eq. apply list_alter_ext; [|done].
  intros y _. apply Hf.
Qed.

End Find.

(** ** The function table *)

Section FunctionTable.
Implicit Types c : Model.ContractModel.

Lemma addEntryOverride_twice identifier e :
  Model.addEntryOverride identifier (Model.addEntryOverride identifier e) =
  Model.addEntryOverride identifier e.
Proof.
  unfold Model.addEntryOverride. simpl. f_equal.
  by rewrite (assoc_L (∪)), (idemp_L (∪)).
Qed.

Lemma addEntryModifier_twice modifierText e :
  Model.addEntryModifier modifierText (Model.addEntryModifier modifierText e) =
  Model.addEntryModifier modifierText e.
Proof.
  unfold Model.addEntryModifier.
  destruct (decide (modifierText ∈ Model.entry_modifiers e)) as [Hin|Hout].
  - by rewrite decide_True.
  - simpl. rewrite decide_True; [done|]. set_solver.
Qed.

(** What [addFunction] returns is the position of the entry with the
    identity of the definition, in the table it leaves. *)
Lemma addFunction_returns c def entry c' :
  Model.addFunction def c = inr (entry, c') →
  Model.cm_phase c = Model.Building ∧
  (∃ e, list_find (λ e, Model.signature (Model.entry_def e) = Model.signature def)
                  (Model.cm_functions c') = Some (entry, e)) ∧
  (c' = c ∨ c' = Model.with_functions (λ fs, fs ++ [Model.newEntry def]) c).
Proof.
  intros Hrun. assert (Model.cm_phase c = Model.Building) as Hc.
  { revert Hrun. unfold Model.addFunction. unfold_build.
    by destruct (Model.cm_phase c). }
  rewrite addFunction_run in Hrun by done. split; [done|].
  destruct (list_find _ (Model.cm_functions c)) as [[i e]|] eqn:Hfind;
    simplify_eq.
  - split; [eauto|by left].
  - split; [|by right]. exists (Model.newEntry def). simpl.
    by apply list_find_snoc_new.
Qed.

Lemma addFunction_building c def :
  Model.cm_phase c = Model.Building →
  ∃ entry c', Model.addFunction def c = inr (entry, c').
Proof.
  intros Hc. rewrite addFunction_run by done.
  destruct (list_find _ _) as [[i e]|]; eauto.
Qed.

Lemma addFunction_again c def entry c' :
  Model.addFunction def c = inr (entry, c') →
  Model.addFunction def c' = inr (entry, c').
Proof.
  intros (Hc & [e He] & Hc')%addFunction_returns.
  rewrite addFunction_run; [by rewrite He|].
  by destruct Hc' as [->| ->].
Qed.

End FunctionTable.

(** ** Overrides *)

Section Overrides.
Implicit Types c : Model.ContractModel.

Lemma addOverride_returns c parentRef def c1 :
  Model.addOverride parentRef def c = inr (tt, c1) →
  ∃ entry c',
    Model.addFunction def c = inr (entry, c') ∧
    c1 = Model.with_functions
           (alter (Model.addEntryOverride (contract_name parentRef)) entry) c'.
Proof.
  unfold Model.addOverride. intros (entry & c' & Hadd & Hmod)%bind_returns.
  exists entry, c'. split; [done|]. unfold modify in Hmod. by simplify_eq.
Qed.

Lemma addOverride_building c parentRef def :
  Model.cm_phase c = Model.Building →
  ∃ c1, Model.addOverride parentRef def c = inr (tt, c1).
Proof.
  intros (entry & c' & Hadd)%(addFunction_building _ def).
  unfold Model.addOverride. rewrite (bind_step _ _ _ _ _ Hadd). eauto.
Qed.

(** An override leaves everything but the function table as it was. *)
Lemma addOverride_frame c parentRef def c1 :
  Model.addOverride parentRef def c = inr (tt, c1) →
  Model.cm_phase c = Model.Building ∧
  ∃ F, c1 = Model.with_functions F c.
Proof.
  intros (entry & c' & (Hc & _ & Hc')%addFunction_returns & ->)%addOverride_returns.
  split; [done|]. destruct Hc' as [->| ->]; [by eexists|].
  by exists (λ fs, alter (Model.addEntryOverride (contract_name parentRef)) entry
                     (fs ++ [Model.newEntry def])).
Qed.

(** Declaring the same override again changes nothing. *)
Lemma addOverride_again c parentRef def c1 :
  Model.addOverride parentRef def c = inr (tt, c1) →
  Model.addOverride parentRef def c1 = inr (tt, c1).
Proof.
  intros (entry & c' & Hadd & ->)%addOverride_returns.
  destruct (addFunction_returns _ _ _ _ Hadd) as (Hc & [e He] & Hc').
  assert (Model.cm_phase c' = Model.Building) as Hc'b
    by (by destruct Hc' as [->| ->]).
  unfold Model.addOverride. rewrite bind_run, addFunction_run by done. simpl.
  rewrite (list_find_alter_hit _ _ _ _ _ He)
    by (by apply list_find_Some in He as (_ & HP & _)).
  unfold modify. do 2 f_equal. unfold Model.with_functions. simpl. f_equal.
  apply alter_twice, addEntryOverride_twice.
Qed.

End Overrides.

(** ** setAccessControl on any builder *)

Section AnyBuilder.
Context {B : Type} {builder : ContractBuilder B} {common : CommonFunctions}.
Implicit Types c : B.
Implicit Types m : AccessMode.

(** When [addParent] returns false, no constructor argument is declared and
    no constructor statement is written. *)
Lemma setAccessControl_parent_present c m c0 :
  addParent (parentOf m) (paramsOf m) c = inr (false, c0) →
  setAccessControl (accessOf m) c = afterBlock m c0.
Proof.
  intros Hadd. destruct m; simpl in Hadd; unfold setAccessControl; simpl;
    by rewrite bind_run, Hadd.
Qed.

(** When [addParent] returns true, the argument of the mode is declared and
    its zero-address check is the first statement written. *)
Lemma setAccessControl_parent_added c m c0 :
  addParent (parentOf m) (paramsOf m) c = inr (true, c0) →
  setAccessControl (accessOf m) c =
    (addConstructorArgument {| arg_type := "address"; arg_name := argumentOf m |} ;;
     addConstructorCodes (zeroCheckOf m :: afterZeroCheck m) ;;
     afterBlock m) c0.
Proof.
  intros Hadd. destruct m; simpl in Hadd; unfold setAccessControl; simpl;
    rewrite bind_run, Hadd; unfold_build; repeat case_match; simplify_eq;
    by destruct_units.
Qed.

End AnyBuilder.

(** ** setAccessControl on the model *)

Section SetAccessControl.
Context `{!CommonFunctions}.
Implicit Types c : Model.ContractModel.
Implicit Types m : AccessMode.

Lemma setAccessControl_present c m :
  Model.cm_phase c = Model.Building →
  Model.hasParent (contract_name (parentOf m)) c = true →
  setAccessControl (accessOf m) c = afterBlock m c.
Proof.
  intros Hc Hp. apply setAccessControl_parent_present. simpl.
  by rewrite addParent_run, Hp.
Qed.

Lemma setAccessControl_absent c m :
  Model.cm_phase c = Model.Building →
  Model.hasParent (contract_name (parentOf m)) c = false →
  setAccessControl (accessOf m) c =
    (addConstructorArgument {| arg_type := "address"; arg_name := argumentOf m |} ;;
     addConstructorCodes (zeroCheckOf m :: afterZeroCheck m) ;;
     afterBlock m)
      (Model.with_parents (λ ps, ps ++
         [{| Model.parent_contract := parentOf m;
             Model.parent_params := paramsOf m |}]) c).
Proof.
  intros Hc Hp. apply setAccessControl_parent_added. simpl.
  by rewrite addParent_run, Hp.
Qed.

End SetAccessControl.

(** ** Counting entries *)

Section Counting.
Context {A : Type} (P : A → Prop) `{!∀ x, Decision (P x)}.

Lemma filter_none (l : list A) : Forall (λ x, ¬ P x) l → filter P l = [].
Proof.
  induction 1 as [|x l Hx _ IH]; [done|]. by rewrite filter_cons_False.
Qed.

Lemma list_find_None_count (l : list A) :
  list_find P l = None → length (filter P l) = 0.
Proof. intros Hnone%list_find_None. by rewrite filter_none. Qed.

Lemma list_find_Some_count (l : list A) (i : nat) (x : A) :
  list_find P l = Some (i, x) → 1 ≤ length (filter P l).
Proof.
  intros (Hi & HP & _)%list_find_Some.
  assert (x ∈ filter P l) as Hin.
  { apply list_elem_of_filter. split; [done|]. by eapply list_elem_of_lookup_2. }
  destruct (filter P l); [by apply not_elem_of_nil in Hin|simpl; lia].
Qed.

End Counting.

Section Parents.
Implicit Types c : Model.ContractModel.

Lemma hasParent_false_count c identifier :
  Model.hasParent identifier c = false → parentCount identifier c = 0.
Proof.
  unfold Model.hasParent, parentCount. intros Hout%bool_decide_eq_false.
  rewrite filter_none; [done|]. apply Forall_forall. intros p Hp Hid.
  apply Hout, list_elem_of_fmap. eauto.
Qed.

Lemma hasParent_added c contract params :
  Model.hasParent (contract_name contract)
    (Model.with_parents (λ ps, ps ++
       [{| Model.parent_contract := contract; Model.parent_params := params |}]) c)
  = true.
Proof.
  unfold Model.hasParent. apply bool_decide_eq_true. simpl.
  rewrite fmap_app. apply elem_of_app. right. simpl. by apply list_elem_of_singleton.
Qed.

Lemma parentCount_added c contract params :
  parentCount (contract_name contract)
    (Model.with_parents (λ ps, ps ++
       [{| Model.parent_contract := contract; Model.parent_params := params |}]) c)
  = S (parentCount (contract_name contract) c).
Proof.
  unfold parentCount, Model.with_parents; cbn [Model.cm_parents].
  rewrite filter_app, length_app, filter_cons_True, filter_nil by done.
  simpl. lia.
Qed.

End Parents.

(** ** The constructor *)

Section Constructor.
Implicit Types c : Model.ContractModel.

Lemma with_constructorCode_nil c :
  Model.with_constructorCode (λ body, body ++ []) c = c.
Proof. destruct c. unfold Model.with_constructorCode. simpl. by rewrite app_nil_r. Qed.

Lemma with_functions_id c : Model.with_functions id c = c.
Proof. by destruct c. Qed.

(** Statements added one after the other end up appended in that order. *)
Lemma addConstructorCodes_run c stmts :
  Model.cm_phase c = Model.Building →
  addConstructorCodes stmts c =
    inr (tt, Model.with_constructorCode (λ body, body ++ stmts) c).
Proof.
  revert c. induction stmts as [|stmt rest IH]; intros c Hc; simpl.
  - by rewrite with_constructorCode_nil.
  - rewrite bind_run, addCode_run by done. rewrite IH by done.
    do 2 f_equal. unfold Model.with_constructorCode. simpl. f_equal.
    by rewrite <- app_assoc.
Qed.

(** The contributor of an argument once a parent is added, and a
    constructor argument added to a model. *)
Lemma contributor_snoc argName ps p :
  Model.contributor argName (ps ++ [p]) =
    if decide (argName ∈ valueText <$> Model.parent_params p)
    then OwnerParent (Model.parent_identifier p)
    else Model.contributor argName ps.
Proof. unfold Model.contributor. by rewrite foldl_app. Qed.

Lemma addConstructorArgument_run c arg :
  addConstructorArgument arg c =
    Model.addArgument arg
      (Model.contributor (arg_name arg) (Model.cm_parents c)) c.
Proof. reflexivity. Qed.

Lemma addConstructorArgument_returns c arg c' :
  addConstructorArgument arg c = inr (tt, c') →
  Model.cm_phase c = Model.Building ∧
  (c' = c ∨
   c' = Model.with_constructorArgs (λ args, args ++
          [{| Model.ctor_arg := arg;
              Model.ctor_owner :=
                Model.contributor (arg_name arg) (Model.cm_parents c) |}]) c) ∧
  (argumentCount (arg_name arg) c ≤ 1 → argumentCount (arg_name arg) c' = 1).
Proof.
  rewrite addConstructorArgument_run. intros Hrun.
  assert (Model.cm_phase c = Model.Building) as Hc.
  { revert Hrun. unfold Model.addArgument. unfold_build.
    by destruct (Model.cm_phase c). }
  split; [done|]. rewrite addArgument_run in Hrun by done.
  destruct (list_find _ _) as [[i present]|] eqn:Hfind.
  - destruct (decide _); simplify_eq. split; [by left|].
    apply list_find_Some_count in Hfind. unfold argumentCount. lia.
  - simplify_eq. split; [by right|]. intros _.
    apply list_find_None_count in Hfind.
    unfold argumentCount, Model.with_constructorArgs; cbn [Model.cm_constructorArgs].
    by rewrite filter_app, length_app, Hfind, filter_cons_True, filter_nil.
Qed.

End Constructor.

(** ** Calling setAccessControl again *)

Section Idempotence.
Context `{!CommonFunctions}.
Implicit Types c : Model.ContractModel.
Implicit Types m : AccessMode.

Lemma afterBlock_building c m :
  Model.cm_phase c = Model.Building → ∃ c1, afterBlock m c = inr (tt, c1).
Proof.
  intros Hc. destruct m; simpl; eauto using addOverride_building.
Qed.

Lemma afterBlock_frame c m c1 :
  afterBlock m c = inr (tt, c1) → ∃ F, c1 = Model.with_functions F c.
Proof.
  destruct m; simpl.
  - intros [= <-]. exists id. by rewrite with_functions_id.
  - by intros (_ & HF)%addOverride_frame.
  - intros [= <-]. exists id. by rewrite with_functions_id.
Qed.

Lemma afterBlock_again c m c1 :
  afterBlock m c = inr (tt, c1) → afterBlock m c1 = inr (tt, c1).
Proof.
  destruct m; simpl; [by intros [= <-]|apply addOverride_again|by intros [= <-]].
Qed.

(** The two ways through a [case]: the parent was there, or it is added
    with its argument and statements; the override comes last. *)
Lemma setAccessControl_returns c m c1 :
  setAccessControl (accessOf m) c = inr (tt, c1) →
  Model.cm_phase c = Model.Building ∧
  ∃ cb, afterBlock m cb = inr (tt, c1) ∧
    Model.cm_phase cb = Model.Building ∧
    Model.hasParent (contract_name (parentOf m)) cb = true ∧
    ((Model.hasParent (contract_name (parentOf m)) c = true ∧ cb = c) ∨
     (Model.hasParent (contract_name (parentOf m)) c = false ∧
      ∃ ca,
        addConstructorArgument
          {| arg_type := "address"; arg_name := argumentOf m |}
          (Model.with_parents (λ ps, ps ++
             [{| Model.parent_contract := parentOf m;
                 Model.parent_params := paramsOf m |}]) c) = inr (tt, ca) ∧
        cb = Model.with_constructorCode
               (λ body, body ++ zeroCheckOf m :: afterZeroCheck m) ca)).
Proof.
  intros Hrun. assert (Model.cm_phase c = Model.Building) as Hc.
  { destruct (Model.cm_phase c) eqn:Hph; [done|]. exfalso. revert Hrun.
    destruct m; unfold setAccessControl; simpl;
      rewrite bind_run, frozen_addParent by done; discriminate. }
  split; [done|].
  destruct (Model.hasParent (contract_name (parentOf m)) c) eqn:Hp.
  - rewrite setAccessControl_present in Hrun by done.
    exists c. split_and!; [done..|]. by left.
  - rewrite setAccessControl_absent in Hrun by done.
    apply bind_returns in Hrun as ([] & ca & Harg & Hrun).
    destruct (addConstructorArgument_returns _ _ _ Harg) as (_ & Hca & _).
    assert (Model.cm_phase ca = Model.Building) as Hcab
      by (by destruct Hca as [->| ->]).
    apply bind_returns in Hrun as ([] & cb & Hcode & Hrun).
    rewrite addConstructorCodes_run in Hcode by done. simplify_eq.
    eexists. split_and!; [done|done| |].
    + destruct Hca as [->| ->]; apply hasParent_added.
    + right. split; [done|]. eauto.
Qed.

Lemma setAccessControl_again c m c1 :
  setAccessControl (accessOf m) c = inr (tt, c1) →
  setAccessControl (accessOf m) c1 = inr (tt, c1).
Proof.
  intros (Hc & cb & Hafter & Hcb & Hp & _)%setAccessControl_returns.
  destruct (afterBlock_frame _ _ _ Hafter) as [F ->].
  rewrite setAccessControl_present by done.
  by eapply afterBlock_again.
Qed.

End Idempotence.

(** ** C1: setAccessControl is idempotent *)

(** C1. For each of the three access modes [m]: on any builder, when
    [addParent] returns false for the parent of [m], [setAccessControl]
    declares no constructor argument and writes no constructor statement
    (it only declares the override, in ['roles'] mode). On every model [c]:
    when the parent is already present, [setAccessControl] returns and
    leaves the parents, the constructor arguments and the constructor
    statements as they were; calling [setAccessControl] twice with the same
    mode gives the outcome of calling it once; and after two calls on a
    model without the parent there is exactly one inheritance entry for the
    parent, appended to the inheritance clause, and exactly one constructor
    argument of its name. *)
Theorem setAccessControl_idempotent `{!CommonFunctions}
    (m : AccessMode) (c : Model.ContractModel) :
  (∀ (B : Type) (builder : ContractBuilder B) (cB c0 : B),
     addParent (parentOf m) (paramsOf m) cB = inr (false, c0) →
     setAccessControl (accessOf m) cB = afterBlock m c0) ∧
  (∀ c0, addParent (parentOf m) (paramsOf m) c = inr (false, c0) →
     ∃ c', setAccessControl (accessOf m) c = inr (tt, c') ∧
       Model.cm_parents c' = Model.cm_parents c ∧
       Model.cm_constructorArgs c' = Model.cm_constructorArgs c ∧
       Model.cm_constructorCode c' = Model.cm_constructorCode c) ∧
  (setAccessControl (accessOf m) ;; setAccessControl (accessOf m)) c =
    setAccessControl (accessOf m) c ∧
  (∀ c2, Model.hasParent (contract_name (parentOf m)) c = false →
     argumentCount (argumentOf m) c ≤ 1 →
     (setAccessControl (accessOf m) ;; setAccessControl (accessOf m)) c = inr (tt, c2) →
     parentCount (contract_name (parentOf m)) c2 = 1 ∧
     argumentCount (argumentOf m) c2 = 1 ∧
     Model.emitInheritance c2 =
       Model.emitInheritance c ++ [contract_name (parentOf m)]).
Proof.
  assert ((setAccessControl (accessOf m) ;; setAccessControl (accessOf m)) c =
          setAccessControl (accessOf m) c) as Htwice.
  { rewrite bind_run.
    destruct (setAccessControl (accessOf m) c) as [e|[[] c1]] eqn:Hrun; [done|].
    by apply setAccessControl_again in Hrun. }
  split_and!; [|..|done|].
  - intros B builder cB c0. apply setAccessControl_parent_present.
  - intros c0 Hadd. pose proof (addParent_returns _ _ _ _ _ Hadd) as Hc.
    simpl in Hadd. rewrite addParent_run in Hadd by done.
    destruct (Model.hasParent _ c) eqn:Hp; [|discriminate].
    rewrite setAccessControl_present by done.
    destruct (afterBlock_building c m Hc) as [c' Hafter].
    exists c'. split; [done|].
    by destruct (afterBlock_frame _ _ _ Hafter) as [F ->].
  - intros c2 Hp Hargs Hrun. rewrite Htwice in Hrun.
    apply setAccessControl_returns in Hrun
      as (Hc & cb & Hafter & Hcb & _ & [[Hp' _]|(_ & ca & Harg & ->)]);
      [congruence|].
    destruct (afterBlock_frame _ _ _ Hafter) as [F ->].
    destruct (addConstructorArgument_returns _ _ _ Harg) as (_ & Hca & Hcount).
    split_and!.
    + transitivity (parentCount (contract_name (parentOf m)) ca); [done|].
      destruct Hca as [->| ->];
        change (parentCount ?i (Model.with_constructorArgs _ ?x))
          with (parentCount i x);
        by rewrite parentCount_added, hasParent_false_count.
    + by apply Hcount.
    + unfold Model.emitInheritance. simpl.
      destruct Hca as [->| ->]; simpl; by rewrite fmap_app.
Qed.

Section Witnesses.
#[local] Existing Instance sampleFunctions.

Lemma setAccessControl_idempotent_witness :
  Model.hasParent "AccessControl" (Model.empty "MyToken" false) = false ∧
  ∃ c2,
    (setAccessControl (AStr "roles") ;; setAccessControl (AStr "roles"))
      (Model.empty "MyToken" false) = inr (tt, c2) ∧
    parentCount "AccessControl" c2 = 1 ∧
    argumentCount "defaultAdmin" c2 = 1 ∧
    Model.emitInheritance c2 = ["AccessControl"].
Proof.
  split; [reflexivity|]. eexists. split; [vm_compute; reflexivity|].
  apply (proj2 (proj2 (proj2 (setAccessControl_idempotent ModeRoles
                                (Model.empty "MyToken" false))))).
  - reflexivity.
  - vm_compute. lia.
  - vm_compute. reflexivity.
Defined.

End Witnesses.

(** ** Modifiers *)

Section Modifiers.
Implicit Types c : Model.ContractModel.
Implicit Types fn def : BaseFunction.

Lemma entry_modifiers_added modifierText e :
  Model.entry_modifiers (Model.addEntryModifier modifierText e) =
  addIfAbsent modifierText (Model.entry_modifiers e).
Proof.
  unfold Model.addEntryModifier, addIfAbsent. by destruct (decide _).
Qed.

Lemma entry_def_modified modifierText e :
  Model.entry_def (Model.addEntryModifier modifierText e) = Model.entry_def e.
Proof. unfold Model.addEntryModifier. by destruct (decide _). Qed.

Lemma elem_of_addIfAbsent (x : string) (l : list string) : x ∈ addIfAbsent x l.
Proof.
  unfold addIfAbsent. destruct (decide (x ∈ l)); [done|].
  apply elem_of_app. right. by apply list_elem_of_singleton.
Qed.

Lemma elem_of_addIfAbsent_other (x y : string) (l : list string) :
  x ≠ y → y ∈ addIfAbsent x l ↔ y ∈ l.
Proof.
  intros Hne. unfold addIfAbsent. destruct (decide (x ∈ l)); [done|].
  rewrite elem_of_app, list_elem_of_singleton.
  split; [by intros [?| ->]|by left].
Qed.

(** An update in place that keeps definitions and modifiers keeps the
    modifiers of every function. *)
Lemma modifiersOf_alter c fn (f : Model.FunctionEntry → Model.FunctionEntry) i :
  (∀ e, Model.entry_def (f e) = Model.entry_def e) →
  (∀ e, Model.entry_modifiers (f e) = Model.entry_modifiers e) →
  modifiersOf fn (Model.with_functions (alter f i) c) = modifiersOf fn c.
Proof.
  intros Hdef Hmod. unfold modifiersOf, entryOf. simpl.
  destruct (list_find _ (Model.cm_functions c)) as [[j x]|] eqn:Hfind.
  - destruct (decide (i = j)) as [->|Hne].
    + rewrite (list_find_alter_hit _ f _ _ _ Hfind); [simpl; by rewrite Hmod|].
      rewrite Hdef. by apply list_find_Some in Hfind as (_ & HP & _).
    + rewrite (list_find_alter_miss _ f _ i j x); [done| |done..].
      intros y. by rewrite Hdef.
  - rewrite list_find_alter_None; [done| |done]. intros y. by rewrite Hdef.
Qed.

(** Adding a function gives no function a modifier. *)
Lemma modifiersOf_addFunction c def entry c' fn :
  Model.addFunction def c = inr (entry, c') →
  modifiersOf fn c' = modifiersOf fn c.
Proof.
  intros Hadd. pose proof (addFunction_returns _ _ _ _ Hadd) as (Hc & _ & _).
  rewrite addFunction_run in Hadd by done.
  destruct (list_find _ (Model.cm_functions c)) as [[i e]|] eqn:Hdefined;
    simplify_eq; [done|].
  unfold modifiersOf, entryOf. simpl.
  destruct (list_find (λ e, Model.signature (Model.entry_def e) = Model.signature fn)
              (Model.cm_functions c)) as [[j x]|] eqn:Hfind.
  - by rewrite (list_find_app_l _ _ _ _ _ Hfind).
  - rewrite list_find_app_r by done. simpl. by case_decide.
Qed.

(** The modifier is added to the function it names, and to no other. *)
Lemma addModifier_returns c modifierText fn c' :
  addModifier modifierText fn c = inr (tt, c') →
  Model.cm_phase c = Model.Building ∧
  (∃ F, c' = Model.with_functions F c) ∧
  modifiersOf fn c' = addIfAbsent modifierText (modifiersOf fn c).
Proof.
  simpl. unfold model_addModifier.
  intros (entry & cf & Hadd & Hmod)%bind_returns.
  pose proof (addFunction_returns _ _ _ _ Hadd) as (Hc & [e He] & Hcf).
  assert (Model.cm_phase cf = Model.Building) as Hcfb
    by (by destruct Hcf as [->| ->]).
  rewrite addModifier_run in Hmod by done. simplify_eq.
  split_and!; [done| |].
  - destruct Hcf as [->| ->]; [by eexists|].
    by exists (λ fs, alter (Model.addEntryModifier modifierText) entry
                       (fs ++ [Model.newEntry fn])).
  - rewrite <- (modifiersOf_addFunction _ _ _ _ fn Hadd).
    unfold modifiersOf, entryOf. simpl.
    rewrite (list_find_alter_hit _ _ _ _ _ He), He; simpl.
    + apply entry_modifiers_added.
    + rewrite entry_def_modified. by apply list_find_Some in He as (_ & HP & _).
Qed.

Lemma addModifier_building c modifierText fn :
  Model.cm_phase c = Model.Building →
  ∃ c', addModifier modifierText fn c = inr (tt, c').
Proof.
  intros Hc. simpl. unfold model_addModifier.
  destruct (addFunction_building c fn Hc) as (entry & cf & Hadd).
  rewrite (bind_step _ _ _ _ _ Hadd).
  apply addFunction_returns in Hadd as (_ & _ & Hcf).
  rewrite addModifier_run; [eauto|]. by destruct Hcf as [->| ->].
Qed.

End Modifiers.

(** ** C2: the Symbol Registry *)

Section Registry.
Implicit Types c : Model.ContractModel.

Lemma lookupSymbol_registered c kind key payload :
  Model.lookupSymbol kind key (Model.cm_registry c) = None →
  Model.lookupSymbol kind key
    (Model.cm_registry c ++
       [{| Model.sym_kind := kind; Model.sym_key := key;
           Model.sym_payload := payload |}]) = Some payload.
Proof.
  unfold Model.lookupSymbol. intros Hnone.
  destruct (list_find _ (Model.cm_registry c)) as [[i s]|] eqn:Hfind;
    [discriminate|].
  by rewrite (list_find_snoc_new _ _ _ Hfind).
Qed.

(** A first registration, then the same again, then another payload. *)
Lemma register_thrice c kind key payload other :
  Model.cm_phase c = Model.Building →
  Model.lookupSymbol kind key (Model.cm_registry c) = None →
  ∃ c1,
    Model.register kind key payload c = inr (true, c1) ∧
    Model.register kind key payload c1 = inr (false, c1) ∧
    (other ≠ payload →
     Model.register kind key other c1 = inl (SymbolConflict key payload other)).
Proof.
  intros Hc Hnone. eexists. split_and!.
  - by rewrite register_run, Hnone.
  - rewrite register_run by done. simpl.
    rewrite lookupSymbol_registered by done. by rewrite decide_True.
  - intros Hother. rewrite register_run by done. simpl.
    rewrite lookupSymbol_registered by done. by rewrite decide_False.
Qed.

End Registry.

(** C2. For every kind, key and payload, on a model that is Building:
    registering a key that is registered with the identical payload returns
    [added = false], raises no error and leaves the model as it was;
    registering it with a different payload fails with SymbolConflict,
    naming the key and both payloads. A key that is not registered is added
    once, is a no-op the second time, and conflicts with any other payload.
    In particular the import identifier ECDSA: adding it with a path
    succeeds, adding it again with the same path is a no-op, and adding it
    with a different path fails with SymbolConflict. *)
Theorem register_conflict (kind : SymbolKind) (key : string)
    (payload other : Payload) (pathA pathB : string) (c : Model.ContractModel) :
  Model.cm_phase c = Model.Building →
  (∀ registered,
     Model.lookupSymbol kind key (Model.cm_registry c) = Some registered →
     (registered = payload →
      Model.register kind key payload c = inr (false, c)) ∧
     (registered ≠ payload →
      Model.register kind key payload c =
        inl (SymbolConflict key registered payload))) ∧
  (Model.lookupSymbol kind key (Model.cm_registry c) = None →
   ∃ c1,
     Model.register kind key payload c = inr (true, c1) ∧
     Model.register kind key payload c1 = inr (false, c1) ∧
     (other ≠ payload →
      Model.register kind key other c1 = inl (SymbolConflict key payload other))) ∧
  (Model.lookupSymbol KImport "ECDSA" (Model.cm_registry c) = None →
   pathB ≠ pathA →
   ∃ c1,
     addImportOnly {| contract_name := "ECDSA"; contract_path := pathA |} c
       = inr (true, c1) ∧
     addImportOnly {| contract_name := "ECDSA"; contract_path := pathA |} c1
       = inr (false, c1) ∧
     addImportOnly {| contract_name := "ECDSA"; contract_path := pathB |} c1
       = inl (SymbolConflict "ECDSA" (PImport pathA true) (PImport pathB true))).
Proof.
  intros Hc. split_and!.
  - intros registered Hreg. rewrite register_run, Hreg by done. split.
    + intros ->. by rewrite decide_True.
    + intros Hne. by rewrite decide_False.
  - by apply register_thrice.
  - intros Hnone Hpath. simpl. unfold model_addImportOnly. simpl.
    destruct (register_thrice c KImport "ECDSA" (PImport pathA true)
                (PImport pathB true) Hc Hnone) as (c1 & H1 & H2 & H3).
    exists c1. split_and!; [done..|]. apply H3. congruence.
Qed.

Lemma register_conflict_witness :
  ∃ c1,
    addImportOnly
      {| contract_name := "ECDSA";
         contract_path := "@openzeppelin/contracts/utils/cryptography/ECDSA.sol" |}
      (Model.empty "MyToken" false) = inr (true, c1) ∧
    addImportOnly
      {| contract_name := "ECDSA";
         contract_path := "@openzeppelin/contracts/utils/cryptography/ECDSA.sol" |}
      c1 = inr (false, c1) ∧
    addImportOnly
      {| contract_name := "ECDSA"; contract_path := "./vendor/ECDSA.sol" |}
      c1 = inl (SymbolConflict "ECDSA"
                  (PImport "@openzeppelin/contracts/utils/cryptography/ECDSA.sol" true)
                  (PImport "./vendor/ECDSA.sol" true)).
Proof.
  apply (register_conflict KImport "ECDSA"
           (PImport "@openzeppelin/contracts/utils/cryptography/ECDSA.sol" true)
           (PImport "./vendor/ECDSA.sol" true)
           "@openzeppelin/contracts/utils/cryptography/ECDSA.sol"
           "./vendor/ECDSA.sol" (Model.empty "MyToken" false)).
  - reflexivity.
  - reflexivity.
  - discriminate.
Defined.

(** ** C3: no access control requested, access control required *)

Section Default.
Context `{!CommonFunctions}.
Implicit Types c : Model.ContractModel.
Implicit Types m : AccessMode.

Lemma afterBlock_modifiers c m c1 fn :
  afterBlock m c = inr (tt, c1) → modifiersOf fn c1 = modifiersOf fn c.
Proof.
  destruct m; simpl; [by intros [= <-]| |by intros [= <-]].
  intros (entry & c' & Hadd & ->)%addOverride_returns.
  rewrite modifiersOf_alter by done. by eapply modifiersOf_addFunction.
Qed.

Lemma setAccessControl_frame c m c1 fn :
  setAccessControl (accessOf m) c = inr (tt, c1) →
  Model.cm_phase c1 = Model.Building ∧
  Model.hasParent (contract_name (parentOf m)) c1 = true ∧
  Model.cm_registry c1 = Model.cm_registry c ∧
  modifiersOf fn c1 = modifiersOf fn c.
Proof.
  intros (Hc & cb & Hafter & Hcb & Hp & Hcases)%setAccessControl_returns.
  rewrite (afterBlock_modifiers _ _ _ fn Hafter).
  destruct (afterBlock_frame _ _ _ Hafter) as [F ->].
  split_and!; [done..| |].
  - destruct Hcases as [[_ ->]|(_ & ca & Harg & ->)]; [done|].
    by destruct (addConstructorArgument_returns _ _ _ Harg) as (_ & [->| ->] & _).
  - destruct Hcases as [[_ ->]|(_ & ca & Harg & ->)]; [done|].
    by destruct (addConstructorArgument_returns _ _ _ Harg) as (_ & [->| ->] & _).
Qed.

(** [setAccessControl] returns on a model that is Building, unless the
    argument it declares was contributed by a parent. *)
Lemma setAccessControl_building c m :
  Model.cm_phase c = Model.Building →
  (∀ a, a ∈ Model.cm_constructorArgs c →
        arg_name (Model.ctor_arg a) = argumentOf m →
        Model.ctor_owner a =
          Model.contributor (argumentOf m)
            (Model.cm_parents c ++
               [{| Model.parent_contract := parentOf m;
                   Model.parent_params := paramsOf m |}])) →
  ∃ c1, setAccessControl (accessOf m) c = inr (tt, c1).
Proof.
  intros Hc Hown.
  destruct (Model.hasParent (contract_name (parentOf m)) c) eqn:Hp.
  - rewrite setAccessControl_present by done. by apply afterBlock_building.
  - rewrite setAccessControl_absent by done.
    set (cp := Model.with_parents _ c).
    assert (∃ ca, addConstructorArgument
                    {| arg_type := "address"; arg_name := argumentOf m |} cp
                  = inr (tt, ca) ∧ Model.cm_phase ca = Model.Building)
      as (ca & Harg & Hca).
    { rewrite addConstructorArgument_run, addArgument_run by done.
      destruct (list_find _ _) as [[i present]|] eqn:Hfind; [|by eexists].
      apply list_find_Some in Hfind as (Hi%list_elem_of_lookup_2 & Hname & _).
      rewrite decide_True by (by apply Hown). by eexists. }
    rewrite (bind_step _ _ _ _ _ Harg).
    rewrite bind_run, addConstructorCodes_run by done.
    by apply afterBlock_building.
Qed.

End Default.

(** C3. For every builder, function, role-id prefix and role owner,
    [requireAccessControl] called with [false] is [requireAccessControl]
    called with ['ownable'], in the Solidity and in the Stylus feature: the
    single-owner mode is substituted and no error is raised for the value.
    On a model that is Building (and whose [initialOwner] argument, if any,
    is the one that [Ownable] contributes) the call returns a model that
    has the parent [Ownable], and the function has gained the modifier
    [onlyOwner] and no other. *)
Theorem requireAccessControl_false_is_ownable {B : Type} `{!ContractBuilder B}
    `{!CommonFunctions} {Store Ref : Type}
    (fn : BaseFunction) (roleIdPrefix : string) (roleOwner : option string)
    (ref trait sfn : Ref) :
  requireAccessControl (B := B) fn AFalse roleIdPrefix roleOwner =
    requireAccessControl fn (AStr "ownable") roleIdPrefix roleOwner ∧
  Stylus.requireAccessControl (Store := Store) ref trait sfn AFalse
      roleIdPrefix roleOwner =
    Stylus.requireAccessControl ref trait sfn (AStr "ownable")
      roleIdPrefix roleOwner ∧
  (∀ c : Model.ContractModel,
     Model.cm_phase c = Model.Building →
     (∀ a, a ∈ Model.cm_constructorArgs c →
           arg_name (Model.ctor_arg a) = "initialOwner" →
           Model.ctor_owner a = OwnerParent "Ownable") →
     ∃ c',
       requireAccessControl fn AFalse roleIdPrefix roleOwner c = inr (tt, c') ∧
       Model.hasParent "Ownable" c' = true ∧
       modifiersOf fn c' = addIfAbsent "onlyOwner" (modifiersOf fn c)).
Proof.
  split_and!; [reflexivity..|].
  intros c Hc Hown.
  destruct (setAccessControl_building c ModeOwnable Hc) as [c1 Hset].
  { intros a Hin Hname. rewrite contributor_snoc. by apply Hown. }
  destruct (setAccessControl_frame _ _ _ fn Hset) as (Hc1 & Hp & _ & Hmods).
  destruct (addModifier_building c1 "onlyOwner" fn Hc1) as [c' Hmod].
  exists c'. split_and!.
  - change (requireAccessControl fn AFalse roleIdPrefix roleOwner c)
      with ((setAccessControl (accessOf ModeOwnable) ;;
             addModifier "onlyOwner" fn) c).
    by rewrite (bind_step _ _ _ _ _ Hset).
  - by destruct (addModifier_returns _ _ _ _ Hmod) as (_ & [F ->] & _).
  - destruct (addModifier_returns _ _ _ _ Hmod) as (_ & _ & ->).
    by rewrite Hmods.
Qed.

Section DefaultWitness.
#[local] Existing Instance sampleFunctions.

Lemma requireAccessControl_false_is_ownable_witness :
  ∃ c',
    requireAccessControl Structured.functions.revokeAddressVerification AFalse
      "DEFAULT_ADMIN_ROLE" None (Model.empty "MyToken" false) = inr (tt, c') ∧
    Model.hasParent "Ownable" c' = true ∧
    modifiersOf Structured.functions.revokeAddressVerification c' = ["onlyOwner"].
Proof.
  apply (proj2 (proj2 (requireAccessControl_false_is_ownable
           (B := Model.ContractModel) (Store := unit) (Ref := unit)
           Structured.functions.revokeAddressVerification
           "DEFAULT_ADMIN_ROLE" None tt tt tt)) (Model.empty "MyToken" false)).
  - reflexivity.
  - intros a Ha. by apply not_elem_of_nil in Ha.
Defined.

End DefaultWitness.

(** ** C4: values outside the variant set *)

Section Unknown.

Lemma not_elem_of_accessOptions access :
  access ∉ accessOptions →
  access ≠ AFalse ∧ access ≠ AStr "ownable" ∧ access ≠ AStr "roles" ∧
  access ≠ AStr "managed".
Proof.
  unfold accessOptions. rewrite !not_elem_of_cons. tauto.
Qed.

Lemma not_elem_of_stylus_accessOptions access :
  access ∉ Stylus.accessOptions →
  access ≠ AFalse ∧ access ≠ AStr "ownable" ∧ access ≠ AStr "roles".
Proof.
  unfold Stylus.accessOptions. rewrite !not_elem_of_cons. tauto.
Qed.

End Unknown.

(** C4, as the code has it. The Stylus [setAccessControl] and
    [requireAccessControl] throw [Error('Unknown value for `access`')] for
    every value outside [false], ['ownable'], ['roles'] and leave the store
    to the caller's handler. The Solidity [setAccessControl] and
    [requireAccessControl] have no [default] branch: for every value outside
    [false], ['ownable'], ['roles'], ['managed'] they return normally and
    leave the builder as it was, whatever the builder. *)
Theorem unknown_access_value (access : AccessValue) :
  (access ∉ Stylus.accessOptions →
   ∀ (Store Ref : Type) (s : Store) (c trait fn : Ref)
     (roleIdPrefix : string) (roleOwner : option string),
     Stylus.setAccessControl c access s = inl Stylus.unknownAccess ∧
     Stylus.requireAccessControl c trait fn access roleIdPrefix roleOwner s =
       inl Stylus.unknownAccess) ∧
  (access ∉ accessOptions →
   ∀ (B : Type) (builder : ContractBuilder B) (common : CommonFunctions)
     (fn : BaseFunction) (roleIdPrefix : string) (roleOwner : option string)
     (c : B),
     setAccessControl access c = inr (tt, c) ∧
     requireAccessControl fn access roleIdPrefix roleOwner c = inr (tt, c)).
Proof.
  split.
  - intros (H0 & H1 & H2)%not_elem_of_stylus_accessOptions *.
    unfold Stylus.requireAccessControl, Stylus.setAccessControl.
    rewrite !(bool_decide_eq_false_2 _ H0), !(bool_decide_eq_false_2 _ H1),
      !(bool_decide_eq_false_2 _ H2).
    done.
  - intros (H0 & H1 & H2 & H3)%not_elem_of_accessOptions *.
    unfold requireAccessControl, setAccessControl.
    rewrite !(bool_decide_eq_false_2 _ H0), !(bool_decide_eq_false_2 _ H1),
      !(bool_decide_eq_false_2 _ H2), !(bool_decide_eq_false_2 _ H3).
    done.
Qed.

Lemma unknown_access_value_witness :
  (Stylus.setAccessControl (Store := unit) tt (AStr "managed") tt =
     inl Stylus.unknownAccess ∧
   Stylus.requireAccessControl (Store := unit) tt tt tt (AStr "managed")
     "MINTER" None tt = inl Stylus.unknownAccess) ∧
  (setAccessControl (common := sampleFunctions) (AStr "admin")
     (Model.empty "MyToken" false) = inr (tt, Model.empty "MyToken" false) ∧
   requireAccessControl (common := sampleFunctions)
     Structured.functions.revokeAddressVerification (AStr "admin")
     "DEFAULT_ADMIN_ROLE" None (Model.empty "MyToken" false) =
     inr (tt, Model.empty "MyToken" false)).
Proof.
  split.
  - apply (proj1 (unknown_access_value (AStr "managed"))).
    repeat (apply not_elem_of_cons; split; [discriminate|]). apply not_elem_of_nil.
  - apply (proj2 (unknown_access_value (AStr "admin"))).
    repeat (apply not_elem_of_cons; split; [discriminate|]). apply not_elem_of_nil.
Defined.

(** C4, as the claim states it, fails on the Solidity feature: given the
    value ['admin'], which is outside its variant set, [setAccessControl] and
    [requireAccessControl] return without an error. *)
Lemma solidity_unknown_access_is_silent :
  (AStr "admin" ∉ accessOptions) ∧
  setAccessControl (common := sampleFunctions) (AStr "admin")
    (Model.empty "MyToken" false) = inr (tt, Model.empty "MyToken" false) ∧
  requireAccessControl (common := sampleFunctions)
    Structured.functions.revokeAddressVerification (AStr "admin")
    "DEFAULT_ADMIN_ROLE" None (Model.empty "MyToken" false) =
    inr (tt, Model.empty "MyToken" false).
Proof.
  split; [|by split].
  repeat (apply not_elem_of_cons; split; [discriminate|]). apply not_elem_of_nil.
Qed.

(** ** C5: the order of constructor statements *)

(** C5. On any builder, when [addParent] returns true for
    [AccessControl], [setAccessControl] in ['roles'] mode declares the
    argument [defaultAdmin], then writes the statement that requires
    [defaultAdmin] to differ from [address(0)], then writes
    [_grantRole(DEFAULT_ADMIN_ROLE, defaultAdmin);], then declares the
    override: the check is written before the grant. On a model that is
    Building, constructor statements added one after the other are appended
    to the body in call order, and the body is emitted in that order; so
    when [setAccessControl] in ['roles'] mode adds the parent
    [AccessControl], the body it leaves is the former body, then the check,
    then the grant: the check stands immediately, hence strictly, before
    the grant. *)
Theorem constructor_statements_in_call_order `{!CommonFunctions}
    (c : Model.ContractModel) :
  (∀ (B : Type) (builder : ContractBuilder B) (cB c0 : B),
     addParent parents.AccessControl [] cB = inr (true, c0) →
     setAccessControl (AStr "roles") cB =
       (addConstructorArgument
          {| arg_type := "address"; arg_name := "defaultAdmin" |} ;;
        addConstructorCode
          ("require(defaultAdmin != address(0), " +:+ Js.dq +:+
           "AccessControl: default admin is zero address" +:+ Js.dq +:+ ");") ;;
        addConstructorCode "_grantRole(DEFAULT_ADMIN_ROLE, defaultAdmin);" ;;
        addOverride parents.AccessControl supportsInterface) c0) ∧
  (Model.cm_phase c = Model.Building →
   (∀ stmts, ∃ c',
      addConstructorCodes stmts c = inr (tt, c') ∧
      Model.emitConstructorBody c' = Model.emitConstructorBody c ++ stmts) ∧
   (Model.hasParent "AccessControl" c = false →
    ∀ c', setAccessControl (AStr "roles") c = inr (tt, c') →
      Model.emitConstructorBody c' =
        Model.emitConstructorBody c ++
          ["require(defaultAdmin != address(0), " +:+ Js.dq +:+
           "AccessControl: default admin is zero address" +:+ Js.dq +:+ ");";
           "_grantRole(DEFAULT_ADMIN_ROLE, defaultAdmin);"] ∧
      Model.emitConstructorBody c' !! length (Model.emitConstructorBody c) =
        Some ("require(defaultAdmin != address(0), " +:+ Js.dq +:+
              "AccessControl: default admin is zero address" +:+ Js.dq +:+ ");") ∧
      Model.emitConstructorBody c' !! S (length (Model.emitConstructorBody c)) =
        Some "_grantRole(DEFAULT_ADMIN_ROLE, defaultAdmin);")).
Proof.
  change ("require(defaultAdmin != address(0), " +:+ Js.dq +:+
          "AccessControl: default admin is zero address" +:+ Js.dq +:+ ");")
    with requireAdmin.
  change "_grantRole(DEFAULT_ADMIN_ROLE, defaultAdmin);" with grantAdmin.
  split.
  { intros B builder cB c0 Hadd.
    rewrite (setAccessControl_parent_added cB ModeRoles c0 Hadd). simpl.
    unfold_build. repeat case_match; simplify_eq; by destruct_units. }
  intros Hc. split.
  - intros stmts. eexists. split; [by apply addConstructorCodes_run|done].
  - intros Hp c' Hrun.
    apply (setAccessControl_returns c ModeRoles) in Hrun
      as (_ & cb & Hafter & _ & _ & [[Hp' _]|(_ & ca & Harg & ->)]);
      [simpl in Hp'; congruence|].
    destruct (afterBlock_frame _ _ _ Hafter) as [F ->].
    assert (Model.cm_constructorCode ca = Model.cm_constructorCode c) as Hbody
      by (by destruct (addConstructorArgument_returns _ _ _ Harg)
            as (_ & [->| ->] & _)).
    unfold Model.emitConstructorBody. simpl. rewrite Hbody. split_and!.
    + done.
    + by rewrite lookup_app_r, Nat.sub_diag by lia.
    + rewrite lookup_app_r by lia.
      by replace (S (length (Model.cm_constructorCode c)) -
                  length (Model.cm_constructorCode c)) with 1 by lia.
Qed.

Section OrderWitness.
#[local] Existing Instance sampleFunctions.

Lemma constructor_statements_in_call_order_witness :
  ∃ c',
    setAccessControl (AStr "roles") (Model.empty "MyToken" false) = inr (tt, c') ∧
    Model.emitConstructorBody c' =
      ["require(defaultAdmin != address(0), " +:+ Js.dq +:+
       "AccessControl: default admin is zero address" +:+ Js.dq +:+ ");";
       "_grantRole(DEFAULT_ADMIN_ROLE, defaultAdmin);"].
Proof.
  eexists. split; [vm_compute; reflexivity|].
  apply (proj2 (proj2 (constructor_statements_in_call_order
                         (Model.empty "MyToken" false)) eq_refl) eq_refl).
  vm_compute. reflexivity.
Defined.

End OrderWitness.

(** ** What the remaining operations keep *)

Section Keeping.
Implicit Types c : Model.ContractModel.

Lemma modifiersOf_functions c c' fn :
  Model.cm_functions c' = Model.cm_functions c →
  modifiersOf fn c' = modifiersOf fn c.
Proof. unfold modifiersOf, entryOf. by intros ->. Qed.

(** A registration that returns leaves the key registered with the payload
    offered, and the function table as it was. *)
Lemma register_returns c kind key payload added c' :
  Model.register kind key payload c = inr (added, c') →
  Model.cm_phase c' = Model.Building ∧
  Model.cm_functions c' = Model.cm_functions c ∧
  Model.lookupSymbol kind key (Model.cm_registry c') = Some payload.
Proof.
  intros Hrun. assert (Model.cm_phase c = Model.Building) as Hc.
  { revert Hrun. unfold Model.register. unfold_build.
    by destruct (Model.cm_phase c). }
  rewrite register_run in Hrun by done.
  destruct (Model.lookupSymbol _ _ _) as [registered|] eqn:Hreg.
  - destruct (decide _); by simplify_eq.
  - simplify_eq. split_and!; [done..|]. by apply lookupSymbol_registered.
Qed.

Lemma setNamespacedStorage_returns c fields label c' :
  Model.setNamespacedStorage fields label c = inr (tt, c') →
  Model.cm_phase c' = Model.Building ∧
  Model.cm_functions c' = Model.cm_functions c.
Proof.
  unfold Model.setNamespacedStorage. unfold_build.
  destruct (Model.cm_phase c) eqn:Hc; [|discriminate].
  destruct (list_find _ _) as [[i e]|]; by intros [= <-].
Qed.

Lemma addVariable_returns c text c' :
  Model.addVariable text c = inr (tt, c') →
  Model.cm_phase c' = Model.Building ∧
  Model.cm_functions c' = Model.cm_functions c.
Proof.
  unfold Model.addVariable. unfold_build.
  destruct (Model.cm_phase c) eqn:Hc; [|discriminate]. by intros [= <-].
Qed.

(** Requesting a function gives no function a modifier and registers
    nothing. *)
Lemma model_addFunction_returns c def c' fn :
  addFunction def c = inr (tt, c') →
  Model.cm_phase c' = Model.Building ∧
  Model.cm_registry c' = Model.cm_registry c ∧
  modifiersOf fn c' = modifiersOf fn c.
Proof.
  simpl. unfold model_addFunction.
  intros (entry & cf & Hadd & [= <-])%bind_returns.
  pose proof (addFunction_returns _ _ _ _ Hadd) as (Hc & _ & Hcf).
  split_and!; [by destruct Hcf as [->| ->]..|].
  by eapply modifiersOf_addFunction.
Qed.

(** Setting the body of a function gives no function a modifier and
    registers nothing. *)
Lemma addFunctionCode_returns c code def c' fn :
  addFunctionCode code def c = inr (tt, c') →
  Model.cm_phase c' = Model.Building ∧
  Model.cm_registry c' = Model.cm_registry c ∧
  modifiersOf fn c' = modifiersOf fn c.
Proof.
  simpl. unfold model_addFunctionCode.
  intros (entry & cf & Hadd & Hbody)%bind_returns.
  pose proof (addFunction_returns _ _ _ _ Hadd) as (Hc & _ & Hcf).
  assert (Model.cm_phase cf = Model.Building) as Hcfb
    by (by destruct Hcf as [->| ->]).
  assert (Model.cm_registry cf = Model.cm_registry c) as Hreg
    by (by destruct Hcf as [->| ->]).
  rewrite <- (modifiersOf_addFunction _ _ _ _ fn Hadd), <- Hreg.
  rewrite setBody_run in Hbody by done.
  destruct (_ !! _) as [e|]; [|by simplify_eq].
  destruct (decide _); simplify_eq.
  split_and!; [done..|]. by apply modifiersOf_alter.
Qed.

End Keeping.

(** ** requireAccessControl in roles mode *)

Section Roles.
Context `{!CommonFunctions}.
Implicit Types c : Model.ContractModel.

(** The guard is [onlyRole] of the prefix with [_ROLE] appended, and the
    constant of that name is registered. *)
Lemma requireAccessControl_roles_returns c fn roleIdPrefix roleOwner c' :
  requireAccessControl fn (AStr "roles") roleIdPrefix roleOwner c = inr (tt, c') →
  Model.cm_phase c' = Model.Building ∧
  modifiersOf fn c' =
    addIfAbsent ("onlyRole(" +:+ (roleIdPrefix +:+ "_ROLE") +:+ ")")
                (modifiersOf fn c) ∧
  Model.lookupSymbol KNamedConstant (roleConstant (roleIdPrefix +:+ "_ROLE"))
    (Model.cm_registry c') =
    Some (PNamedConstant (roleConstant (roleIdPrefix +:+ "_ROLE")) []).
Proof.
  unfold requireAccessControl. simpl.
  intros ([] & c1 & Hset & Hrun)%bind_returns.
  apply (setAccessControl_frame c ModeRoles c1 fn) in Hset
    as (Hc1 & _ & _ & Hmods).
  apply bind_returns in Hrun as (added & c2 & Hreg & Hrun).
  simpl in Hreg. unfold model_addConstantOrImmutableOrErrorDefinition in Hreg.
  apply register_returns in Hreg as (Hc2 & Hfns & Hsym).
  apply bind_returns in Hrun as ([] & c3 & Hblock & Hmod).
  assert (Model.cm_functions c3 = Model.cm_functions c2 ∧
          Model.cm_registry c3 = Model.cm_registry c2) as [Hfns3 Hreg3].
  { destruct roleOwner as [owner|]; [|by injection Hblock as <-].
    destruct (Js.truthyString owner && added); [|by injection Hblock as <-].
    apply bind_returns in Hblock as ([] & ca & Harg & Hcode).
    pose proof (addConstructorArgument_returns _ _ _ Harg) as (_ & Hca & _).
    assert (Model.cm_phase ca = Model.Building) as Hcab
      by (by destruct Hca as [->| ->]).
    apply bind_returns in Hcode as ([] & cc & Hcheck & Hgrant).
    simpl in Hcheck, Hgrant. rewrite addCode_run in Hcheck by done.
    simplify_eq. rewrite addCode_run in Hgrant by done. simplify_eq.
    by destruct Hca as [->| ->]. }
  apply addModifier_returns in Hmod as (Hc3 & [F ->] & Hadded).
  split_and!.
  - done.
  - rewrite Hadded, (modifiersOf_functions c2 c3), (modifiersOf_functions c1 c2);
      by rewrite ?Hmods.
  - simpl. by rewrite Hreg3.
Qed.

End Roles.

(** ** Frames

    Which parts of a model a procedure leaves as they were. A view that
    does not look at the part an operation writes is kept by it. *)

Section Keeps.
Context {T : Type} (view : Model.ContractModel → T).
Implicit Types c : Model.ContractModel.

Lemma keeps_then {A : Type} (op : Model.Build A) (f : A → Model.Build unit)
    (Q : T → Model.ContractModel → Prop) :
  keeps view op →
  (∀ a c1 c', f a c1 = inr (tt, c') → Q (view c1) c') →
  ∀ c c', (op ≫= f) c = inr (tt, c') → Q (view c) c'.
Proof.
  intros Hop Hf c c' (a & c1 & Hrun & Htail)%bind_returns.
  rewrite <- (Hop _ _ _ Hrun). eauto.
Qed.

Lemma get_then (f : Model.ContractModel → Model.Build unit)
    (Q : T → Model.ContractModel → Prop) :
  (∀ c1 c', f c1 c1 = inr (tt, c') → Q (view c1) c') →
  ∀ c c', (get ≫= f) c = inr (tt, c') → Q (view c) c'.
Proof. intros Hf c c' Hrun. by apply Hf. Qed.

Lemma keeps_bind {A B : Type} (op : Model.Build A) (f : A → Model.Build B) :
  keeps view op → (∀ a, keeps view (f a)) → keeps view (op ≫= f).
Proof.
  intros Hop Hf c x c' (a & c1 & Hrun & Htail)%bind_returns.
  rewrite (Hf _ _ _ _ Htail). eauto.
Qed.

Lemma keeps_ret {A : Type} (x : A) : keeps view (mret x).
Proof. by intros c y c' [= _ <-]. Qed.

Lemma keeps_get : keeps view get.
Proof. by intros c y c' [= _ <-]. Qed.

Lemma keeps_register kind key payload :
  (∀ F c, view (Model.with_registry F c) = view c) →
  keeps view (Model.register kind key payload).
Proof.
  intros Hview c added c'. unfold Model.register. unfold_build.
  destruct (Model.cm_phase c); [|discriminate].
  destruct (Model.lookupSymbol _ _ _); [destruct (decide _)|];
    intros [= _ <-]; by rewrite ?Hview.
Qed.

Lemma keeps_addParent contract params :
  (∀ F c, view (Model.with_parents F c) = view c) →
  keeps view (Model.addParent contract params).
Proof.
  intros Hview c added c'. unfold Model.addParent. unfold_build.
  destruct (Model.cm_phase c); [|discriminate].
  destruct (Model.hasParent _ _); intros [= _ <-]; by rewrite ?Hview.
Qed.

Lemma keeps_addArgument arg owner :
  (∀ F c, view (Model.with_constructorArgs F c) = view c) →
  keeps view (Model.addArgument arg owner).
Proof.
  intros Hview c [] c'. unfold Model.addArgument. unfold_build.
  destruct (Model.cm_phase c); [|discriminate].
  destruct (list_find _ _) as [[i present]|]; [destruct (decide _)|];
    intros [= <-]; by rewrite ?Hview.
Qed.

Lemma keeps_addCode stmt :
  (∀ F c, view (Model.with_constructorCode F c) = view c) →
  keeps view (Model.addCode stmt).
Proof.
  intros Hview c [] c'. unfold Model.addCode. unfold_build.
  destruct (Model.cm_phase c); [|discriminate].
  intros [= <-]; by rewrite ?Hview.
Qed.

Lemma keeps_addVariable text :
  (∀ F c, view (Model.with_variables F c) = view c) →
  keeps view (Model.addVariable text).
Proof.
  intros Hview c [] c'. unfold Model.addVariable. unfold_build.
  destruct (Model.cm_phase c); [|discriminate].
  intros [= <-]; by rewrite ?Hview.
Qed.

Lemma keeps_setNamespacedStorage fields label :
  (∀ F c, view (Model.with_storage F c) = view c) →
  keeps view (Model.setNamespacedStorage fields label).
Proof.
  intros Hview c [] c'. unfold Model.setNamespacedStorage. unfold_build.
  destruct (Model.cm_phase c); [|discriminate].
  destruct (list_find _ _) as [[i e]|]; intros [= <-]; by rewrite ?Hview.
Qed.

Lemma keeps_table_addFunction def :
  (∀ F c, view (Model.with_functions F c) = view c) →
  keeps view (Model.addFunction def).
Proof.
  intros Hview c entry c' (_ & _ & [->| ->])%addFunction_returns;
    by rewrite ?Hview.
Qed.

Lemma keeps_table_setBody entry text :
  (∀ F c, view (Model.with_functions F c) = view c) →
  keeps view (Model.setBody entry text).
Proof.
  intros Hview c [] c'. unfold Model.setBody. unfold_build.
  destruct (Model.cm_phase c); [|discriminate].
  destruct (_ !! _); [destruct (decide _)|]; intros [= <-]; by rewrite ?Hview.
Qed.

Lemma keeps_table_addModifier entry modifierText :
  (∀ F c, view (Model.with_functions F c) = view c) →
  keeps view (Model.addModifier entry modifierText).
Proof.
  intros Hview c [] c'. unfold Model.addModifier. unfold_build.
  destruct (Model.cm_phase c); [|discriminate].
  intros [= <-]; by rewrite ?Hview.
Qed.

Lemma keeps_table_addOverride parentRef def :
  (∀ F c, view (Model.with_functions F c) = view c) →
  keeps view (Model.addOverride parentRef def).
Proof.
  intros Hview c [] c' (_ & [F ->])%addOverride_frame. by rewrite Hview.
Qed.

End Keeps.

(** Solves [keeps view op] for a procedure made of the operations above,
    where [view] ignores every part they write. *)
Ltac solve_keeps :=
  repeat first
    [ apply keeps_ret
    | apply keeps_get
    | apply keeps_register; done
    | apply keeps_addParent; done
    | apply keeps_addArgument; done
    | apply keeps_addCode; done
    | apply keeps_addVariable; done
    | apply keeps_setNamespacedStorage; done
    | apply keeps_table_addFunction; done
    | apply keeps_table_setBody; done
    | apply keeps_table_addModifier; done
    | apply keeps_table_addOverride; done
    | apply keeps_bind; [|intros ?]
    | match goal with
      | |- keeps _ (if ?b then _ else _) => destruct b
      | |- keeps _ (match ?o with Some _ => _ | None => _ end) => destruct o
      end ].

Section AccessControlKeeps.
Context `{!CommonFunctions} {T : Type} (view : Model.ContractModel → T).
Context (Hparents : ∀ F c, view (Model.with_parents F c) = view c).
Context (Hargs : ∀ F c, view (Model.with_constructorArgs F c) = view c).
Context (Hcode : ∀ F c, view (Model.with_constructorCode F c) = view c).
Context (Hregistry : ∀ F c, view (Model.with_registry F c) = view c).
Context (Hfunctions : ∀ F c, view (Model.with_functions F c) = view c).

(** Access control, whatever the mode, writes parents, constructor,
    registry and function table, and nothing else. *)
Lemma keeps_setAccessControl access : keeps view (setAccessControl access).
Proof.
  unfold setAccessControl. simpl. unfold model_addConstructorArgument.
  solve_keeps.
Qed.

Lemma keeps_requireAccessControl fn access roleIdPrefix roleOwner :
  keeps view (requireAccessControl fn access roleIdPrefix roleOwner).
Proof.
  unfold requireAccessControl.
  apply keeps_bind; [apply keeps_setAccessControl|intros _].
  simpl. unfold model_addConstructorArgument, model_addModifier,
    model_addConstantOrImmutableOrErrorDefinition.
  solve_keeps.
Qed.

End AccessControlKeeps.

(** ** C7: the two variants of the feature *)

(** C7. The two variants of [addAddressVerification] are not
    observationally equivalent, whatever the collaborators. On a new,
    non-upgradeable builder and with no access control both return, and the
    models differ: the structured variant registers the mapping, the events
    and the errors and leaves no freeform text, the freeform variant leaves
    five blocks of freeform text and registers only the two imports. And on
    a builder where the event [AddressVerified] is already registered with
    other doc lines, the structured variant fails with SymbolConflict while
    the freeform variant returns: its declarations do not pass through the
    Symbol Registry. *)
Theorem variants_not_equivalent `{!CommonFunctions} (accessor : string → string) :
  (∃ c1 c2,
     Structured.addAddressVerification (storage := ModelStorage accessor)
       AFalse (Model.empty "MyToken" false) = inr (tt, c1) ∧
     Freeform.addAddressVerification AFalse (Model.empty "MyToken" false)
       = inr (tt, c2) ∧
     c1 ≠ c2 ∧
     Model.cm_variables c1 = [] ∧ length (Model.cm_registry c1) = 7 ∧
     length (Model.cm_variables c2) = 5 ∧ length (Model.cm_registry c2) = 2) ∧
  (∃ c0 c2,
     addConstantOrImmutableOrErrorDefinition
       "event AddressVerified(address indexed account);"
       ["/// @notice An account passed verification"]
       (Model.empty "MyToken" false) = inr (true, c0) ∧
     Structured.addAddressVerification (storage := ModelStorage accessor)
       AFalse c0 =
       inl (SymbolConflict "event AddressVerified(address indexed account);"
              (PNamedConstant "event AddressVerified(address indexed account);"
                 ["/// @notice An account passed verification"])
              (PNamedConstant "event AddressVerified(address indexed account);"
                 ["/// @dev Emitted when an address is verified"])) ∧
     Freeform.addAddressVerification AFalse c0 = inr (tt, c2)).
Proof.
  split.
  - eexists. eexists.
    split; [vm_compute; reflexivity|].
    split; [vm_compute; reflexivity|].
    split; [|by vm_compute].
    intros Heq%(f_equal Model.cm_variables). vm_compute in Heq. discriminate.
  - eexists. eexists.
    split; [vm_compute; reflexivity|].
    split; [vm_compute; reflexivity|].
    vm_compute; reflexivity.
Qed.

(** ** C8: zero-address checks *)

Section ZeroAddress.
Context `{!CommonFunctions}.
Implicit Types c : Model.ContractModel.

(** The [roles] case of [requireAccessControl], after [setAccessControl],
    for a role owner that is given and a constant that is new. *)
Lemma requireAccessControl_roles_new c1 fn roleIdPrefix owner c' :
  Model.cm_phase c1 = Model.Building →
  Js.truthyString owner = true →
  Model.lookupSymbol KNamedConstant (roleConstant (roleIdPrefix +:+ "_ROLE"))
    (Model.cm_registry c1) = None →
  (addedConstant ← addConstantOrImmutableOrErrorDefinition
                     (roleConstant (roleIdPrefix +:+ "_ROLE")) [];
   (if Js.truthyString owner && addedConstant then
      addConstructorArgument {| arg_type := "address"; arg_name := owner |} ;;
      addConstructorCode (requireRoleOwner owner) ;;
      addConstructorCode (grantRole (roleIdPrefix +:+ "_ROLE") owner)
    else mret tt) ;;
   addModifier ("onlyRole(" +:+ (roleIdPrefix +:+ "_ROLE") +:+ ")") fn) c1
    = inr (tt, c') →
  Model.cm_constructorCode c' =
    Model.cm_constructorCode c1 ++
      [requireRoleOwner owner; grantRole (roleIdPrefix +:+ "_ROLE") owner].
Proof.
  intros Hc1 Howner Hnew Hrun.
  apply bind_returns in Hrun as (added & c2 & Hreg & Hrun).
  simpl in Hreg. unfold model_addConstantOrImmutableOrErrorDefinition in Hreg.
  rewrite register_run, Hnew in Hreg by done. simplify_eq.
  rewrite Howner in Hrun. simpl in Hrun.
  apply bind_returns in Hrun as ([] & c3 & Hblock & Hmod).
  apply bind_returns in Hblock as ([] & ca & Harg & Hcode).
  apply addModifier_returns in Hmod as (_ & [F ->] & _).
  pose proof (addConstructorArgument_returns _ _ _ Harg) as (_ & Hca & _).
  assert (Model.cm_phase ca = Model.Building) as Hcab
    by (by destruct Hca as [->| ->]).
  apply bind_returns in Hcode as ([] & cc & Hcheck & Hgrant).
  simpl in Hcheck, Hgrant. rewrite addCode_run in Hcheck by done.
  simplify_eq. rewrite addCode_run in Hgrant by done. simplify_eq.
  simpl. rewrite <- app_assoc. by destruct Hca as [->| ->].
Qed.

End ZeroAddress.

(** C8. For each of the three access modes: the statements of the mode
    are the statement that requires its address argument ([initialOwner],
    [defaultAdmin] or [initialAuthority]) to differ from [address(0)],
    followed in ['roles'] mode by the grant of the admin role. On any
    builder, when [addParent] returns true for the parent of the mode,
    [setAccessControl] goes on to declare the address argument of the mode
    and to write these statements. On every model: when [setAccessControl]
    newly adds the parent of the mode, the model it returns has the parent,
    and its constructor body is the former body followed by these
    statements. Likewise for [requireAccessControl] in ['roles'] mode with
    a role owner: on any builder, when the role constant is newly added, it
    declares the role owner, writes [require(<roleOwner> != address(0),
    ...)] and then [_grantRole(<prefix>_ROLE, <roleOwner>);]; on every
    model the two statements are appended in this order to the body that
    [setAccessControl] left. *)
Theorem zero_address_checks `{!CommonFunctions} (m : AccessMode)
    (c : Model.ContractModel) :
  (∃ message, zeroCheckOf m =
     "require(" +:+ argumentOf m +:+ " != address(0), " +:+ Js.dq +:+ message
       +:+ Js.dq +:+ ");") ∧
  zeroCheckOf m :: afterZeroCheck m =
    match m with
    | ModeOwnable =>
        ["require(initialOwner != address(0), " +:+ Js.dq +:+
         "Ownable: initial owner is zero address" +:+ Js.dq +:+ ");"]
    | ModeRoles =>
        ["require(defaultAdmin != address(0), " +:+ Js.dq +:+
         "AccessControl: default admin is zero address" +:+ Js.dq +:+ ");";
         "_grantRole(DEFAULT_ADMIN_ROLE, defaultAdmin);"]
    | ModeManaged =>
        ["require(initialAuthority != address(0), " +:+ Js.dq +:+
         "AccessManaged: initial authority is zero address" +:+ Js.dq +:+ ");"]
    end ∧
  (∀ (B : Type) (builder : ContractBuilder B) (cB c0 : B),
     addParent (parentOf m) (paramsOf m) cB = inr (true, c0) →
     setAccessControl (accessOf m) cB =
       (addConstructorArgument
          {| arg_type := "address"; arg_name := argumentOf m |} ;;
        addConstructorCodes (zeroCheckOf m :: afterZeroCheck m) ;;
        afterBlock m) c0) ∧
  (∀ c', Model.hasParent (contract_name (parentOf m)) c = false →
     setAccessControl (accessOf m) c = inr (tt, c') →
     Model.hasParent (contract_name (parentOf m)) c' = true ∧
     Model.cm_constructorCode c' =
       Model.cm_constructorCode c ++ zeroCheckOf m :: afterZeroCheck m) ∧
  (∀ (B : Type) (builder : ContractBuilder B) (fn : BaseFunction)
     (roleIdPrefix owner : string) (cB c1 c2 : B),
     Js.truthyString owner = true →
     setAccessControl (AStr "roles") cB = inr (tt, c1) →
     addConstantOrImmutableOrErrorDefinition
       ("bytes32 public constant " +:+ (roleIdPrefix +:+ "_ROLE") +:+
        " = keccak256(" +:+ Js.dq +:+ (roleIdPrefix +:+ "_ROLE") +:+ Js.dq +:+
        ");") [] c1 = inr (true, c2) →
     requireAccessControl fn (AStr "roles") roleIdPrefix (Some owner) cB =
       (addConstructorArgument {| arg_type := "address"; arg_name := owner |} ;;
        addConstructorCode
          ("require(" +:+ owner +:+ " != address(0), " +:+ Js.dq +:+
           "AccessControl: role owner is zero address" +:+ Js.dq +:+ ");") ;;
        addConstructorCode
          ("_grantRole(" +:+ (roleIdPrefix +:+ "_ROLE") +:+ ", " +:+ owner
           +:+ ");") ;;
        addModifier ("onlyRole(" +:+ (roleIdPrefix +:+ "_ROLE") +:+ ")") fn)
         c2) ∧
  (∀ fn roleIdPrefix owner c1 c',
     Js.truthyString owner = true →
     Model.lookupSymbol KNamedConstant (roleConstant (roleIdPrefix +:+ "_ROLE"))
       (Model.cm_registry c) = None →
     setAccessControl (AStr "roles") c = inr (tt, c1) →
     requireAccessControl fn (AStr "roles") roleIdPrefix (Some owner) c
       = inr (tt, c') →
     Model.cm_constructorCode c' =
       Model.cm_constructorCode c1 ++
         ["require(" +:+ owner +:+ " != address(0), " +:+ Js.dq +:+
          "AccessControl: role owner is zero address" +:+ Js.dq +:+ ");";
          "_grantRole(" +:+ (roleIdPrefix +:+ "_ROLE") +:+ ", " +:+ owner
          +:+ ");"]).
Proof.
  split_and!.
  - destruct m; eexists; reflexivity.
  - by destruct m.
  - intros B builder cB c0. apply setAccessControl_parent_added.
  - intros c' Hp Hrun.
    pose proof (setAccessControl_frame _ _ _ supportsInterface Hrun)
      as (_ & Hp' & _).
    split; [done|].
    apply setAccessControl_returns in Hrun
      as (_ & cb & Hafter & _ & _ & [[Hp'' _]|(_ & ca & Harg & ->)]);
      [congruence|].
    destruct (afterBlock_frame _ _ _ Hafter) as [F ->]. simpl.
    by destruct (addConstructorArgument_returns _ _ _ Harg)
      as (_ & [->| ->] & _).
  - intros B builder fn roleIdPrefix owner cB c1 c2 Howner Hset Hreg.
    unfold requireAccessControl. simpl.
    rewrite (bind_step _ _ _ _ _ Hset).
    change (roleConstant (roleIdPrefix +:+ "_ROLE")) with
      ("bytes32 public constant " +:+ (roleIdPrefix +:+ "_ROLE") +:+
       " = keccak256(" +:+ Js.dq +:+ (roleIdPrefix +:+ "_ROLE") +:+ Js.dq +:+
       ");").
    rewrite (bind_step _ _ _ _ _ Hreg), Howner. simpl.
    change ("require(" +:+ owner +:+ " != address(0), " +:+ Js.dq +:+
            "AccessControl: role owner is zero address" +:+ Js.dq +:+ ");")
      with (requireRoleOwner owner).
    change ("_grantRole(" +:+ (roleIdPrefix +:+ "_ROLE") +:+ ", " +:+ owner
            +:+ ");")
      with (grantRole (roleIdPrefix +:+ "_ROLE") owner).
    unfold_build. repeat case_match; simplify_eq; by destruct_units.
  - intros fn roleIdPrefix owner c1 c' Howner Hnew Hset Hrun.
    pose proof (setAccessControl_frame c ModeRoles _ fn Hset)
      as (Hc1 & _ & Hreg & _).
    unfold requireAccessControl in Hrun. simpl in Hrun.
    rewrite (bind_step _ _ _ _ _ Hset) in Hrun.
    eapply requireAccessControl_roles_new; [done|done| |done].
    by rewrite Hreg.
Qed.

Section ZeroAddressWitness.
#[local] Existing Instance sampleFunctions.

Lemma zero_address_checks_witness :
  ∃ c1 c',
    setAccessControl (AStr "roles") (Model.empty "MyToken" false) = inr (tt, c1) ∧
    requireAccessControl Structured.functions.revokeAddressVerification
      (AStr "roles") "MINTER" (Some "minter") (Model.empty "MyToken" false)
      = inr (tt, c') ∧
    Model.cm_constructorCode c1 =
      ["require(defaultAdmin != address(0), " +:+ Js.dq +:+
       "AccessControl: default admin is zero address" +:+ Js.dq +:+ ");";
       "_grantRole(DEFAULT_ADMIN_ROLE, defaultAdmin);"] ∧
    Model.cm_constructorCode c' =
      Model.cm_constructorCode c1 ++
        ["require(minter != address(0), " +:+ Js.dq +:+
         "AccessControl: role owner is zero address" +:+ Js.dq +:+ ");";
         "_grantRole(MINTER_ROLE, minter);"].
Proof.
  eexists. eexists.
  split; [vm_compute; reflexivity|].
  split; [vm_compute; reflexivity|].
  split.
  - apply (proj1 (proj2 (proj2 (proj2 (zero_address_checks ModeRoles
                                  (Model.empty "MyToken" false)))))).
    + reflexivity.
    + vm_compute. reflexivity.
  - apply (proj2 (proj2 (proj2 (proj2 (proj2 (zero_address_checks ModeRoles
                                  (Model.empty "MyToken" false))))))
             Structured.functions.revokeAddressVerification "MINTER" "minter").
    + reflexivity.
    + reflexivity.
    + vm_compute. reflexivity.
    + vm_compute. reflexivity.
Defined.

End ZeroAddressWitness.

(** ** C9: Stylus access control does nothing *)

(** C9. For every value of the Stylus variant set, [false], ['ownable'] and
    ['roles'], and whatever the store, the references and the remaining
    arguments, the Stylus [setAccessControl] and [requireAccessControl]
    return and leave the store as it was: nothing reachable from the
    builder, the trait or the function is changed. *)
Theorem stylus_access_control_is_noop {Store Ref : Type} (s : Store)
    (c trait fn : Ref) (access : AccessValue)
    (roleIdPrefix : string) (roleOwner : option string) :
  access ∈ Stylus.accessOptions →
  Stylus.setAccessControl c access s = inr (tt, s) ∧
  Stylus.requireAccessControl c trait fn access roleIdPrefix roleOwner s =
    inr (tt, s).
Proof.
  unfold Stylus.accessOptions. rewrite !elem_of_cons, elem_of_nil.
  intros [->|[->|[->|[]]]]; by split.
Qed.

Lemma stylus_access_control_is_noop_witness :
  Stylus.setAccessControl (Store := list string) 0 (AStr "roles")
    ["use stylus_sdk::prelude::*;"] = inr (tt, ["use stylus_sdk::prelude::*;"]) ∧
  Stylus.requireAccessControl (Store := list string) 0 1 2 (AStr "roles")
    "MINTER" (Some "minter") ["use stylus_sdk::prelude::*;"] =
    inr (tt, ["use stylus_sdk::prelude::*;"]).
Proof.
  apply (stylus_access_control_is_noop ["use stylus_sdk::prelude::*;"]
           0 1 2 (AStr "roles") "MINTER" (Some "minter")).
  apply list_elem_of_further, list_elem_of_further, list_elem_of_here.
Defined.

(** ** C10: the guard of revokeAddressVerification *)

Section KeepsModifiers.
Implicit Types c : Model.ContractModel.
Implicit Types fn : BaseFunction.

Lemma keeps_modifiers_addFunction fn def :
  keeps (modifiersOf fn) (addFunction def).
Proof.
  intros c [] c' Hrun.
  by apply (model_addFunction_returns _ _ _ fn) in Hrun as (_ & _ & ?).
Qed.

Lemma keeps_modifiers_addFunctionCode fn code def :
  keeps (modifiersOf fn) (addFunctionCode code def).
Proof.
  intros c [] c' Hrun.
  by apply (addFunctionCode_returns _ _ _ _ fn) in Hrun as (_ & _ & ?).
Qed.

End KeepsModifiers.

Section RevokeGuard.
Context `{!CommonFunctions} (accessor : string → string).
Implicit Types c : Model.ContractModel.

Lemma guarded_after_roles c fn roleOwner c' :
  requireAccessControl fn (AStr "roles") "DEFAULT_ADMIN_ROLE" roleOwner c
    = inr (tt, c') →
  Model.cm_phase c' = Model.Building ∧
  guardedByDerivedRole fn (modifiersOf fn c) c'.
Proof.
  intros (Hc' & Hmods & Hsym)%requireAccessControl_roles_returns.
  split; [done|]. split_and!; [done| |done].
  rewrite Hmods. by apply elem_of_addIfAbsent_other.
Qed.

Lemma guarded_kept c fn before code c' :
  guardedByDerivedRole fn before c →
  addFunctionCode code fn c = inr (tt, c') →
  guardedByDerivedRole fn before c'.
Proof.
  intros (Hmods & Hplain & Hsym)
    (_ & Hreg & Hkeep)%(addFunctionCode_returns _ _ _ _ fn).
  unfold guardedByDerivedRole. by rewrite Hkeep, Hreg.
Qed.

End RevokeGuard.

(** C10. On any builder, [requireAccessControl] in ['roles'] mode with the
    prefix [DEFAULT_ADMIN_ROLE] and no role owner calls [setAccessControl],
    then declares the constant [DEFAULT_ADMIN_ROLE_ROLE], then adds the
    modifier [onlyRole(DEFAULT_ADMIN_ROLE_ROLE)] to the function. On every
    model, when [addAddressVerification] is called with ['roles'] and returns,
    in the structured and in the freeform variant alike: the modifiers of
    [revokeAddressVerification] are those it had, with
    [onlyRole(DEFAULT_ADMIN_ROLE_ROLE)] added; the role is the prefix
    [DEFAULT_ADMIN_ROLE] with [_ROLE] appended; the constant
    [DEFAULT_ADMIN_ROLE_ROLE] is registered, defined as
    [keccak256("DEFAULT_ADMIN_ROLE_ROLE")]; and the guard
    [onlyRole(DEFAULT_ADMIN_ROLE)] on the inherited admin role is not
    added, although the notice of the function reads [admin only]. *)
Theorem revoke_guarded_by_derived_role `{!CommonFunctions}
    (accessor : string → string) (c c' : Model.ContractModel) :
  "DEFAULT_ADMIN_ROLE" +:+ "_ROLE" = "DEFAULT_ADMIN_ROLE_ROLE" ∧
  notice (fn_docs Structured.functions.revokeAddressVerification) =
    "Revoke address verification (admin only)" ∧
  notice (fn_docs Freeform.functions.revokeAddressVerification) =
    "Revoke address verification (admin only)" ∧
  (∀ (B : Type) (builder : ContractBuilder B) (fn : BaseFunction) (cB : B),
     requireAccessControl fn (AStr "roles") "DEFAULT_ADMIN_ROLE" None cB =
       (setAccessControl (AStr "roles") ;;
        addConstantOrImmutableOrErrorDefinition
          ("bytes32 public constant DEFAULT_ADMIN_ROLE_ROLE = keccak256("
             +:+ Js.dq +:+ "DEFAULT_ADMIN_ROLE_ROLE" +:+ Js.dq +:+ ");") [] ;;
        addModifier "onlyRole(DEFAULT_ADMIN_ROLE_ROLE)" fn) cB) ∧
  (Structured.addAddressVerification (storage := ModelStorage accessor)
     (AStr "roles") c = inr (tt, c') →
   guardedByDerivedRole Structured.functions.revokeAddressVerification
     (modifiersOf Structured.functions.revokeAddressVerification c) c') ∧
  (Freeform.addAddressVerification (AStr "roles") c = inr (tt, c') →
   guardedByDerivedRole Freeform.functions.revokeAddressVerification
     (modifiersOf Freeform.functions.revokeAddressVerification c) c').
Proof.
  split_and!; [reflexivity..| | |].
  - intros B builder fn cB.
    change ("bytes32 public constant DEFAULT_ADMIN_ROLE_ROLE = keccak256("
              +:+ Js.dq +:+ "DEFAULT_ADMIN_ROLE_ROLE" +:+ Js.dq +:+ ");")
      with (roleConstant ("DEFAULT_ADMIN_ROLE" +:+ "_ROLE")).
    change "onlyRole(DEFAULT_ADMIN_ROLE_ROLE)"
      with ("onlyRole(" +:+ ("DEFAULT_ADMIN_ROLE" +:+ "_ROLE") +:+ ")").
    unfold requireAccessControl. simpl.
    unfold_build. repeat case_match; simplify_eq; by destruct_units.
  - revert c c'. unfold Structured.addAddressVerification.
    do 6 (apply keeps_then; [by apply keeps_register|intros _]).
    apply keeps_then; [apply keeps_get|intros c0].
    apply keeps_then.
    { simpl. unfold model_addStateVariable. solve_keeps. }
    intros _.
    apply keeps_then.
    { apply keeps_bind; [apply keeps_get|intros ?].
      apply keeps_modifiers_addFunctionCode. }
    intros _.
    apply keeps_then.
    { apply keeps_bind; [apply keeps_get|intros ?].
      apply keeps_modifiers_addFunctionCode. }
    intros _ c c'. simpl. unfold Structured.addRevokeAddressVerificationFunction.
    intros ([] & c1 & Hreq & Hrun)%bind_returns.
    apply guarded_after_roles in Hreq as (_ & Hguard).
    apply bind_returns in Hrun as (c2 & ? & [= <- <-] & Hcode).
    by eapply guarded_kept.
  - revert c c'. unfold Freeform.addAddressVerification.
    do 2 (apply keeps_then; [by apply keeps_register|intros _]).
    do 5 (apply keeps_then; [by apply keeps_addVariable|intros _]).
    do 2 (apply keeps_then; [apply keeps_modifiers_addFunction|intros _]).
    intros c c'. simpl. by intros (_ & Hguard)%guarded_after_roles.
Qed.

Section RevokeGuardWitness.
#[local] Existing Instance sampleFunctions.

Lemma revoke_guarded_by_derived_role_witness :
  (∃ c',
     Structured.addAddressVerification (storage := ModelStorage sampleAccessor)
       (AStr "roles") (Model.empty "MyToken" true) = inr (tt, c') ∧
     modifiersOf Structured.functions.revokeAddressVerification c' =
       ["onlyRole(DEFAULT_ADMIN_ROLE_ROLE)"]) ∧
  (∃ c',
     Freeform.addAddressVerification (AStr "roles") (Model.empty "MyToken" false)
       = inr (tt, c') ∧
     modifiersOf Freeform.functions.revokeAddressVerification c' =
       ["onlyRole(DEFAULT_ADMIN_ROLE_ROLE)"]).
Proof.
  split.
  - eexists. split; [vm_compute; reflexivity|].
    apply (proj1 (proj2 (proj2 (proj2 (proj2 (revoke_guarded_by_derived_role
             sampleAccessor (Model.empty "MyToken" true) _)))))).
    vm_compute. reflexivity.
  - eexists. split; [vm_compute; reflexivity|].
    apply (proj2 (proj2 (proj2 (proj2 (proj2 (revoke_guarded_by_derived_role
             sampleAccessor (Model.empty "MyToken" false) _)))))).
    vm_compute. reflexivity.
Defined.

End RevokeGuardWitness.

(** * Further properties of the features *)

(** ** X1: the guard of each access mode *)

Section Guards.
Context `{!CommonFunctions}.
Implicit Types c : Model.ContractModel.
Implicit Types fn g : BaseFunction.

(** A modifier added to one function is added to no function of another
    identity. *)
Lemma addModifier_other c modifierText fn c' g :
  Model.signature g ≠ Model.signature fn →
  addModifier modifierText fn c = inr (tt, c') →
  modifiersOf g c' = modifiersOf g c.
Proof.
  simpl. unfold model_addModifier.
  intros Hsig (entry & cf & Hadd & Hmod)%bind_returns.
  pose proof (addFunction_returns _ _ _ _ Hadd) as (Hc & [e He] & Hcf).
  assert (Model.cm_phase cf = Model.Building) as Hcfb
    by (by destruct Hcf as [->| ->]).
  rewrite addModifier_run in Hmod by done. simplify_eq.
  rewrite <- (modifiersOf_addFunction _ _ _ _ g Hadd).
  unfold modifiersOf, entryOf. simpl.
  apply list_find_Some in He as (Hentry & Hfn & _).
  destruct (list_find (λ e, Model.signature (Model.entry_def e) = Model.signature g)
              (Model.cm_functions cf)) as [[j x]|] eqn:Hfind.
  - rewrite (list_find_alter_miss _ _ _ entry j x); [done| |..|done].
    + intros y. by rewrite entry_def_modified.
    + intros ->. apply list_find_Some in Hfind as (Hj & Hg & _).
      simplify_eq. apply Hsig. unfold Model.signature. congruence.
  - rewrite list_find_alter_None; [done| |done].
    intros y. by rewrite entry_def_modified.
Qed.

(** The block that declares and grants a role to its owner: it runs only
    for a role owner that is given and not empty and a constant that is
    new, and writes the constructor only. *)
Lemma roleOwner_block_returns c2 roleId roleOwner (added : bool) c3 :
  (match roleOwner with
   | Some owner =>
       if Js.truthyString owner && added then
         addConstructorArgument {| arg_type := "address"; arg_name := owner |} ;;
         addConstructorCode (requireRoleOwner owner) ;;
         addConstructorCode (grantRole roleId owner)
       else mret tt
   | None => mret tt
   end) c2 = inr (tt, c3) →
  Model.cm_parents c3 = Model.cm_parents c2 ∧
  Model.cm_functions c3 = Model.cm_functions c2 ∧
  Model.cm_registry c3 = Model.cm_registry c2 ∧
  (from_option Js.truthyString false roleOwner && added = false → c3 = c2).
Proof.
  intros Hblock.
  destruct roleOwner as [owner|];
    [|injection Hblock as <-; by split_and!].
  simpl. destruct (Js.truthyString owner && added);
    [|injection Hblock as <-; by split_and!].
  apply bind_returns in Hblock as ([] & ca & Harg & Hcode).
  pose proof (addConstructorArgument_returns _ _ _ Harg) as (Hc2 & Hca & _).
  assert (Model.cm_phase ca = Model.Building) as Hcab
    by (by destruct Hca as [->| ->]).
  apply bind_returns in Hcode as ([] & cc & Hcheck & Hgrant).
  simpl in Hcheck, Hgrant. rewrite addCode_run in Hcheck by done.
  simplify_eq. rewrite addCode_run in Hgrant by done. simplify_eq.
  by destruct Hca as [->| ->].
Qed.

(** What follows [setAccessControl] in [requireAccessControl]: the parents
    and the function table stay until the function gains the guard of the
    mode. *)
Lemma requireAccessControl_returns c m fn roleIdPrefix roleOwner c' :
  requireAccessControl fn (accessOf m) roleIdPrefix roleOwner c = inr (tt, c') →
  ∃ c1 c2,
    setAccessControl (accessOf m) c = inr (tt, c1) ∧
    Model.cm_parents c2 = Model.cm_parents c1 ∧
    Model.cm_functions c2 = Model.cm_functions c1 ∧
    addModifier (guardOf m roleIdPrefix) fn c2 = inr (tt, c').
Proof.
  destruct m; unfold requireAccessControl; simpl;
    intros ([] & c1 & Hset & Hrun)%bind_returns.
  - by exists c1, c1.
  - apply bind_returns in Hrun as (added & c2 & Hreg & Hrun).
    apply bind_returns in Hrun as ([] & c3 & Hblock & Hmod).
    apply roleOwner_block_returns in Hblock as (Hp3 & Hf3 & _).
    pose proof (keeps_register Model.cm_parents _ _ _
                  (λ _ _, eq_refl) _ _ _ Hreg) as Hp2.
    apply register_returns in Hreg as (_ & Hf2 & _).
    exists c1, c3. split_and!; [done| | |done]; congruence.
  - by exists c1, c1.
Qed.

End Guards.

(** X1. For each of the three access modes, every function [fn], role-id
    prefix and role owner, and every model: when [requireAccessControl]
    returns, the parent of the mode is present, [fn] has its former
    modifiers with the guard of the mode added ([onlyOwner],
    [onlyRole(<prefix>_ROLE)] or [restricted]), and a function [g] of
    another identity has the modifiers it had. *)
Theorem requireAccessControl_guards_target `{!CommonFunctions}
    (m : AccessMode) (fn g : BaseFunction) (roleIdPrefix : string)
    (roleOwner : option string) (c c' : Model.ContractModel) :
  requireAccessControl fn (accessOf m) roleIdPrefix roleOwner c = inr (tt, c') →
  Model.hasParent (contract_name (parentOf m)) c' = true ∧
  modifiersOf fn c' = addIfAbsent (guardOf m roleIdPrefix) (modifiersOf fn c) ∧
  (Model.signature g ≠ Model.signature fn → modifiersOf g c' = modifiersOf g c).
Proof.
  intros (c1 & c2 & Hset & Hparents & Hfns & Hmod)%requireAccessControl_returns.
  pose proof (setAccessControl_frame _ _ _ fn Hset) as (_ & Hp & _ & Hmods).
  pose proof (setAccessControl_frame _ _ _ g Hset) as (_ & _ & _ & Hmodsg).
  split_and!.
  - destruct (addModifier_returns _ _ _ _ Hmod) as (_ & [F ->] & _).
    unfold Model.hasParent in *. simpl. by rewrite Hparents.
  - destruct (addModifier_returns _ _ _ _ Hmod) as (_ & _ & ->).
    by rewrite (modifiersOf_functions c1 c2), Hmods.
  - intros Hsig. rewrite (addModifier_other _ _ _ _ g Hsig Hmod).
    by rewrite (modifiersOf_functions c1 c2), Hmodsg.
Qed.

Section GuardsWitness.
#[local] Existing Instance sampleFunctions.

Lemma requireAccessControl_guards_target_witness :
  ∃ c',
    requireAccessControl Structured.functions.revokeAddressVerification
      (AStr "managed") "PAUSER" None (Model.empty "MyToken" false)
      = inr (tt, c') ∧
    Model.hasParent "AccessManaged" c' = true ∧
    modifiersOf Structured.functions.revokeAddressVerification c' = ["restricted"] ∧
    modifiersOf Structured.functions.isAddressVerified c' = [].
Proof.
  eexists. split; [vm_compute; reflexivity|].
  destruct (requireAccessControl_guards_target ModeManaged
              Structured.functions.revokeAddressVerification
              Structured.functions.isAddressVerified "PAUSER" None
              (Model.empty "MyToken" false) _ eq_refl) as (Hp & Hfn & Hg).
  split; [exact Hp|]. split; [exact Hfn|]. apply Hg. discriminate.
Defined.

End GuardsWitness.

(** ** X2, X3: when a role is declared and granted *)

Section RoleOnce.
Context `{!CommonFunctions}.
Implicit Types c : Model.ContractModel.
Implicit Types fn : BaseFunction.

(** After [requireAccessControl] in any mode the parent of the mode is
    present and the model is Building. *)
Lemma requireAccessControl_parent c m fn roleIdPrefix roleOwner c' :
  requireAccessControl fn (accessOf m) roleIdPrefix roleOwner c = inr (tt, c') →
  Model.cm_phase c' = Model.Building ∧
  Model.hasParent (contract_name (parentOf m)) c' = true.
Proof.
  intros (c1 & c2 & Hset & Hparents & _ & Hmod)%requireAccessControl_returns.
  pose proof (setAccessControl_frame _ _ _ fn Hset) as (_ & Hp & _).
  destruct (addModifier_returns _ _ _ _ Hmod) as (Hc2 & [F ->] & _).
  split; [done|]. unfold Model.hasParent in *. simpl. by rewrite Hparents.
Qed.

End RoleOnce.

(** X2. When two functions are guarded under the same role, one call of
    [requireAccessControl] after the other with the same role-id prefix
    (whatever the role owners), the second call declares nothing again: the
    parents, the constructor arguments, the constructor statements and the
    registry are those the first call left, and the second function gains
    the guard [onlyRole(<prefix>_ROLE)]. *)
Theorem shared_role_declared_once `{!CommonFunctions} (fn1 fn2 : BaseFunction)
    (roleIdPrefix : string) (owner1 owner2 : option string)
    (c c1 c2 : Model.ContractModel) :
  requireAccessControl fn1 (AStr "roles") roleIdPrefix owner1 c = inr (tt, c1) →
  requireAccessControl fn2 (AStr "roles") roleIdPrefix owner2 c1 = inr (tt, c2) →
  Model.cm_parents c2 = Model.cm_parents c1 ∧
  Model.cm_constructorArgs c2 = Model.cm_constructorArgs c1 ∧
  Model.cm_constructorCode c2 = Model.cm_constructorCode c1 ∧
  Model.cm_registry c2 = Model.cm_registry c1 ∧
  modifiersOf fn2 c2 =
    addIfAbsent ("onlyRole(" +:+ (roleIdPrefix +:+ "_ROLE") +:+ ")")
                (modifiersOf fn2 c1).
Proof.
  intros Hfirst Hsecond.
  pose proof (requireAccessControl_parent c ModeRoles _ _ _ _ Hfirst)
    as (Hc1 & Hp).
  apply requireAccessControl_roles_returns in Hfirst as (_ & _ & Hsym).
  unfold requireAccessControl in Hsecond. simpl in Hsecond.
  apply bind_returns in Hsecond as ([] & d1 & Hset & Hrun).
  change (setAccessControl (accessOf ModeRoles) c1 = inr (tt, d1)) in Hset.
  rewrite setAccessControl_present in Hset by done.
  pose proof (afterBlock_modifiers _ _ _ fn2 Hset) as Hmods.
  destruct (afterBlock_frame _ _ _ Hset) as [F ->].
  apply bind_returns in Hrun as (added & d2 & Hreg & Hrun).
  simpl in Hreg. unfold model_addConstantOrImmutableOrErrorDefinition in Hreg.
  rewrite register_run in Hreg by done. simpl in Hreg.
  rewrite Hsym, decide_True in Hreg by done. simplify_eq.
  apply bind_returns in Hrun as ([] & d3 & Hblock & Hmod).
  apply roleOwner_block_returns in Hblock as (_ & _ & _ & Hsame).
  rewrite andb_false_r in Hsame. specialize (Hsame eq_refl) as ->.
  destruct (addModifier_returns _ _ _ _ Hmod) as (_ & [G ->] & ->).
  split_and!; [done..|]. by rewrite Hmods.
Qed.

(** X3. In ['roles'] mode, a role owner that is [undefined] or the empty
    string gets neither a constructor argument nor statements: the
    constructor is as [setAccessControl] left it, while the role constant
    is registered all the same. *)
Theorem absent_role_owner_is_not_granted `{!CommonFunctions} (fn : BaseFunction)
    (roleIdPrefix : string) (roleOwner : option string)
    (c c1 c' : Model.ContractModel) :
  from_option Js.truthyString false roleOwner = false →
  setAccessControl (AStr "roles") c = inr (tt, c1) →
  requireAccessControl fn (AStr "roles") roleIdPrefix roleOwner c = inr (tt, c') →
  Model.cm_constructorArgs c' = Model.cm_constructorArgs c1 ∧
  Model.cm_constructorCode c' = Model.cm_constructorCode c1 ∧
  Model.lookupSymbol KNamedConstant (roleConstant (roleIdPrefix +:+ "_ROLE"))
    (Model.cm_registry c') =
    Some (PNamedConstant (roleConstant (roleIdPrefix +:+ "_ROLE")) []).
Proof.
  intros Hfalsy Hset Hrun.
  pose proof (requireAccessControl_roles_returns _ _ _ _ _ Hrun) as (_ & _ & Hsym).
  split_and!; [| |done].
  all: unfold requireAccessControl in Hrun; simpl in Hrun;
    rewrite (bind_step _ _ _ _ _ Hset) in Hrun;
    apply bind_returns in Hrun as (added & c2 & Hreg & Hrun);
    apply bind_returns in Hrun as ([] & c3 & Hblock & Hmod);
    apply roleOwner_block_returns in Hblock as (_ & _ & _ & Hsame);
    rewrite Hfalsy in Hsame; specialize (Hsame eq_refl) as ->;
    destruct (addModifier_returns _ _ _ _ Hmod) as (_ & [G ->] & _); simpl.
  - by apply (keeps_register Model.cm_constructorArgs _ _ _
                (λ _ _, eq_refl) _ _ _ Hreg).
  - by apply (keeps_register Model.cm_constructorCode _ _ _
                (λ _ _, eq_refl) _ _ _ Hreg).
Qed.

Section RoleOnceWitness.
#[local] Existing Instance sampleFunctions.

Lemma shared_role_declared_once_witness :
  ∃ c1 c2,
    requireAccessControl Structured.functions.verifyAddressOwnership
      (AStr "roles") "VERIFIER" (Some "verifier") (Model.empty "MyToken" false)
      = inr (tt, c1) ∧
    requireAccessControl Structured.functions.revokeAddressVerification
      (AStr "roles") "VERIFIER" (Some "verifier") c1 = inr (tt, c2) ∧
    Model.cm_constructorCode c2 = Model.cm_constructorCode c1 ∧
    length (Model.cm_constructorCode c1) = 4.
Proof.
  eexists. eexists.
  split; [vm_compute; reflexivity|].
  split; [vm_compute; reflexivity|].
  split; [|reflexivity].
  apply (shared_role_declared_once
           Structured.functions.verifyAddressOwnership
           Structured.functions.revokeAddressVerification
           "VERIFIER" (Some "verifier") (Some "verifier")
           (Model.empty "MyToken" false)).
  - vm_compute. reflexivity.
  - vm_compute. reflexivity.
Defined.

Lemma absent_role_owner_is_not_granted_witness :
  ∃ c1 c',
    setAccessControl (AStr "roles") (Model.empty "MyToken" false) = inr (tt, c1) ∧
    requireAccessControl Structured.functions.revokeAddressVerification
      (AStr "roles") "VERIFIER" (Some "") (Model.empty "MyToken" false)
      = inr (tt, c') ∧
    Model.cm_constructorArgs c' = Model.cm_constructorArgs c1 ∧
    Model.cm_constructorCode c' = [requireAdmin; grantAdmin].
Proof.
  assert (∃ c1, setAccessControl (AStr "roles") (Model.empty "MyToken" false)
                = inr (tt, c1)) as [c1 Hset]
    by (eexists; vm_compute; reflexivity).
  assert (∃ c', requireAccessControl
                  Structured.functions.revokeAddressVerification
                  (AStr "roles") "VERIFIER" (Some "")
                  (Model.empty "MyToken" false) = inr (tt, c')) as [c' Hrun]
    by (eexists; vm_compute; reflexivity).
  destruct (absent_role_owner_is_not_granted
              Structured.functions.revokeAddressVerification "VERIFIER" (Some "")
              (Model.empty "MyToken" false) c1 c' eq_refl Hset Hrun)
    as (Hargs & Hcode & _).
  exists c1, c'. split_and!; [done..|].
  rewrite Hcode. by injection Hset as <-.
Defined.

End RoleOnceWitness.

(** ** X4: access control only appends *)

Section Appends.
Context {T : Type} (view : Model.ContractModel → list T).
Implicit Types c : Model.ContractModel.

Lemma appends_of_keeps {A : Type} (op : Model.Build A) :
  keeps view op → appendsTo view op.
Proof. intros Hop c x c' Hrun. by rewrite (Hop _ _ _ Hrun). Qed.

Lemma appends_bind {A B : Type} (op : Model.Build A) (f : A → Model.Build B) :
  appendsTo view op → (∀ a, appendsTo view (f a)) → appendsTo view (op ≫= f).
Proof.
  intros Hop Hf c x c' (a & c1 & Hrun & Htail)%bind_returns.
  etransitivity; [by eapply Hop|by eapply Hf].
Qed.

End Appends.

Section AppendsComponents.
Implicit Types c : Model.ContractModel.

Lemma appends_addParent contract params :
  appendsTo Model.cm_parents (Model.addParent contract params).
Proof.
  intros c added c'. unfold Model.addParent. unfold_build.
  destruct (Model.cm_phase c); [|discriminate].
  destruct (Model.hasParent _ _); intros [= _ <-]; [done|].
  by apply prefix_app_r.
Qed.

Lemma appends_addArgument arg owner :
  appendsTo Model.cm_constructorArgs (Model.addArgument arg owner).
Proof.
  intros c [] c'. unfold Model.addArgument. unfold_build.
  destruct (Model.cm_phase c); [|discriminate].
  destruct (list_find _ _) as [[i present]|]; [destruct (decide _)|];
    intros [= <-]; [done|]. by apply prefix_app_r.
Qed.

Lemma appends_addCode stmt :
  appendsTo Model.cm_constructorCode (Model.addCode stmt).
Proof.
  intros c [] c'. unfold Model.addCode. unfold_build.
  destruct (Model.cm_phase c); [|discriminate].
  intros [= <-]. by apply prefix_app_r.
Qed.

Lemma appends_register kind key payload :
  appendsTo Model.cm_registry (Model.register kind key payload).
Proof.
  intros c added c'. unfold Model.register. unfold_build.
  destruct (Model.cm_phase c); [|discriminate].
  destruct (Model.lookupSymbol _ _ _); [destruct (decide _)|];
    intros [= _ <-]; [done|]. by apply prefix_app_r.
Qed.

(** The identities of the functions in the table, in table order. *)
Lemma signatures_alter (f : Model.FunctionEntry → Model.FunctionEntry) i
    (fs : list Model.FunctionEntry) :
  (∀ e, Model.entry_def (f e) = Model.entry_def e) →
  (Model.signature ∘ Model.entry_def) <$> alter f i fs =
  (Model.signature ∘ Model.entry_def) <$> fs.
Proof.
  intros Hf. revert i. induction fs as [|e fs IH]; intros [|i]; simpl; [done..| |].
  - by rewrite Hf.
  - f_equal. apply IH.
Qed.

Lemma appends_signatures_addFunction def :
  appendsTo (λ c, (Model.signature ∘ Model.entry_def) <$> Model.cm_functions c)
    (Model.addFunction def).
Proof.
  intros c entry c' (_ & _ & [->| ->])%addFunction_returns; [done|].
  simpl. rewrite fmap_app. by apply prefix_app_r.
Qed.

Lemma keeps_signatures_addModifier entry modifierText :
  keeps (λ c, (Model.signature ∘ Model.entry_def) <$> Model.cm_functions c)
    (Model.addModifier entry modifierText).
Proof.
  intros c [] c'. unfold Model.addModifier. unfold_build.
  destruct (Model.cm_phase c); [|discriminate]. intros [= <-]. simpl.
  apply signatures_alter. intros e. apply entry_def_modified.
Qed.

Lemma appends_signatures_addOverride parentRef def :
  appendsTo (λ c, (Model.signature ∘ Model.entry_def) <$> Model.cm_functions c)
    (Model.addOverride parentRef def).
Proof.
  intros c [] c' (entry & cf & Hadd & ->)%addOverride_returns. simpl.
  rewrite signatures_alter by done.
  by apply (appends_signatures_addFunction def c entry cf).
Qed.

End AppendsComponents.

(** Solves [appendsTo view op] for a procedure made of the operations of
    the model. *)
Ltac appends_leaf :=
  first
    [ apply appends_addParent
    | apply appends_addArgument
    | apply appends_addCode
    | apply appends_register
    | apply appends_signatures_addFunction
    | apply appends_signatures_addOverride
    | apply appends_of_keeps;
      first
        [ apply keeps_signatures_addModifier
        | apply keeps_ret
        | apply keeps_register; done
        | apply keeps_addParent; done
        | apply keeps_addArgument; done
        | apply keeps_addCode; done
        | apply keeps_table_addFunction; done
        | apply keeps_table_addModifier; done
        | apply keeps_table_addOverride; done ] ].

Ltac solve_appends :=
  repeat match goal with
  | |- appendsTo _ (_ ≫= _) => apply appends_bind; [|intros ?]
  | |- appendsTo _ (if ?b then _ else _) => destruct b
  | |- appendsTo _ (match ?o with Some _ => _ | None => _ end) => destruct o
  | |- appendsTo _ (mret _) => apply appends_of_keeps, keeps_ret
  | |- appendsTo _ get => apply appends_of_keeps, keeps_get
  | |- appendsTo _ (Model.addParent _ _) => appends_leaf
  | |- appendsTo _ (Model.addArgument _ _) => appends_leaf
  | |- appendsTo _ (Model.addCode _) => appends_leaf
  | |- appendsTo _ (Model.register _ _ _) => appends_leaf
  | |- appendsTo _ (Model.addFunction _) => appends_leaf
  | |- appendsTo _ (Model.addModifier _ _) => appends_leaf
  | |- appendsTo _ (Model.addOverride _ _) => appends_leaf
  end.

Section AccessControlAppends.
Context `{!CommonFunctions}.

Lemma appends_parents_requireAccessControl fn access roleIdPrefix roleOwner :
  appendsTo Model.cm_parents
    (requireAccessControl fn access roleIdPrefix roleOwner).
Proof.
  unfold requireAccessControl, setAccessControl. simpl.
  unfold model_addConstructorArgument, model_addModifier,
    model_addConstantOrImmutableOrErrorDefinition.
  solve_appends.
Qed.

Lemma appends_args_requireAccessControl fn access roleIdPrefix roleOwner :
  appendsTo Model.cm_constructorArgs
    (requireAccessControl fn access roleIdPrefix roleOwner).
Proof.
  unfold requireAccessControl, setAccessControl. simpl.
  unfold model_addConstructorArgument, model_addModifier,
    model_addConstantOrImmutableOrErrorDefinition.
  solve_appends.
Qed.

Lemma appends_code_requireAccessControl fn access roleIdPrefix roleOwner :
  appendsTo Model.cm_constructorCode
    (requireAccessControl fn access roleIdPrefix roleOwner).
Proof.
  unfold requireAccessControl, setAccessControl. simpl.
  unfold model_addConstructorArgument, model_addModifier,
    model_addConstantOrImmutableOrErrorDefinition.
  solve_appends.
Qed.

Lemma appends_registry_requireAccessControl fn access roleIdPrefix roleOwner :
  appendsTo Model.cm_registry
    (requireAccessControl fn access roleIdPrefix roleOwner).
Proof.
  unfold requireAccessControl, setAccessControl. simpl.
  unfold model_addConstructorArgument, model_addModifier,
    model_addConstantOrImmutableOrErrorDefinition.
  solve_appends.
Qed.

Lemma appends_signatures_requireAccessControl fn access roleIdPrefix roleOwner :
  appendsTo (λ c, (Model.signature ∘ Model.entry_def) <$> Model.cm_functions c)
    (requireAccessControl fn access roleIdPrefix roleOwner).
Proof.
  unfold requireAccessControl, setAccessControl. simpl.
  unfold model_addConstructorArgument, model_addModifier,
    model_addConstantOrImmutableOrErrorDefinition.
  solve_appends.
Qed.

End AccessControlAppends.

(** X4. Whatever the access value, the function, the prefix and the role
    owner: when [requireAccessControl] returns, the name, the upgradeability
    flag, the freeform variables and the storage layout of the model are as
    they were, and the parents, the constructor arguments, the constructor
    statements, the registry and the identities in the function table are
    the former ones with, at most, entries appended: access control removes
    and reorders nothing. *)
Theorem access_control_only_appends `{!CommonFunctions} (fn : BaseFunction)
    (access : AccessValue) (roleIdPrefix : string) (roleOwner : option string)
    (c c' : Model.ContractModel) :
  requireAccessControl fn access roleIdPrefix roleOwner c = inr (tt, c') →
  Model.cm_name c' = Model.cm_name c ∧
  Model.cm_upgradeable c' = Model.cm_upgradeable c ∧
  Model.cm_variables c' = Model.cm_variables c ∧
  Model.cm_storage c' = Model.cm_storage c ∧
  Model.cm_parents c `prefix_of` Model.cm_parents c' ∧
  Model.cm_constructorArgs c `prefix_of` Model.cm_constructorArgs c' ∧
  Model.cm_constructorCode c `prefix_of` Model.cm_constructorCode c' ∧
  Model.cm_registry c `prefix_of` Model.cm_registry c' ∧
  ((Model.signature ∘ Model.entry_def) <$> Model.cm_functions c) `prefix_of`
    ((Model.signature ∘ Model.entry_def) <$> Model.cm_functions c').
Proof.
  intros Hrun. split_and!.
  - by eapply (keeps_requireAccessControl Model.cm_name).
  - by eapply (keeps_requireAccessControl Model.cm_upgradeable).
  - by eapply (keeps_requireAccessControl Model.cm_variables).
  - by eapply (keeps_requireAccessControl Model.cm_storage).
  - by eapply appends_parents_requireAccessControl.
  - by eapply appends_args_requireAccessControl.
  - by eapply appends_code_requireAccessControl.
  - by eapply appends_registry_requireAccessControl.
  - by eapply (appends_signatures_requireAccessControl fn access).
Qed.

Section AppendsWitness.
#[local] Existing Instance sampleFunctions.

Lemma access_control_only_appends_witness :
  ∃ c c',
    Freeform.addAddressVerification AFalse (Model.empty "MyToken" true)
      = inr (tt, c) ∧
    requireAccessControl Freeform.functions.isAddressVerified (AStr "roles")
      "VERIFIER" (Some "verifier") c = inr (tt, c') ∧
    Model.cm_variables c = freeformBlocks ∧
    (Model.sym_key <$> Model.cm_registry c) = ["ECDSA"; "MessageHashUtils"] ∧
    (Model.signature ∘ Model.entry_def <$> Model.cm_functions c) =
      [("isAddressVerified", ["address"]);
       ("verifyAddressOwnership", ["bytes32"; "bytes"])] ∧
    Model.cm_variables c' = Model.cm_variables c ∧
    Model.cm_registry c `prefix_of` Model.cm_registry c' ∧
    (Model.signature ∘ Model.entry_def <$> Model.cm_functions c) `prefix_of`
      (Model.signature ∘ Model.entry_def <$> Model.cm_functions c').
Proof.
  assert (∃ c c',
    Freeform.addAddressVerification AFalse (Model.empty "MyToken" true)
      = inr (tt, c) ∧
    requireAccessControl Freeform.functions.isAddressVerified (AStr "roles")
      "VERIFIER" (Some "verifier") c = inr (tt, c') ∧
    Model.cm_variables c = freeformBlocks ∧
    (Model.sym_key <$> Model.cm_registry c) = ["ECDSA"; "MessageHashUtils"] ∧
    (Model.signature ∘ Model.entry_def <$> Model.cm_functions c) =
      [("isAddressVerified", ["address"]);
       ("verifyAddressOwnership", ["bytes32"; "bytes"])])
    as (c & c' & Hfeature & Hrun & Hvars & Hkeys & Hsigs).
  { do 2 eexists. split; [vm_compute; reflexivity|].
    split; [vm_compute; reflexivity|].
    split; [vm_compute; reflexivity|].
    split; vm_compute; reflexivity. }
  exists c, c'. split_and!; [done..| | |].
  - by destruct (access_control_only_appends _ _ _ _ _ _ Hrun)
      as (_ & _ & Hkept & _).
  - by destruct (access_control_only_appends _ _ _ _ _ _ Hrun)
      as (_ & _ & _ & _ & _ & _ & _ & Hregistry & _).
  - by destruct (access_control_only_appends _ _ _ _ _ _ Hrun)
      as (_ & _ & _ & _ & _ & _ & _ & _ & Hfunctions).
Defined.

End AppendsWitness.

(** ** X5: no access control, no revocation *)

Section EntryKeeps.
Implicit Types c : Model.ContractModel.
Implicit Types fn g : BaseFunction.

(** An update in place of one entry leaves the entry of a function of
    another identity as it was. *)
Lemma entryOf_alter_other c fn (f : Model.FunctionEntry → Model.FunctionEntry)
    i e :
  Model.cm_functions c !! i = Some e →
  Model.signature (Model.entry_def e) ≠ Model.signature fn →
  (∀ y, Model.entry_def (f y) = Model.entry_def y) →
  entryOf fn (Model.with_functions (alter f i) c) = entryOf fn c.
Proof.
  intros Hi Hsig Hdef. unfold entryOf. simpl.
  destruct (list_find (λ e, Model.signature (Model.entry_def e) = Model.signature fn)
              (Model.cm_functions c)) as [[j x]|] eqn:Hfind.
  - rewrite (list_find_alter_miss _ _ _ i j x); [done| |..|done].
    + intros y. by rewrite Hdef.
    + intros ->. apply list_find_Some in Hfind as (Hj & Hfn & _).
      rewrite Hi in Hj. injection Hj as ->. done.
  - rewrite list_find_alter_None; [done| |done].
    intros y. by rewrite Hdef.
Qed.

Lemma keeps_entryOf_addFunction fn g :
  Model.signature g ≠ Model.signature fn →
  keeps (entryOf fn) (Model.addFunction g).
Proof.
  intros Hsig c entry c' Hadd.
  pose proof (addFunction_returns _ _ _ _ Hadd) as (Hc & _ & [->| ->]);
    [done|].
  unfold entryOf. simpl.
  destruct (list_find (λ e, Model.signature (Model.entry_def e) = Model.signature fn)
              (Model.cm_functions c)) as [[j x]|] eqn:Hfind.
  - by rewrite (list_find_app_l _ _ _ _ _ Hfind).
  - rewrite list_find_app_r by done. simpl. by rewrite decide_False.
Qed.

Lemma keeps_entryOf_model_addFunction fn g :
  Model.signature g ≠ Model.signature fn →
  keeps (entryOf fn) (model_addFunction g).
Proof.
  intros Hsig. unfold model_addFunction.
  apply keeps_bind; [by apply keeps_entryOf_addFunction|intros _].
  apply keeps_ret.
Qed.

Lemma keeps_entryOf_addFunctionCode fn g code :
  Model.signature g ≠ Model.signature fn →
  keeps (entryOf fn) (model_addFunctionCode code g).
Proof.
  intros Hsig c [] c' (entry & cf & Hadd & Hbody)%bind_returns.
  rewrite <- (keeps_entryOf_addFunction fn g Hsig _ _ _ Hadd).
  pose proof (addFunction_returns _ _ _ _ Hadd) as (Hc & [e He] & Hcf).
  assert (Model.cm_phase cf = Model.Building) as Hcfb
    by (by destruct Hcf as [->| ->]).
  apply list_find_Some in He as (Hentry & Hg & _).
  assert (Model.signature (Model.entry_def e) ≠ Model.signature fn) as Hne
    by (by rewrite Hg).
  rewrite setBody_run in Hbody by done. rewrite Hentry in Hbody.
  destruct (decide _); [|discriminate]. injection Hbody as <-.
  by apply (entryOf_alter_other _ _ _ _ e).
Qed.

End EntryKeeps.

(** Solves [keeps view op] step by step, with [leaf] for the operations of
    the builder. *)
Ltac keeps_with leaf :=
  repeat match goal with
  | |- keeps _ (_ ≫= _) => apply keeps_bind; [|intros ?]
  | |- keeps _ (if ?b then _ else _) => destruct b
  | |- keeps _ (match ?o with Some _ => _ | None => _ end) => destruct o
  | |- keeps _ (mret _) => apply keeps_ret
  | |- keeps _ get => apply keeps_get
  | |- keeps _ _ => progress leaf
  end.

Ltac distinct_signatures :=
  let H := fresh in intros H; vm_compute in H; discriminate H.

Ltac entry_leaf :=
  first
    [ apply keeps_register; done
    | apply keeps_addVariable; done
    | apply keeps_setNamespacedStorage; done
    | apply keeps_entryOf_model_addFunction; distinct_signatures
    | apply keeps_entryOf_addFunctionCode; distinct_signatures ].

Ltac plain_leaf :=
  first
    [ apply keeps_register; done
    | apply keeps_addVariable; done
    | apply keeps_setNamespacedStorage; done
    | apply keeps_table_addFunction; done
    | apply keeps_table_setBody; done ].

Section NoAccess.
Context `{!CommonFunctions} (accessor : string → string).
Implicit Types c : Model.ContractModel.

(** The structured variant up to the question whether access is set. *)
Lemma structured_declarations_keep {T : Type}
    (view : Model.ContractModel → T) access :
  accessTruthy access = false →
  (∀ F c, view (Model.with_registry F c) = view c) →
  (∀ F c, view (Model.with_storage F c) = view c) →
  (∀ F c, view (Model.with_functions F c) = view c) →
  keeps view
    (Structured.addAddressVerification (storage := ModelStorage accessor) access).
Proof.
  intros Hfalse Hreg Hstore Hfun.
  unfold Structured.addAddressVerification,
    Structured.addIsAddressVerifiedFunction,
    Structured.addVerifyAddressOwnershipFunction.
  rewrite Hfalse.
  change (addFunctionCode (B := Model.ContractModel))
    with model_addFunctionCode.
  unfold model_addFunctionCode.
  keeps_with plain_leaf.
Qed.

Lemma structured_keeps_revoke access :
  accessTruthy access = false →
  keeps (entryOf Structured.functions.revokeAddressVerification)
    (Structured.addAddressVerification (storage := ModelStorage accessor) access).
Proof.
  intros Hfalse.
  unfold Structured.addAddressVerification,
    Structured.addIsAddressVerifiedFunction,
    Structured.addVerifyAddressOwnershipFunction.
  rewrite Hfalse.
  change (addFunctionCode (B := Model.ContractModel))
    with model_addFunctionCode.
  keeps_with entry_leaf.
Qed.

Lemma freeform_declarations_keep {T : Type}
    (view : Model.ContractModel → T) access :
  accessTruthy access = false →
  (∀ F c, view (Model.with_registry F c) = view c) →
  (∀ F c, view (Model.with_variables F c) = view c) →
  (∀ F c, view (Model.with_functions F c) = view c) →
  keeps view (Freeform.addAddressVerification access).
Proof.
  intros Hfalse Hreg Hvars Hfun.
  unfold Freeform.addAddressVerification. rewrite Hfalse.
  change (addFunction (B := Model.ContractModel)) with model_addFunction.
  unfold model_addFunction.
  keeps_with plain_leaf.
Qed.

Lemma freeform_keeps_revoke access :
  accessTruthy access = false →
  keeps (entryOf Freeform.functions.revokeAddressVerification)
    (Freeform.addAddressVerification access).
Proof.
  intros Hfalse.
  unfold Freeform.addAddressVerification. rewrite Hfalse.
  change (addFunction (B := Model.ContractModel)) with model_addFunction.
  keeps_with entry_leaf.
Qed.

End NoAccess.

(** X5. When the access value is falsy ([false], the empty string, or any
    other falsy value the caller passes), [addAddressVerification], in the
    structured and in the freeform variant alike, takes no step towards
    access control: when it returns, the parents, the constructor arguments
    and the constructor statements of the model are as they were, and
    [revokeAddressVerification] has the entry in the function table it had
    before; a model without the function is left without it. *)
Theorem no_access_no_revocation `{!CommonFunctions}
    (accessor : string → string) (access : AccessValue)
    (c c' : Model.ContractModel) :
  accessTruthy access = false →
  (Structured.addAddressVerification (storage := ModelStorage accessor)
     access c = inr (tt, c') →
   Model.cm_parents c' = Model.cm_parents c ∧
   Model.cm_constructorArgs c' = Model.cm_constructorArgs c ∧
   Model.cm_constructorCode c' = Model.cm_constructorCode c ∧
   entryOf Structured.functions.revokeAddressVerification c' =
     entryOf Structured.functions.revokeAddressVerification c) ∧
  (Freeform.addAddressVerification access c = inr (tt, c') →
   Model.cm_parents c' = Model.cm_parents c ∧
   Model.cm_constructorArgs c' = Model.cm_constructorArgs c ∧
   Model.cm_constructorCode c' = Model.cm_constructorCode c ∧
   entryOf Freeform.functions.revokeAddressVerification c' =
     entryOf Freeform.functions.revokeAddressVerification c).
Proof.
  intros Hfalse. split; intros Hrun; split_and!.
  - by eapply (structured_declarations_keep accessor Model.cm_parents).
  - by eapply (structured_declarations_keep accessor Model.cm_constructorArgs).
  - by eapply (structured_declarations_keep accessor Model.cm_constructorCode).
  - by eapply structured_keeps_revoke.
  - by eapply (freeform_declarations_keep Model.cm_parents).
  - by eapply (freeform_declarations_keep Model.cm_constructorArgs).
  - by eapply (freeform_declarations_keep Model.cm_constructorCode).
  - by eapply freeform_keeps_revoke.
Qed.

Section NoAccessWitness.
#[local] Existing Instance sampleFunctions.

Lemma no_access_no_revocation_witness :
  accessTruthy (AStr "") = false ∧
  ∃ c',
    Freeform.addAddressVerification (AStr "") (Model.empty "MyToken" false)
      = inr (tt, c') ∧
    Model.cm_parents c' = [] ∧
    entryOf Freeform.functions.revokeAddressVerification c' = None.
Proof.
  split; [reflexivity|].
  assert (∃ c', Freeform.addAddressVerification (AStr "")
                  (Model.empty "MyToken" false) = inr (tt, c')) as [c' Hrun]
    by (eexists; vm_compute; reflexivity).
  exists c'. split; [done|].
  destruct (no_access_no_revocation sampleAccessor (AStr "")
              (Model.empty "MyToken" false) c' eq_refl)
    as [_ Hfree].
  destruct (Hfree Hrun) as (Hparents & _ & _ & Hrevoke).
  by split.
Defined.

End NoAccessWitness.

(** ** X6, X7: where the mapping is declared *)

Section Registered.
Implicit Types c : Model.ContractModel.

(** Registering a symbol changes what is registered under no other key. *)
Lemma keeps_registered_register kind key kind' key' payload :
  (kind', key') ≠ (kind, key) →
  keeps (registered kind key) (Model.register kind' key' payload).
Proof.
  intros Hne c added c' Hrun.
  assert (Model.cm_phase c = Model.Building) as Hc.
  { revert Hrun. unfold Model.register. unfold_build.
    by destruct (Model.cm_phase c). }
  rewrite register_run in Hrun by done.
  destruct (Model.lookupSymbol kind' key' _) as [present|];
    [destruct (decide _); by simplify_eq|].
  injection Hrun as _ <-. unfold registered, Model.lookupSymbol. simpl.
  destruct (list_find (λ s, Model.sym_kind s = kind ∧ Model.sym_key s = key)
              (Model.cm_registry c)) as [[i s]|] eqn:Hfind.
  - by rewrite (list_find_app_l _ _ _ _ _ Hfind).
  - rewrite list_find_app_r by done. simpl. rewrite decide_False; [done|].
    simpl. intros [-> ->]. by apply Hne.
Qed.

Lemma keeps_pair {A T U : Type} (v1 : Model.ContractModel → T)
    (v2 : Model.ContractModel → U) (op : Model.Build A) :
  keeps v1 op → keeps v2 op → keeps (λ c, (v1 c, v2 c)) op.
Proof. intros H1 H2 c x c' Hrun. by rewrite (H1 _ _ _ Hrun), (H2 _ _ _ Hrun). Qed.

Lemma keeps_guarded {T : Type} (view : Model.ContractModel → T) (b : bool)
    (op : Model.Build unit) :
  keeps view op → keeps view (if b then op else mret tt).
Proof. intros Hop. destruct b; [done|apply keeps_ret]. Qed.

End Registered.

Ltac registered_leaf :=
  first
    [ apply keeps_registered_register; first [assumption | discriminate]
    | apply keeps_addParent; done
    | apply keeps_addArgument; done
    | apply keeps_addCode; done
    | apply keeps_addVariable; done
    | apply keeps_setNamespacedStorage; done
    | apply keeps_table_addFunction; done
    | apply keeps_table_setBody; done
    | apply keeps_table_addModifier; done
    | apply keeps_table_addOverride; done ].

Section Placement.
Context `{!CommonFunctions} (accessor : string → string).
Implicit Types c : Model.ContractModel.

(** Access control registers nothing but the constant of the role. *)
Lemma keeps_registered_requireAccessControl kind key fn access roleIdPrefix
    roleOwner :
  (KNamedConstant, roleConstant (roleIdPrefix +:+ "_ROLE")) ≠ (kind, key) →
  keeps (registered kind key)
    (requireAccessControl fn access roleIdPrefix roleOwner).
Proof.
  intros Hne. unfold requireAccessControl, setAccessControl. simpl.
  unfold model_addConstructorArgument, model_addModifier,
    model_addConstantOrImmutableOrErrorDefinition.
  keeps_with registered_leaf.
Qed.

Lemma keeps_storage_structuredFunctions access :
  keeps Model.cm_storage (structuredFunctions accessor access).
Proof.
  unfold structuredFunctions, Structured.addIsAddressVerifiedFunction,
    Structured.addVerifyAddressOwnershipFunction,
    Structured.addRevokeAddressVerificationFunction.
  change (addFunctionCode (B := Model.ContractModel))
    with model_addFunctionCode.
  unfold model_addFunctionCode.
  keeps_with ltac:(first [plain_leaf | by apply keeps_requireAccessControl]).
Qed.

Lemma keeps_registered_structuredFunctions access key :
  keeps (registered KStateVariable key) (structuredFunctions accessor access).
Proof.
  unfold structuredFunctions, Structured.addIsAddressVerifiedFunction,
    Structured.addVerifyAddressOwnershipFunction,
    Structured.addRevokeAddressVerificationFunction.
  change (addFunctionCode (B := Model.ContractModel))
    with model_addFunctionCode.
  unfold model_addFunctionCode.
  keeps_with ltac:(first
    [ registered_leaf
    | apply keeps_registered_requireAccessControl; discriminate ]).
Qed.

(** The record a namespaced declaration lands in. *)
Lemma setNamespacedStorage_field c field label c' :
  Model.setNamespacedStorage [field] label c = inr (tt, c') →
  ∃ e, e ∈ Model.cm_storage c' ∧ Model.layout_label e = label ∧
       field ∈ Model.layout_fields e.
Proof.
  unfold Model.setNamespacedStorage. unfold_build.
  destruct (Model.cm_phase c); [|discriminate].
  destruct (list_find _ _) as [[i e]|] eqn:Hfind; intros [= <-]; simpl.
  - apply list_find_Some in Hfind as (Hi & Hlabel & _).
    exists (Model.addLayoutFields [field] e). split_and!.
    + apply list_elem_of_lookup. exists i.
      by rewrite list_lookup_alter_eq, Hi.
    + done.
    + simpl. case_decide; set_solver.
  - eexists. split; [apply elem_of_app; right; by apply list_elem_of_singleton|].
    split; [done|]. simpl. set_solver.
Qed.

End Placement.

(** X6. Where the structured variant declares the mapping of verified
    addresses. On an upgradeable model it registers no state variable: what
    is registered under each state-variable key is what was there before,
    and the storage layout has a record labelled [openzeppelin.storage]
    with the field [mapping(address account => bool verified)
    _verifiedAddresses]. On a model that is not upgradeable the storage
    layout is as it was and the declaration [mapping(address => bool)
    private _verifiedAddresses;] is registered as a state variable, with
    the flag false. This holds for every access value. *)
Theorem structured_mapping_placement `{!CommonFunctions}
    (accessor : string → string) (access : AccessValue)
    (c c' : Model.ContractModel) :
  Structured.addAddressVerification (storage := ModelStorage accessor)
    access c = inr (tt, c') →
  if Model.cm_upgradeable c then
    (∀ key, registered KStateVariable key c' = registered KStateVariable key c) ∧
    (∃ e, e ∈ Model.cm_storage c' ∧
          Model.layout_label e = "openzeppelin.storage" ∧
          "mapping(address account => bool verified) _verifiedAddresses"
            ∈ Model.layout_fields e)
  else
    Model.cm_storage c' = Model.cm_storage c ∧
    registered KStateVariable
      "mapping(address => bool) private _verifiedAddresses;" c' =
      Some (PStateVariable
              "mapping(address => bool) private _verifiedAddresses;" false).
Proof.
  revert c c'.
  assert (∀ key c c',
    Structured.addAddressVerification (storage := ModelStorage accessor)
      access c = inr (tt, c') →
    if Model.cm_upgradeable c then
      registered KStateVariable key c' = registered KStateVariable key c ∧
      (∃ e, e ∈ Model.cm_storage c' ∧
            Model.layout_label e = "openzeppelin.storage" ∧
            "mapping(address account => bool verified) _verifiedAddresses"
              ∈ Model.layout_fields e)
    else
      Model.cm_storage c' = Model.cm_storage c ∧
      registered KStateVariable
        "mapping(address => bool) private _verifiedAddresses;" c' =
        Some (PStateVariable
                "mapping(address => bool) private _verifiedAddresses;" false))
    as Hkey.
  { intros key.
    pose (view := λ c, (Model.cm_upgradeable c, Model.cm_storage c,
                        registered KStateVariable key c)).
    pose (Q := λ (v : bool * list Model.StorageLayoutEntry * option Payload)
                 (c' : Model.ContractModel),
            if v.1.1 then
              registered KStateVariable key c' = v.2 ∧
              (∃ e, e ∈ Model.cm_storage c' ∧
                    Model.layout_label e = "openzeppelin.storage" ∧
                    "mapping(address account => bool verified) _verifiedAddresses"
                      ∈ Model.layout_fields e)
            else
              Model.cm_storage c' = v.1.2 ∧
              registered KStateVariable
                "mapping(address => bool) private _verifiedAddresses;" c' =
                Some (PStateVariable
                        "mapping(address => bool) private _verifiedAddresses;"
                        false)).
    change (∀ c c',
      Structured.addAddressVerification (storage := ModelStorage accessor)
        access c = inr (tt, c') → Q (view c) c').
    unfold Structured.addAddressVerification.
    do 6 (apply (keeps_then view _ _ Q);
          [apply keeps_pair; [apply keeps_pair|];
           [by apply keeps_register..|
            apply keeps_registered_register; discriminate]
          |intros _]).
    apply (get_then view _ Q). intros c c' Hrun. unfold Q, view. simpl.
    apply bind_returns in Hrun as ([] & c1 & Hdecl & Htail).
    change (structuredFunctions accessor access c1 = inr (tt, c')) in Htail.
    simpl in Hdecl. destruct (Model.cm_upgradeable c).
    - split.
      + rewrite (keeps_registered_structuredFunctions _ _ _ _ _ _ Htail).
        by apply (keeps_setNamespacedStorage (registered KStateVariable key)
                    _ _ (λ _ _, eq_refl) _ _ _ Hdecl).
      + rewrite (keeps_storage_structuredFunctions _ _ _ _ _ Htail).
        by apply setNamespacedStorage_field in Hdecl.
    - apply bind_returns in Hdecl as (added & c0 & Hreg & [= <-]).
      split.
      + rewrite (keeps_storage_structuredFunctions _ _ _ _ _ Htail).
        by apply (keeps_register Model.cm_storage _ _ _ (λ _ _, eq_refl)
                    _ _ _ Hreg).
      + rewrite (keeps_registered_structuredFunctions _ _ _ _ _ _ Htail).
        by apply register_returns in Hreg as (_ & _ & Hsome). }
  intros c c' Hrun.
  destruct (Model.cm_upgradeable c) eqn:Hu.
  - split.
    + intros key. pose proof (Hkey key c c' Hrun) as Hk.
      rewrite Hu in Hk. tauto.
    + pose proof (Hkey "" c c' Hrun) as Hk. rewrite Hu in Hk. tauto.
  - pose proof (Hkey "" c c' Hrun) as Hk. by rewrite Hu in Hk.
Qed.

Section PlacementWitness.
#[local] Existing Instance sampleFunctions.

Lemma structured_mapping_placement_witness :
  ∃ c',
    Structured.addAddressVerification (storage := ModelStorage sampleAccessor)
      (AStr "ownable") (Model.empty "MyToken" true) = inr (tt, c') ∧
    registered KStateVariable
      "mapping(address => bool) private _verifiedAddresses;" c' = None.
Proof.
  assert (∃ c', Structured.addAddressVerification
                  (storage := ModelStorage sampleAccessor)
                  (AStr "ownable") (Model.empty "MyToken" true)
                = inr (tt, c')) as [c' Hrun]
    by (eexists; vm_compute; reflexivity).
  exists c'. split; [done|].
  pose proof (structured_mapping_placement sampleAccessor (AStr "ownable")
                (Model.empty "MyToken" true) c' Hrun) as [Hnone _].
  apply Hnone.
Defined.

End PlacementWitness.

(** ** X7: the freeform variant *)

Section FreeformFrames.
Context `{!CommonFunctions}.
Implicit Types c : Model.ContractModel.

Lemma addVariable_appends c text c' :
  Model.addVariable text c = inr (tt, c') →
  Model.cm_variables c' = Model.cm_variables c ++ [text].
Proof.
  unfold Model.addVariable. unfold_build.
  destruct (Model.cm_phase c); [|discriminate]. by intros [= <-].
Qed.

Lemma freeform_keeps_storage access :
  keeps Model.cm_storage (Freeform.addAddressVerification access).
Proof.
  unfold Freeform.addAddressVerification.
  change (addFunction (B := Model.ContractModel)) with model_addFunction.
  unfold model_addFunction.
  keeps_with ltac:(first [plain_leaf | by apply keeps_requireAccessControl]).
Qed.

Lemma freeform_keeps_registered access kind key :
  (KImport, "ECDSA") ≠ (kind, key) →
  (KImport, "MessageHashUtils") ≠ (kind, key) →
  (KNamedConstant, roleConstant ("DEFAULT_ADMIN_ROLE" +:+ "_ROLE")) ≠ (kind, key) →
  keeps (registered kind key) (Freeform.addAddressVerification access).
Proof.
  intros Hecdsa Hutils Hrole.
  unfold Freeform.addAddressVerification.
  change (addFunction (B := Model.ContractModel)) with model_addFunction.
  unfold model_addFunction.
  keeps_with ltac:(first
    [ registered_leaf
    | by apply keeps_registered_requireAccessControl ]).
Qed.

Lemma freeform_functions_keep_variables access :
  keeps Model.cm_variables
    (addFunction Freeform.functions.isAddressVerified ;;
     addFunction Freeform.functions.verifyAddressOwnership ;;
     if accessTruthy access then
       requireAccessControl Freeform.functions.revokeAddressVerification
         access "DEFAULT_ADMIN_ROLE" None
     else mret tt).
Proof.
  change (addFunction (B := Model.ContractModel)) with model_addFunction.
  unfold model_addFunction.
  keeps_with ltac:(first [plain_leaf | by apply keeps_requireAccessControl]).
Qed.

Lemma freeform_variables access c c' :
  Freeform.addAddressVerification access c = inr (tt, c') →
  Model.cm_variables c' = Model.cm_variables c ++ freeformBlocks.
Proof.
  unfold Freeform.addAddressVerification.
  intros (b1 & c1 & H1 & (b2 & c2 & H2 & Hrun)%bind_returns)%bind_returns.
  apply (keeps_register Model.cm_variables _ _ _ (λ _ _, eq_refl)) in H1.
  apply (keeps_register Model.cm_variables _ _ _ (λ _ _, eq_refl)) in H2.
  apply bind_returns in Hrun as ([] & c3 & H3%addVariable_appends & Hrun).
  apply bind_returns in Hrun as ([] & c4 & H4%addVariable_appends & Hrun).
  apply bind_returns in Hrun as ([] & c5 & H5%addVariable_appends & Hrun).
  apply bind_returns in Hrun as ([] & c6 & H6%addVariable_appends & Hrun).
  apply bind_returns in Hrun as ([] & c7 & H7%addVariable_appends & Hrun).
  rewrite (freeform_functions_keep_variables access _ _ _ Hrun).
  rewrite H7, H6, H5, H4, H3, H2, H1. unfold freeformBlocks.
  by rewrite <- !(assoc_L (++)).
Qed.

End FreeformFrames.

(** X7. The freeform variant of [addAddressVerification], for every access
    value and on upgradeable and other models alike: when it returns, the
    freeform variables of the model are the former ones followed by its
    five blocks of text, in call order (the mapping, the two events, the
    two errors); the storage layout is as it was, so the mapping is not
    routed to namespaced storage; and the Symbol Registry holds what it
    held under every key but those of the two imports and of the role
    constant: neither the mapping nor an event nor an error is
    registered. *)
Theorem freeform_declarations_are_text `{!CommonFunctions}
    (access : AccessValue) (c c' : Model.ContractModel) :
  Freeform.addAddressVerification access c = inr (tt, c') →
  Model.cm_variables c' = Model.cm_variables c ++ freeformBlocks ∧
  Model.cm_storage c' = Model.cm_storage c ∧
  (∀ kind key,
     (kind, key) ∉ [(KImport, "ECDSA"); (KImport, "MessageHashUtils");
                    (KNamedConstant,
                     roleConstant ("DEFAULT_ADMIN_ROLE" +:+ "_ROLE"))] →
     registered kind key c' = registered kind key c).
Proof.
  intros Hrun. split_and!.
  - by eapply freeform_variables.
  - by eapply freeform_keeps_storage.
  - intros kind key Hnot.
    apply not_elem_of_cons in Hnot as [H1 Hnot].
    apply not_elem_of_cons in Hnot as [H2 Hnot].
    apply not_elem_of_cons in Hnot as [H3 _].
    by eapply (freeform_keeps_registered access kind key).
Qed.

Section FreeformWitness.
#[local] Existing Instance sampleFunctions.

Lemma freeform_declarations_are_text_witness :
  ∃ c',
    Freeform.addAddressVerification (AStr "roles") (Model.empty "MyToken" true)
      = inr (tt, c') ∧
    Model.cm_variables c' = freeformBlocks ∧
    Model.cm_storage c' = [] ∧
    registered KNamedConstant "event AddressVerified(address indexed account);"
      c' = None.
Proof.
  assert (∃ c', Freeform.addAddressVerification (AStr "roles")
                  (Model.empty "MyToken" true) = inr (tt, c')) as [c' Hrun]
    by (eexists; vm_compute; reflexivity).
  exists c'. split; [done|].
  destruct (freeform_declarations_are_text (AStr "roles")
              (Model.empty "MyToken" true) c' Hrun) as (Hvars & Hstore & Hreg).
  split_and!; [done..|].
  rewrite Hreg; [reflexivity|].
  intros Hin. vm_compute in Hin.
  repeat (apply elem_of_cons in Hin as [Hin|Hin]; [discriminate Hin|]).
  by apply elem_of_nil in Hin.
Defined.

End FreeformWitness.

(** ** X8: the errors of access control *)

Section Throws.
Context (Err : BuildError → Prop).
Implicit Types c : Model.ContractModel.

Lemma throws_bind {A B : Type} (op : Model.Build A) (f : A → Model.Build B) :
  throwsOnly Err op → (∀ a, throwsOnly Err (f a)) → throwsOnly Err (op ≫= f).
Proof.
  intros Hop Hf c e. rewrite bind_run.
  destruct (op c) as [e1|[a c1]] eqn:Hrun.
  - intros [= <-]. by eapply Hop.
  - apply Hf.
Qed.

Lemma throws_ret {A : Type} (x : A) : throwsOnly Err (mret x).
Proof. by intros c e. Qed.

Lemma throws_get : throwsOnly Err get.
Proof. by intros c e. Qed.

Context (Hfrozen : Err ModelFrozenError).

Lemma throws_register kind key payload :
  (∀ present, present ≠ payload → Err (SymbolConflict key present payload)) →
  throwsOnly Err (Model.register kind key payload).
Proof.
  intros Hconflict c e. unfold Model.register. unfold_build.
  destruct (Model.cm_phase c); [|by intros [= <-]].
  destruct (Model.lookupSymbol _ _ _) as [present|]; [|done].
  destruct (decide _); [done|]. intros [= <-]. by apply Hconflict.
Qed.

Lemma throws_addParent contract params :
  throwsOnly Err (Model.addParent contract params).
Proof.
  intros c e. unfold Model.addParent. unfold_build.
  destruct (Model.cm_phase c); [|by intros [= <-]].
  by destruct (Model.hasParent _ _).
Qed.

Lemma throws_addArgument arg owner :
  (∀ first, first ≠ owner →
     Err (ArgumentNameCollision (arg_name arg) first owner)) →
  throwsOnly Err (Model.addArgument arg owner).
Proof.
  intros Hcollision c e. unfold Model.addArgument. unfold_build.
  destruct (Model.cm_phase c); [|by intros [= <-]].
  destruct (list_find _ _) as [[i present]|]; [|done].
  destruct (decide _); [done|]. intros [= <-]. by apply Hcollision.
Qed.

Lemma throws_addCode stmt : throwsOnly Err (Model.addCode stmt).
Proof.
  intros c e. unfold Model.addCode. unfold_build.
  by destruct (Model.cm_phase c); [|intros [= <-]].
Qed.

Lemma throws_addVariable text : throwsOnly Err (Model.addVariable text).
Proof.
  intros c e. unfold Model.addVariable. unfold_build.
  by destruct (Model.cm_phase c); [|intros [= <-]].
Qed.

Lemma throws_addFunction def : throwsOnly Err (Model.addFunction def).
Proof.
  intros c e. unfold Model.addFunction. unfold_build.
  destruct (Model.cm_phase c); [|by intros [= <-]].
  by destruct (list_find _ _) as [[i x]|].
Qed.

Lemma throws_addModifier entry modifierText :
  throwsOnly Err (Model.addModifier entry modifierText).
Proof.
  intros c e. unfold Model.addModifier. unfold_build.
  by destruct (Model.cm_phase c); [|intros [= <-]].
Qed.

Lemma throws_addOverride parentRef def :
  throwsOnly Err (Model.addOverride parentRef def).
Proof.
  unfold Model.addOverride. apply throws_bind; [apply throws_addFunction|].
  by intros entry c e.
Qed.

End Throws.

(** Solves [throwsOnly Err op] step by step, with [leaf] for the operations
    that fail with more than ModelFrozenError. *)
Ltac throws_with frozen leaf :=
  repeat match goal with
  | |- throwsOnly _ (_ ≫= _) => apply throws_bind; [|intros ?]
  | |- throwsOnly _ (if ?b then _ else _) => destruct b
  | |- throwsOnly _ (match ?o with Some _ => _ | None => _ end) => destruct o
  | |- throwsOnly _ (mret _) => apply throws_ret
  | |- throwsOnly _ get => apply throws_get
  | |- throwsOnly _ (Model.addParent _ _) => apply throws_addParent, frozen
  | |- throwsOnly _ (Model.addCode _) => apply throws_addCode, frozen
  | |- throwsOnly _ (Model.addVariable _) => apply throws_addVariable, frozen
  | |- throwsOnly _ (Model.addFunction _) => apply throws_addFunction, frozen
  | |- throwsOnly _ (Model.addModifier _ _) => apply throws_addModifier, frozen
  | |- throwsOnly _ (Model.addOverride _ _) => apply throws_addOverride, frozen
  | |- throwsOnly _ _ => progress leaf
  end.

Section AccessControlErrors.
Context `{!CommonFunctions}.

Lemma accessControlError_frozen roleIdPrefix roleOwner :
  accessControlError roleIdPrefix roleOwner ModelFrozenError.
Proof. by left. Qed.

Lemma accessControlError_mode roleIdPrefix roleOwner argName second :
  argName ∈ ["initialOwner"; "defaultAdmin"; "initialAuthority"] →
  ∀ first, first ≠ second →
    accessControlError roleIdPrefix roleOwner
      (ArgumentNameCollision argName first second).
Proof.
  intros Hin first Hne. right; left. exists argName, first, second. auto.
Qed.

Lemma accessControlError_owner roleIdPrefix owner second first :
  first ≠ second →
  accessControlError roleIdPrefix (Some owner)
    (ArgumentNameCollision owner first second).
Proof. intros Hne. right; left. exists owner, first, second. auto. Qed.

Lemma accessControlError_role roleIdPrefix roleOwner present :
  present ≠ PNamedConstant (roleConstant (roleIdPrefix +:+ "_ROLE")) [] →
  accessControlError roleIdPrefix roleOwner
    (SymbolConflict (roleConstant (roleIdPrefix +:+ "_ROLE")) present
       (PNamedConstant (roleConstant (roleIdPrefix +:+ "_ROLE")) [])).
Proof. intros Hne. right; right. by exists present. Qed.

Lemma throws_requireAccessControl fn access roleIdPrefix roleOwner :
  throwsOnly (accessControlError roleIdPrefix roleOwner)
    (requireAccessControl fn access roleIdPrefix roleOwner).
Proof.
  pose proof (accessControlError_frozen roleIdPrefix roleOwner) as Hfrozen.
  unfold requireAccessControl, setAccessControl. simpl.
  unfold model_addConstructorArgument, model_addModifier,
    model_addConstantOrImmutableOrErrorDefinition.
  throws_with Hfrozen ltac:(first
    [ apply throws_register; [done|apply accessControlError_role]
    | apply throws_addArgument;
        [done|
         first [ apply accessControlError_owner
               | apply accessControlError_mode; simpl; set_solver ] ] ]).
Qed.

End AccessControlErrors.

(** X8. For every access value, function, prefix and role owner, an error
    of [requireAccessControl] is one of three: ModelFrozenError; an
    ArgumentNameCollision on [initialOwner], [defaultAdmin],
    [initialAuthority] or the role owner, between two different owners; or
    a SymbolConflict on the constant of the role. It never fails with
    DuplicateBodyError or UnknownEnumValue: it sets no body and rejects no
    access value. *)
Theorem access_control_errors `{!CommonFunctions} (fn : BaseFunction)
    (access : AccessValue) (roleIdPrefix : string) (roleOwner : option string)
    (c : Model.ContractModel) (e : BuildError) :
  requireAccessControl fn access roleIdPrefix roleOwner c = inl e →
  accessControlError roleIdPrefix roleOwner e ∧
  (∀ name, e ≠ DuplicateBodyError name) ∧
  (∀ value, e ≠ UnknownEnumValue value).
Proof.
  intros Hrun%throws_requireAccessControl. split; [done|].
  destruct Hrun as [->|[(a & first & second & -> & _)|(present & -> & _)]];
    by split.
Qed.

Section AccessControlErrorsWitness.
#[local] Existing Instance sampleFunctions.

Lemma access_control_errors_witness :
  ∃ c,
    (addParent {| contract_name := "Vault"; contract_path := "./Vault.sol" |}
       [Lit "initialOwner"] ;;
     addConstructorArgument
       {| arg_type := "address"; arg_name := "initialOwner" |})
      (Model.empty "MyToken" false) = inr (tt, c) ∧
    requireAccessControl Freeform.functions.revokeAddressVerification
      (AStr "ownable") "MINTER" None c =
      inl (ArgumentNameCollision "initialOwner" (OwnerParent "Vault")
             (OwnerParent "Ownable")) ∧
    accessControlError "MINTER" None
      (ArgumentNameCollision "initialOwner" (OwnerParent "Vault")
         (OwnerParent "Ownable")).
Proof.
  assert (∃ c,
    (addParent {| contract_name := "Vault"; contract_path := "./Vault.sol" |}
       [Lit "initialOwner"] ;;
     addConstructorArgument
       {| arg_type := "address"; arg_name := "initialOwner" |})
      (Model.empty "MyToken" false) = inr (tt, c) ∧
    requireAccessControl Freeform.functions.revokeAddressVerification
      (AStr "ownable") "MINTER" None c =
      inl (ArgumentNameCollision "initialOwner" (OwnerParent "Vault")
             (OwnerParent "Ownable"))) as (c & Hbuilt & Hrun).
  { eexists. split; vm_compute; reflexivity. }
  exists c. split; [done|]. split; [done|].
  by destruct (access_control_errors _ _ _ _ _ _ Hrun) as [Herror _].
Defined.

End AccessControlErrorsWitness.

(** ** X9, X10: when the features return *)

Section Succeeds.
Context (expect : SymbolKind → string → option Payload).
Implicit Types c : Model.ContractModel.












End Succeeds.

Section SetAccessControlSucceeds.
Context `{!CommonFunctions} (expect : SymbolKind → string → option Payload).
Implicit Types c : Model.ContractModel.






End SetAccessControlSucceeds.


Section AccessControlSucceeds.
Context `{!CommonFunctions}.


End AccessControlSucceeds.


Section AccessControlReturnsWitness.
#[local] Existing Instance sampleFunctions.


End AccessControlReturnsWitness.

Section FreeformSucceeds.
Context `{!CommonFunctions}.


End FreeformSucceeds.


Section FreeformReturnsWitness.
#[local] Existing Instance sampleFunctions.


End FreeformReturnsWitness.

(** ** X11: two access modes on one contract *)

Section Accumulate.
Context `{!CommonFunctions}.
Implicit Types c : Model.ContractModel.

(** What [setAccessControl] writes when the parent of the mode is new. *)
Lemma setAccessControl_new c m c1 :
  Model.hasParent (contract_name (parentOf m)) c = false →
  setAccessControl (accessOf m) c = inr (tt, c1) →
  Model.cm_parents c1 =
    Model.cm_parents c ++
      [{| Model.parent_contract := parentOf m;
          Model.parent_params := paramsOf m |}] ∧
  Model.cm_constructorCode c1 =
    Model.cm_constructorCode c ++ zeroCheckOf m :: afterZeroCheck m.
Proof.
  intros Hp Hrun.
  apply setAccessControl_returns in Hrun
    as (_ & cb & Hafter & _ & _ & [[Hp' _]|(_ & ca & Harg & ->)]);
    [congruence|].
  destruct (afterBlock_frame _ _ _ Hafter) as [F ->]. simpl.
  by destruct (addConstructorArgument_returns _ _ _ Harg)
    as (_ & [->| ->] & _).
Qed.

Lemma parent_names_distinct m1 m2 :
  m1 ≠ m2 → contract_name (parentOf m2) ≠ contract_name (parentOf m1).
Proof. by destruct m1, m2. Qed.

End Accumulate.

(** X11. [setAccessControl] does not look for the parent of another mode:
    called for two different modes on a model that has neither parent, it
    adds both. When both calls return, the inheritance clause is the
    former one followed by the parent of the first mode, then the parent
    of the second, and the constructor body is the former one followed by
    the statements of the first mode, then those of the second. *)
Theorem access_modes_accumulate `{!CommonFunctions} (m1 m2 : AccessMode)
    (c c1 c2 : Model.ContractModel) :
  m1 ≠ m2 →
  Model.hasParent (contract_name (parentOf m1)) c = false →
  Model.hasParent (contract_name (parentOf m2)) c = false →
  setAccessControl (accessOf m1) c = inr (tt, c1) →
  setAccessControl (accessOf m2) c1 = inr (tt, c2) →
  Model.emitInheritance c2 =
    Model.emitInheritance c ++
      [contract_name (parentOf m1); contract_name (parentOf m2)] ∧
  Model.emitConstructorBody c2 =
    Model.emitConstructorBody c ++
      (zeroCheckOf m1 :: afterZeroCheck m1) ++
      (zeroCheckOf m2 :: afterZeroCheck m2).
Proof.
  intros Hne Hp1 Hp2 Hrun1 Hrun2.
  destruct (setAccessControl_new _ _ _ Hp1 Hrun1) as [Hparents1 Hcode1].
  assert (Model.hasParent (contract_name (parentOf m2)) c1 = false) as Hp2'.
  { unfold Model.hasParent in *. rewrite Hparents1, fmap_app.
    apply bool_decide_eq_false in Hp2. apply bool_decide_eq_false.
    intros [Hin|Hin%list_elem_of_singleton]%elem_of_app; [done|].
    by apply (parent_names_distinct m1 m2). }
  destruct (setAccessControl_new _ _ _ Hp2' Hrun2) as [Hparents2 Hcode2].
  unfold Model.emitInheritance, Model.emitConstructorBody.
  rewrite Hparents2, Hparents1, Hcode2, Hcode1, !fmap_app.
  by rewrite <- !(assoc_L (++)).
Qed.

Section AccumulateWitness.
#[local] Existing Instance sampleFunctions.

Lemma access_modes_accumulate_witness :
  ∃ c1 c2,
    setAccessControl (AStr "ownable") (Model.empty "MyToken" false)
      = inr (tt, c1) ∧
    setAccessControl (AStr "roles") c1 = inr (tt, c2) ∧
    Model.emitInheritance c2 = ["Ownable"; "AccessControl"] ∧
    Model.emitConstructorBody c2 = [requireOwner; requireAdmin; grantAdmin].
Proof.
  assert (∃ c1 c2,
            setAccessControl (AStr "ownable") (Model.empty "MyToken" false)
              = inr (tt, c1) ∧
            setAccessControl (AStr "roles") c1 = inr (tt, c2))
    as (c1 & c2 & Hrun1 & Hrun2).
  { do 2 eexists. split; [vm_compute; reflexivity|]. vm_compute. reflexivity. }
  exists c1, c2. split; [done|]. split; [done|].
  apply (access_modes_accumulate ModeOwnable ModeRoles
           (Model.empty "MyToken" false) c1 c2);
    [discriminate|reflexivity|reflexivity|done|done].
Defined.

End AccumulateWitness.

(** ** X12: the bodies of the functions *)

Section Bodies.
Implicit Types c : Model.ContractModel.
Implicit Types fn g : BaseFunction.

Lemma preserves_of_keeps {A T : Type} (view : Model.ContractModel → T)
    (v : T) (op : Model.Build A) :
  keeps view op → preserves (λ c, view c = v) op.
Proof. intros Hop c x c' Hv Hrun. by rewrite (Hop _ _ _ Hrun). Qed.

Lemma preserves_bind {A B : Type} (P : Model.ContractModel → Prop)
    (op : Model.Build A) (f : A → Model.Build B) :
  preserves P op → (∀ a, preserves P (f a)) → preserves P (op ≫= f).
Proof.
  intros Hop Hf c x c' HP (a & c1 & Hrun & Htail)%bind_returns.
  eapply Hf; [|done]. by eapply Hop.
Qed.

Lemma preserves_ret {A : Type} (P : Model.ContractModel → Prop) (x : A) :
  preserves P (mret x).
Proof. by intros c y c' HP [= _ <-]. Qed.

Lemma preserves_get (P : Model.ContractModel → Prop) : preserves P get.
Proof. by intros c y c' HP [= _ <-]. Qed.

Lemma keeps_bodyOf_of_entryOf {A : Type} fn (op : Model.Build A) :
  keeps (entryOf fn) op → keeps (bodyOf fn) op.
Proof. intros Hop c x c' Hrun. unfold bodyOf. by rewrite (Hop _ _ _ Hrun). Qed.

(** An update in place that leaves definitions and bodies alone leaves the
    body of every function as it was. *)
Lemma bodyOf_alter c fn (f : Model.FunctionEntry → Model.FunctionEntry) i :
  (∀ e, Model.entry_def (f e) = Model.entry_def e) →
  (∀ e, Model.entry_body (f e) = Model.entry_body e) →
  bodyOf fn (Model.with_functions (alter f i) c) = bodyOf fn c.
Proof.
  intros Hdef Hbody. unfold bodyOf, entryOf. simpl.
  destruct (list_find _ (Model.cm_functions c)) as [[j x]|] eqn:Hfind.
  - destruct (decide (i = j)) as [->|Hne].
    + rewrite (list_find_alter_hit _ f _ _ _ Hfind); [simpl; by rewrite Hbody|].
      rewrite Hdef. by apply list_find_Some in Hfind as (_ & HP & _).
    + rewrite (list_find_alter_miss _ f _ i j x); [done| |done..].
      intros y. by rewrite Hdef.
  - rewrite list_find_alter_None; [done| |done]. intros y. by rewrite Hdef.
Qed.

Lemma entry_body_modified modifierText e :
  Model.entry_body (Model.addEntryModifier modifierText e) = Model.entry_body e.
Proof. unfold Model.addEntryModifier. by case_decide. Qed.

(** A function that has a body keeps it when a function is requested. *)
Lemma preserves_body_addFunction fn body g :
  preserves (λ c, bodyOf fn c = Some body) (Model.addFunction g).
Proof.
  intros c entry c' Hbody (_ & _ & [->| ->])%addFunction_returns; [done|].
  revert Hbody. unfold bodyOf, entryOf. simpl.
  destruct (list_find _ (Model.cm_functions c)) as [[j x]|] eqn:Hfind;
    [|discriminate].
  by rewrite (list_find_app_l _ _ _ _ _ Hfind).
Qed.

Lemma preserves_body_addModifier fn body entry modifierText :
  preserves (λ c, bodyOf fn c = Some body)
    (Model.addModifier entry modifierText).
Proof.
  intros c [] c' Hbody. unfold Model.addModifier. unfold_build.
  destruct (Model.cm_phase c); [|discriminate]. intros [= <-].
  rewrite bodyOf_alter; [done|..]; intros e;
    [apply entry_def_modified|apply entry_body_modified].
Qed.

Lemma preserves_body_addOverride fn body parentRef def :
  preserves (λ c, bodyOf fn c = Some body) (Model.addOverride parentRef def).
Proof.
  intros c [] c' Hbody (entry & cf & Hadd & ->)%addOverride_returns.
  rewrite bodyOf_alter by done.
  by apply (preserves_body_addFunction fn body def c entry cf).
Qed.

(** The body of a function once [addFunctionCode] has returned. *)
Lemma addFunctionCode_body c code fn c' :
  model_addFunctionCode code fn c = inr (tt, c') →
  bodyOf fn c' = Some [code].
Proof.
  intros (entry & cf & Hadd & Hbody)%bind_returns.
  pose proof (addFunction_returns _ _ _ _ Hadd) as (Hc & [e He] & Hcf).
  assert (Model.cm_phase cf = Model.Building) as Hcfb
    by (by destruct Hcf as [->| ->]).
  pose proof He as (Hentry & Hfn & _)%list_find_Some.
  rewrite setBody_run in Hbody by done. rewrite Hentry in Hbody.
  destruct (decide _); [|discriminate]. injection Hbody as <-.
  unfold bodyOf, entryOf. simpl.
  by rewrite (list_find_alter_hit _ _ _ _ _ He).
Qed.

End Bodies.

Ltac body_leaf :=
  first
    [ apply preserves_body_addFunction
    | apply preserves_body_addModifier
    | apply preserves_body_addOverride
    | apply preserves_of_keeps;
      first
        [ apply keeps_register; done
        | apply keeps_addParent; done
        | apply keeps_addArgument; done
        | apply keeps_addCode; done
        | apply keeps_addVariable; done
        | apply keeps_bodyOf_of_entryOf, keeps_entryOf_addFunctionCode;
          distinct_signatures ] ].

Ltac preserves_with leaf :=
  repeat match goal with
  | |- preserves _ (_ ≫= _) => apply preserves_bind; [|intros ?]
  | |- preserves _ (if ?b then _ else _) => destruct b
  | |- preserves _ (match ?o with Some _ => _ | None => _ end) => destruct o
  | |- preserves _ (mret _) => apply preserves_ret
  | |- preserves _ get => apply preserves_get
  | |- preserves _ _ => progress leaf
  end.

Section FeatureBodies.
Context `{!CommonFunctions} (accessor : string → string).
Implicit Types c : Model.ContractModel.

(** Access control sets and clears no body. *)
Lemma preserves_body_requireAccessControl fn body g access roleIdPrefix
    roleOwner :
  preserves (λ c, bodyOf fn c = Some body)
    (requireAccessControl g access roleIdPrefix roleOwner).
Proof.
  unfold requireAccessControl, setAccessControl. simpl.
  unfold model_addConstructorArgument, model_addModifier,
    model_addConstantOrImmutableOrErrorDefinition.
  preserves_with body_leaf.
Qed.

Lemma keeps_upgradeable_requireAccessControl g access roleIdPrefix roleOwner :
  keeps Model.cm_upgradeable
    (requireAccessControl g access roleIdPrefix roleOwner).
Proof. by apply keeps_requireAccessControl. Qed.

Lemma isAddressVerified_body c c' :
  Model.cm_upgradeable c = false →
  Structured.addIsAddressVerifiedFunction (storage := ModelStorage accessor) c
    = inr (tt, c') →
  bodyOf Structured.functions.isAddressVerified c' =
    Some [Js.join Js.nl
            (Js.nonEmptyLines (fn_code Freeform.functions.isAddressVerified))].
Proof.
  intros Hu (c0 & c0' & [= <- <-] & Hrun)%bind_returns.
  assert (upgradeable c = false) as Hu' by exact Hu.
  cbv zeta in Hrun. rewrite Hu' in Hrun.
  apply addFunctionCode_body in Hrun. exact Hrun.
Qed.

Lemma verifyAddressOwnership_body c c' :
  Model.cm_upgradeable c = false →
  Structured.addVerifyAddressOwnershipFunction
    (storage := ModelStorage accessor) c = inr (tt, c') →
  bodyOf Structured.functions.verifyAddressOwnership c' =
    Some [Js.join Js.nl
            (Js.nonEmptyLines
               (fn_code Freeform.functions.verifyAddressOwnership))].
Proof.
  intros Hu (c0 & c0' & [= <- <-] & Hrun)%bind_returns.
  assert (upgradeable c = false) as Hu' by exact Hu.
  cbv zeta in Hrun. rewrite Hu' in Hrun.
  apply addFunctionCode_body in Hrun. exact Hrun.
Qed.

Lemma revokeAddressVerification_body access c c' :
  Model.cm_upgradeable c = false →
  Structured.addRevokeAddressVerificationFunction
    (storage := ModelStorage accessor) access c = inr (tt, c') →
  bodyOf Structured.functions.revokeAddressVerification c' =
    Some [Js.join Js.nl
            (Js.nonEmptyLines
               (fn_code Freeform.functions.revokeAddressVerification))].
Proof.
  intros Hu ([] & c1 & Hguard & Hrun)%bind_returns.
  apply keeps_upgradeable_requireAccessControl in Hguard.
  apply bind_returns in Hrun as (c0 & c0' & [= <- <-] & Hrun).
  assert (upgradeable c1 = false) as Hu' by (by rewrite <- Hu, <- Hguard).
  cbv zeta in Hrun. rewrite Hu' in Hrun.
  apply addFunctionCode_body in Hrun. exact Hrun.
Qed.

Lemma keeps_upgradeable_addFunctionCode code g :
  keeps Model.cm_upgradeable (model_addFunctionCode code g).
Proof. unfold model_addFunctionCode. keeps_with plain_leaf. Qed.

Lemma preserves_body_verifyAddressOwnership body :
  preserves
    (λ c, bodyOf Structured.functions.isAddressVerified c = Some body)
    (Structured.addVerifyAddressOwnershipFunction
       (storage := ModelStorage accessor)).
Proof.
  unfold Structured.addVerifyAddressOwnershipFunction.
  change (addFunctionCode (B := Model.ContractModel))
    with model_addFunctionCode.
  preserves_with body_leaf.
Qed.

Lemma preserves_body_revokeAddressVerification fn body access :
  Model.signature Structured.functions.revokeAddressVerification
    ≠ Model.signature fn →
  preserves (λ c, bodyOf fn c = Some body)
    (Structured.addRevokeAddressVerificationFunction
       (storage := ModelStorage accessor) access).
Proof.
  intros Hsig. unfold Structured.addRevokeAddressVerificationFunction.
  change (addFunctionCode (B := Model.ContractModel))
    with model_addFunctionCode.
  preserves_with ltac:(first
    [ apply preserves_body_requireAccessControl
    | apply preserves_of_keeps, keeps_bodyOf_of_entryOf,
        keeps_entryOf_addFunctionCode; exact Hsig ]).
Qed.

(** The bodies the three functions of the structured variant leave on a
    model that is not upgradeable. *)
Lemma structuredFunctions_bodies access c c' :
  Model.cm_upgradeable c = false →
  structuredFunctions accessor access c = inr (tt, c') →
  bodyOf Structured.functions.isAddressVerified c' =
    Some [Js.join Js.nl
            (Js.nonEmptyLines (fn_code Freeform.functions.isAddressVerified))] ∧
  bodyOf Structured.functions.verifyAddressOwnership c' =
    Some [Js.join Js.nl
            (Js.nonEmptyLines
               (fn_code Freeform.functions.verifyAddressOwnership))] ∧
  (accessTruthy access = true →
   bodyOf Structured.functions.revokeAddressVerification c' =
     Some [Js.join Js.nl
             (Js.nonEmptyLines
                (fn_code Freeform.functions.revokeAddressVerification))]).
Proof.
  intros Hu ([] & c1 & His & ([] & c2 & Hverify & Hrevoke)%bind_returns)%bind_returns.
  pose proof (isAddressVerified_body _ _ Hu His) as Hbody1.
  assert (Model.cm_upgradeable c1 = false) as Hu1.
  { rewrite <- Hu. revert His. unfold Structured.addIsAddressVerifiedFunction.
    intros (c0 & c0' & [= <- <-] & Hrun)%bind_returns.
    by eapply keeps_upgradeable_addFunctionCode. }
  pose proof (verifyAddressOwnership_body _ _ Hu1 Hverify) as Hbody2.
  assert (Model.cm_upgradeable c2 = false) as Hu2.
  { rewrite <- Hu1. revert Hverify.
    unfold Structured.addVerifyAddressOwnershipFunction.
    intros (c0 & c0' & [= <- <-] & Hrun)%bind_returns.
    by eapply keeps_upgradeable_addFunctionCode. }
  apply (preserves_body_verifyAddressOwnership _ _ _ _ Hbody1) in Hverify
    as Hbody1'.
  destruct (accessTruthy access).
  - split_and!.
    + eapply preserves_body_revokeAddressVerification; [|done..].
      distinct_signatures.
    + eapply preserves_body_revokeAddressVerification; [|done..].
      distinct_signatures.
    + intros _. by eapply revokeAddressVerification_body.
  - injection Hrevoke as <-. by split_and!.
Qed.

End FeatureBodies.

(** X12. On a model that is not upgradeable, when the structured variant
    of [addAddressVerification] returns, each of its functions has one body
    text: the lines of code the freeform variant gives the same function,
    without the empty ones, joined by line feeds. So the two variants
    write the same statements into [isAddressVerified],
    [verifyAddressOwnership] and, when access is set,
    [revokeAddressVerification]; they differ in the blank lines only. *)
Theorem structured_bodies_are_freeform_code `{!CommonFunctions}
    (accessor : string → string) (access : AccessValue)
    (c c' : Model.ContractModel) :
  Model.cm_upgradeable c = false →
  Structured.addAddressVerification (storage := ModelStorage accessor)
    access c = inr (tt, c') →
  bodyOf Structured.functions.isAddressVerified c' =
    Some [Js.join Js.nl
            (Js.nonEmptyLines (fn_code Freeform.functions.isAddressVerified))] ∧
  bodyOf Structured.functions.verifyAddressOwnership c' =
    Some [Js.join Js.nl
            (Js.nonEmptyLines
               (fn_code Freeform.functions.verifyAddressOwnership))] ∧
  (accessTruthy access = true →
   bodyOf Structured.functions.revokeAddressVerification c' =
     Some [Js.join Js.nl
             (Js.nonEmptyLines
                (fn_code Freeform.functions.revokeAddressVerification))]).
Proof.
  revert c c'.
  pose (Q := λ (u : bool) (c' : Model.ContractModel),
    u = false →
    bodyOf Structured.functions.isAddressVerified c' =
      Some [Js.join Js.nl
              (Js.nonEmptyLines (fn_code Freeform.functions.isAddressVerified))] ∧
    bodyOf Structured.functions.verifyAddressOwnership c' =
      Some [Js.join Js.nl
              (Js.nonEmptyLines
                 (fn_code Freeform.functions.verifyAddressOwnership))] ∧
    (accessTruthy access = true →
     bodyOf Structured.functions.revokeAddressVerification c' =
       Some [Js.join Js.nl
               (Js.nonEmptyLines
                  (fn_code Freeform.functions.revokeAddressVerification))])).
  assert (∀ c c',
    Structured.addAddressVerification (storage := ModelStorage accessor)
      access c = inr (tt, c') → Q (Model.cm_upgradeable c) c') as Hall;
    [|intros c c' Hu Hrun; by apply (Hall c c' Hrun)].
  unfold Structured.addAddressVerification.
  do 6 (apply (keeps_then Model.cm_upgradeable _ _ Q);
        [by apply keeps_register|intros _]).
  apply (get_then Model.cm_upgradeable _ Q). intros c c' Hrun Hu.
  apply bind_returns in Hrun as ([] & c1 & Hdecl & Htail).
  change (structuredFunctions accessor access c1 = inr (tt, c')) in Htail.
  assert (upgradeable c = false) as Hu' by exact Hu.
  rewrite Hu' in Hdecl.
  apply bind_returns in Hdecl as (added & c0 & Hreg & [= <-]).
  apply (keeps_register Model.cm_upgradeable _ _ _ (λ _ _, eq_refl)) in Hreg.
  eapply structuredFunctions_bodies; [|done]. by rewrite Hreg.
Qed.

Section BodiesWitness.
#[local] Existing Instance sampleFunctions.

Lemma structured_bodies_are_freeform_code_witness :
  ∃ c',
    Structured.addAddressVerification (storage := ModelStorage sampleAccessor)
      (AStr "ownable") (Model.empty "MyToken" false) = inr (tt, c') ∧
    bodyOf Structured.functions.revokeAddressVerification c' =
      Some [Js.join Js.nl
              ["// Revoke verification"; "_verifiedAddresses[account] = false;";
               "// Emit revocation event"; "emit VerificationRevoked(account);"]].
Proof.
  assert (∃ c', Structured.addAddressVerification
                  (storage := ModelStorage sampleAccessor)
                  (AStr "ownable") (Model.empty "MyToken" false)
                = inr (tt, c')) as [c' Hrun]
    by (eexists; vm_compute; reflexivity).
  exists c'. split; [done|].
  destruct (structured_bodies_are_freeform_code sampleAccessor (AStr "ownable")
              (Model.empty "MyToken" false) c' eq_refl Hrun)
    as (_ & _ & Hrevoke).
  by apply Hrevoke.
Defined.

End BodiesWitness.

(** ** X13: an access value outside the options *)

Section UnknownAccess.
Context `{!CommonFunctions} (accessor : string → string).
Implicit Types c : Model.ContractModel.

(** Neither switch has a branch for a value outside the options. *)
Lemma requireAccessControl_outside {B : Type} `{!ContractBuilder B}
    fn access roleIdPrefix roleOwner :
  access ∉ accessOptions →
  requireAccessControl (B := B) fn access roleIdPrefix roleOwner = mret tt.
Proof.
  intros (H0 & H1 & H2 & H3)%not_elem_of_accessOptions.
  unfold requireAccessControl, setAccessControl.
  by rewrite !(bool_decide_eq_false_2 _ H0), !(bool_decide_eq_false_2 _ H1),
    !(bool_decide_eq_false_2 _ H2), !(bool_decide_eq_false_2 _ H3).
Qed.

Lemma keeps_modifiersOf_addFunctionCode fn code g :
  keeps (modifiersOf fn) (model_addFunctionCode code g).
Proof.
  intros c [] c' Hrun.
  by apply (addFunctionCode_returns c code g c' fn) in Hrun as (_ & _ & Hmods).
Qed.

Lemma structured_outside_keeps_modifiers access fn :
  access ∉ accessOptions →
  keeps (modifiersOf fn)
    (Structured.addAddressVerification (storage := ModelStorage accessor) access).
Proof.
  intros Hout.
  unfold Structured.addAddressVerification,
    Structured.addIsAddressVerifiedFunction,
    Structured.addVerifyAddressOwnershipFunction,
    Structured.addRevokeAddressVerificationFunction.
  rewrite requireAccessControl_outside by done.
  change (addFunctionCode (B := Model.ContractModel))
    with model_addFunctionCode.
  keeps_with ltac:(first
    [ apply keeps_register; done
    | apply keeps_setNamespacedStorage; done
    | apply keeps_modifiersOf_addFunctionCode ]).
Qed.

Lemma structured_revoke_has_body access c c' :
  accessTruthy access = true →
  Structured.addAddressVerification (storage := ModelStorage accessor) access c
    = inr (tt, c') →
  ∃ text, bodyOf Structured.functions.revokeAddressVerification c' = Some [text].
Proof.
  intros Htruthy Hrun. unfold Structured.addAddressVerification in Hrun.
  rewrite Htruthy in Hrun.
  do 10 (apply bind_returns in Hrun as (? & ? & _ & Hrun)).
  unfold Structured.addRevokeAddressVerificationFunction in Hrun.
  do 2 (apply bind_returns in Hrun as (? & ? & _ & Hrun)).
  cbv zeta in Hrun. apply addFunctionCode_body in Hrun. eauto.
Qed.

Lemma freeform_outside_keeps_revoke access :
  access ∉ accessOptions →
  keeps (entryOf Freeform.functions.revokeAddressVerification)
    (Freeform.addAddressVerification access).
Proof.
  intros Hout. unfold Freeform.addAddressVerification.
  rewrite requireAccessControl_outside by done.
  change (addFunction (B := Model.ContractModel)) with model_addFunction.
  keeps_with entry_leaf.
Qed.

End UnknownAccess.

(** X13. An access value that is truthy and outside the options [false],
    ['ownable'], ['roles'], ['managed'] (which the type of the argument
    does not allow, and nothing checks at run time) is taken for access
    control that is set, and sets none. The structured variant of
    [addAddressVerification] gives [revokeAddressVerification] its body and
    no modifier: the function is there and carries no guard it did not
    have. The freeform variant never requests the function: its entry in
    the table is as before. *)
Theorem unknown_access_leaves_revoke_unguarded `{!CommonFunctions}
    (accessor : string → string) (access : AccessValue)
    (c c' : Model.ContractModel) :
  access ∉ accessOptions →
  accessTruthy access = true →
  (Structured.addAddressVerification (storage := ModelStorage accessor)
     access c = inr (tt, c') →
   modifiersOf Structured.functions.revokeAddressVerification c' =
     modifiersOf Structured.functions.revokeAddressVerification c ∧
   ∃ text,
     bodyOf Structured.functions.revokeAddressVerification c' = Some [text]) ∧
  (Freeform.addAddressVerification access c = inr (tt, c') →
   entryOf Freeform.functions.revokeAddressVerification c' =
     entryOf Freeform.functions.revokeAddressVerification c).
Proof.
  intros Hout Htruthy. split; intros Hrun.
  - split.
    + by eapply structured_outside_keeps_modifiers.
    + by eapply structured_revoke_has_body.
  - by eapply freeform_outside_keeps_revoke.
Qed.

Section UnknownAccessWitness.
#[local] Existing Instance sampleFunctions.

Lemma unknown_access_leaves_revoke_unguarded_witness :
  ∃ c',
    Structured.addAddressVerification (storage := ModelStorage sampleAccessor)
      (AStr "admin") (Model.empty "MyToken" false) = inr (tt, c') ∧
    modifiersOf Structured.functions.revokeAddressVerification c' = [] ∧
    ∃ text,
      bodyOf Structured.functions.revokeAddressVerification c' = Some [text].
Proof.
  assert (∃ c', Structured.addAddressVerification
                  (storage := ModelStorage sampleAccessor)
                  (AStr "admin") (Model.empty "MyToken" false)
                = inr (tt, c')) as [c' Hrun]
    by (eexists; vm_compute; reflexivity).
  exists c'. split; [done|].
  assert (AStr "admin" ∉ accessOptions) as Hout.
  { repeat (apply not_elem_of_cons; split; [discriminate|]).
    apply not_elem_of_nil. }
  destruct (unknown_access_leaves_revoke_unguarded sampleAccessor (AStr "admin")
              (Model.empty "MyToken" false) c' Hout eq_refl) as [Hstruct _].
  destruct (Hstruct Hrun) as [Hmods Hbody]. by split.
Defined.

End UnknownAccessWitness.

(** ** X14: requireAccessControl is idempotent *)

Section Decorated.
Implicit Types c : Model.ContractModel.

Lemma alter_fixed {A : Type} (f : A → A) (l : list A) (i : nat) (x : A) :
  l !! i = Some x → f x = x → alter f i l = l.
Proof.
  revert i. induction l as [|y l IH]; intros [|i] Hi Hf; simplify_eq/=;
    [by rewrite Hf|]. f_equal. by apply IH.
Qed.

Lemma with_functions_fixed c (F : list Model.FunctionEntry → list Model.FunctionEntry) :
  F (Model.cm_functions c) = Model.cm_functions c →
  Model.with_functions F c = c.
Proof. intros HF. destruct c. unfold Model.with_functions. simpl in *. by rewrite HF. Qed.

Lemma decorated_functions def Q c c' :
  Model.cm_functions c' = Model.cm_functions c →
  decorated def Q c → decorated def Q c'.
Proof. unfold decorated. by intros ->. Qed.

Lemma decorated_addFunction def Q g c entry c' :
  Model.addFunction g c = inr (entry, c') →
  decorated def Q c → decorated def Q c'.
Proof.
  intros (_ & _ & [->| ->])%addFunction_returns; [done|].
  intros (i & e & Hfind & HQ). exists i, e. split; [|done]. simpl.
  by apply list_find_app_l.
Qed.

Lemma decorated_alter def (Q : Model.FunctionEntry → Prop)
    (f : Model.FunctionEntry → Model.FunctionEntry) j c :
  (∀ e, Model.entry_def (f e) = Model.entry_def e) →
  (∀ e, Q e → Q (f e)) →
  decorated def Q c → decorated def Q (Model.with_functions (alter f j) c).
Proof.
  intros Hdef HQ (i & e & Hfind & He). unfold decorated. simpl.
  destruct (decide (j = i)) as [->|Hne].
  - exists i, (f e). split; [|by apply HQ].
    apply list_find_alter_hit; [done|]. rewrite Hdef.
    by apply list_find_Some in Hfind as (_ & HP & _).
  - exists i, e. split; [|done].
    apply list_find_alter_miss; [|done..]. intros y. by rewrite Hdef.
Qed.

(** An override that is declared already. *)
Lemma addOverride_settled parentRef def c :
  Model.cm_phase c = Model.Building →
  decorated def (λ e, contract_name parentRef ∈ Model.entry_override e) c →
  Model.addOverride parentRef def c = inr (tt, c).
Proof.
  intros Hc (i & e & Hfind & Hin).
  unfold Model.addOverride. rewrite bind_run, addFunction_run, Hfind by done.
  unfold modify. do 2 f_equal. apply with_functions_fixed.
  apply list_find_Some in Hfind as (Hi & _ & _).
  apply (alter_fixed _ _ _ e); [done|].
  destruct e as [d b ms over]. unfold Model.addEntryOverride. simpl in *.
  f_equal. apply subseteq_union_1_L. by apply singleton_subseteq_l.
Qed.

Lemma addOverride_decorates parentRef def c c' :
  Model.addOverride parentRef def c = inr (tt, c') →
  decorated def (λ e, contract_name parentRef ∈ Model.entry_override e) c'.
Proof.
  intros (entry & cf & Hadd & ->)%addOverride_returns.
  destruct (addFunction_returns _ _ _ _ Hadd) as (_ & [e He] & _).
  exists entry, (Model.addEntryOverride (contract_name parentRef) e).
  split; [|simpl; set_solver].
  apply list_find_alter_hit; [done|].
  by apply list_find_Some in He as (_ & HP & _).
Qed.

(** A modifier that the function carries already. *)
Lemma addModifier_settled modifierText fn c :
  Model.cm_phase c = Model.Building →
  decorated fn (λ e, modifierText ∈ Model.entry_modifiers e) c →
  model_addModifier modifierText fn c = inr (tt, c).
Proof.
  intros Hc (i & e & Hfind & Hin).
  unfold model_addModifier.
  rewrite bind_run, addFunction_run, Hfind, addModifier_run by done.
  do 2 f_equal. apply with_functions_fixed.
  apply list_find_Some in Hfind as (Hi & _ & _).
  apply (alter_fixed _ _ _ e); [done|].
  unfold Model.addEntryModifier. by rewrite decide_True.
Qed.

Lemma addModifier_decorates modifierText fn c c' :
  model_addModifier modifierText fn c = inr (tt, c') →
  Model.cm_phase c' = Model.Building ∧
  decorated fn (λ e, modifierText ∈ Model.entry_modifiers e) c' ∧
  (∀ def Q,
     (∀ e, Q e → Q (Model.addEntryModifier modifierText e)) →
     decorated def Q c → decorated def Q c') ∧
  Model.cm_parents c' = Model.cm_parents c ∧
  Model.cm_registry c' = Model.cm_registry c.
Proof.
  intros (entry & cf & Hadd & Hmod)%bind_returns.
  pose proof (addFunction_returns _ _ _ _ Hadd) as (Hc & [e He] & Hcf).
  assert (Model.cm_phase cf = Model.Building) as Hcfb
    by (by destruct Hcf as [->| ->]).
  rewrite addModifier_run in Hmod by done. injection Hmod as <-.
  split_and!.
  - done.
  - exists entry, (Model.addEntryModifier modifierText e). split.
    + apply list_find_alter_hit; [done|]. rewrite entry_def_modified.
      by apply list_find_Some in He as (_ & HP & _).
    + rewrite entry_modifiers_added. apply elem_of_addIfAbsent.
  - intros def Q HQ Hdec. apply decorated_alter; [|done|].
    + intros x. apply entry_def_modified.
    + by eapply decorated_addFunction.
  - by destruct Hcf as [->| ->].
  - by destruct Hcf as [->| ->].
Qed.

Lemma override_modified modifierText identifier e :
  identifier ∈ Model.entry_override e →
  identifier ∈ Model.entry_override (Model.addEntryModifier modifierText e).
Proof. unfold Model.addEntryModifier. by case_decide. Qed.

End Decorated.

Section Again.
Context `{!CommonFunctions}.
Implicit Types c : Model.ContractModel.

Lemma setAccessControl_settled c m :
  Model.cm_phase c = Model.Building →
  Model.hasParent (contract_name (parentOf m)) c = true →
  (m = ModeRoles →
   decorated supportsInterface
     (λ e, "AccessControl" ∈ Model.entry_override e) c) →
  setAccessControl (accessOf m) c = inr (tt, c).
Proof.
  intros Hc Hp Hover. rewrite setAccessControl_present by done.
  destruct m; simpl; [done| |done].
  by apply addOverride_settled; [|apply Hover].
Qed.

Lemma setAccessControl_decorates c m c1 :
  setAccessControl (accessOf m) c = inr (tt, c1) →
  m = ModeRoles →
  decorated supportsInterface
    (λ e, "AccessControl" ∈ Model.entry_override e) c1.
Proof.
  intros (_ & cb & Hafter & _)%setAccessControl_returns ->.
  by apply addOverride_decorates in Hafter.
Qed.

Lemma requireAccessControl_again_mode m fn roleIdPrefix roleOwner c c1 :
  requireAccessControl fn (accessOf m) roleIdPrefix roleOwner c = inr (tt, c1) →
  requireAccessControl fn (accessOf m) roleIdPrefix roleOwner c1 = inr (tt, c1).
Proof.
  intros Hrun.
  assert (∃ ca c3,
    setAccessControl (accessOf m) c = inr (tt, ca) ∧
    Model.cm_parents c3 = Model.cm_parents ca ∧
    Model.cm_functions c3 = Model.cm_functions ca ∧
    (m = ModeRoles →
     registered KNamedConstant (roleConstant (roleIdPrefix +:+ "_ROLE")) c3 =
       Some (PNamedConstant (roleConstant (roleIdPrefix +:+ "_ROLE")) [])) ∧
    model_addModifier (guardOf m roleIdPrefix) fn c3 = inr (tt, c1))
    as (ca & c3 & Hset & Hparents & Hfns & Hrole & Hmod).
  { revert Hrun. destruct m; unfold requireAccessControl; simpl;
      intros ([] & ca & Hset & Hrun)%bind_returns.
    - by exists ca, ca.
    - apply bind_returns in Hrun as (added & c2 & Hreg & Hrun).
      apply bind_returns in Hrun as ([] & c3 & Hblock & Hmod).
      apply roleOwner_block_returns in Hblock as (Hp3 & Hf3 & Hr3 & _).
      pose proof (keeps_register Model.cm_parents _ _ _
                    (λ _ _, eq_refl) _ _ _ Hreg) as Hp2.
      apply register_returns in Hreg as (_ & Hf2 & Hsym).
      exists ca, c3. split_and!; [done| | | |done]; [congruence..|].
      intros _. unfold registered. by rewrite Hr3.
    - by exists ca, ca. }
  pose proof (setAccessControl_frame _ _ _ fn Hset) as (_ & Hp & _).
  apply addModifier_decorates in Hmod
    as (Hc1 & Hguard & Hkept & Hparents1 & Hregistry1).
  assert (setAccessControl (accessOf m) c1 = inr (tt, c1)) as Hset1.
  { apply setAccessControl_settled; [done| |].
    - unfold Model.hasParent in *. by rewrite Hparents1, Hparents.
    - intros Hm. apply Hkept; [intros e; apply override_modified|].
      apply (decorated_functions _ _ ca); [done|].
      by eapply setAccessControl_decorates. }
  assert (model_addModifier (guardOf m roleIdPrefix) fn c1 = inr (tt, c1))
    as Hmod1 by (by apply addModifier_settled).
  destruct m; unfold requireAccessControl; simpl;
    rewrite (bind_step _ _ _ _ _ Hset1); [done| |done].
  unfold model_addConstantOrImmutableOrErrorDefinition.
  rewrite bind_run, register_run by done.
  specialize (Hrole eq_refl). unfold registered in Hrole.
  rewrite Hregistry1, Hrole, decide_True by done.
  rewrite bind_run.
  destruct roleOwner as [owner|]; [rewrite andb_false_r|]; exact Hmod1.
Qed.

End Again.

(** X14. [requireAccessControl] is idempotent: for every access value,
    function, prefix and role owner, when a call returns, the same call on
    the model it returned returns that model. The parent, the argument,
    the statements, the constant of the role and the guard are there
    already, and none is added a second time. *)
Theorem requireAccessControl_idempotent `{!CommonFunctions}
    (fn : BaseFunction) (access : AccessValue) (roleIdPrefix : string)
    (roleOwner : option string) (c c1 : Model.ContractModel) :
  requireAccessControl fn access roleIdPrefix roleOwner c = inr (tt, c1) →
  requireAccessControl fn access roleIdPrefix roleOwner c1 = inr (tt, c1).
Proof.
  destruct (decide (access ∈ accessOptions)) as [Hin|Hout].
  - unfold accessOptions in Hin.
    apply elem_of_cons in Hin as [->|Hin];
      [apply (requireAccessControl_again_mode ModeOwnable)|].
    apply elem_of_cons in Hin as [->|Hin];
      [apply (requireAccessControl_again_mode ModeOwnable)|].
    apply elem_of_cons in Hin as [->|Hin];
      [apply (requireAccessControl_again_mode ModeRoles)|].
    apply list_elem_of_singleton in Hin as ->.
    apply (requireAccessControl_again_mode ModeManaged).
  - rewrite requireAccessControl_outside by done. by intros [= <-].
Qed.

Section AgainWitness.
#[local] Existing Instance sampleFunctions.

Lemma requireAccessControl_idempotent_witness :
  ∃ c1,
    requireAccessControl Freeform.functions.revokeAddressVerification
      (AStr "roles") "MINTER" (Some "minter") (Model.empty "MyToken" false)
      = inr (tt, c1) ∧
    requireAccessControl Freeform.functions.revokeAddressVerification
      (AStr "roles") "MINTER" (Some "minter") c1 = inr (tt, c1).
Proof.
  assert (∃ c1, requireAccessControl
                  Freeform.functions.revokeAddressVerification
                  (AStr "roles") "MINTER" (Some "minter")
                  (Model.empty "MyToken" false) = inr (tt, c1)) as [c1 Hrun]
    by (eexists; vm_compute; reflexivity).
  exists c1. split; [done|].
  by apply (requireAccessControl_idempotent _ _ _ _
              (Model.empty "MyToken" false)).
Defined.

End AgainWitness.

(** ** X15: what the structured variant registers *)

Section Establishes.
Context (P : Model.ContractModel → Prop).
Implicit Types c : Model.ContractModel.

Lemma establishes_first {A B : Type} (op : Model.Build A)
    (f : A → Model.Build B) :
  establishes P op → (∀ a, preserves P (f a)) → establishes P (op ≫= f).
Proof.
  intros Hop Hf c x c' (a & c1 & Hrun & Htail)%bind_returns.
  eapply Hf; [|done]. by eapply Hop.
Qed.

Lemma establishes_later {A B : Type} (op : Model.Build A)
    (f : A → Model.Build B) :
  (∀ a, establishes P (f a)) → establishes P (op ≫= f).
Proof.
  intros Hf c x c' (a & c1 & Hrun & Htail)%bind_returns. by eapply Hf.
Qed.

End Establishes.

Section RegistryGrows.
Implicit Types c : Model.ContractModel.

Lemma establishes_register kind key payload :
  establishes (λ c, registered kind key c = Some payload)
    (Model.register kind key payload).
Proof. intros c added c' Hrun. by apply register_returns in Hrun as (_ & _ & ?). Qed.

(** What is registered stays registered. *)
Lemma preserves_registered_register kind key payload kind' key' payload' :
  preserves (λ c, registered kind key c = Some payload)
    (Model.register kind' key' payload').
Proof.
  intros c added c' Hheld Hrun.
  assert (Model.cm_phase c = Model.Building) as Hc.
  { revert Hrun. unfold Model.register. unfold_build.
    by destruct (Model.cm_phase c). }
  rewrite register_run in Hrun by done.
  destruct (Model.lookupSymbol kind' key' _) as [present|];
    [destruct (decide _); by simplify_eq|].
  injection Hrun as _ <-. revert Hheld.
  unfold registered, Model.lookupSymbol. simpl.
  destruct (list_find (λ s, Model.sym_kind s = kind ∧ Model.sym_key s = key)
              (Model.cm_registry c)) as [[i s]|] eqn:Hfind; [|discriminate].
  by rewrite (list_find_app_l _ _ _ _ _ Hfind).
Qed.

End RegistryGrows.

Ltac registry_leaf :=
  first
    [ apply preserves_registered_register
    | apply preserves_of_keeps;
      first
        [ apply keeps_addParent; done
        | apply keeps_addArgument; done
        | apply keeps_addCode; done
        | apply keeps_addVariable; done
        | apply keeps_setNamespacedStorage; done
        | apply keeps_table_addFunction; done
        | apply keeps_table_setBody; done
        | apply keeps_table_addModifier; done
        | apply keeps_table_addOverride; done ] ].

Section StructuredRegisters.
Context `{!CommonFunctions} (accessor : string → string).

Lemma preserves_registered_requireAccessControl kind key payload fn access
    roleIdPrefix roleOwner :
  preserves (λ c, registered kind key c = Some payload)
    (requireAccessControl fn access roleIdPrefix roleOwner).
Proof.
  unfold requireAccessControl, setAccessControl. simpl.
  unfold model_addConstructorArgument, model_addModifier,
    model_addConstantOrImmutableOrErrorDefinition.
  preserves_with registry_leaf.
Qed.

End StructuredRegisters.

Ltac unfold_structured :=
  unfold Structured.addAddressVerification,
    Structured.addIsAddressVerifiedFunction,
    Structured.addVerifyAddressOwnershipFunction,
    Structured.addRevokeAddressVerificationFunction;
  change (addFunctionCode (B := Model.ContractModel))
    with model_addFunctionCode;
  unfold model_addFunctionCode.

Ltac registered_here :=
  apply establishes_first;
    [apply establishes_register
    |intros ?;
     preserves_with ltac:(first
       [ registry_leaf | apply preserves_registered_requireAccessControl ])].

Section StructuredDeclarations.
Context `{!CommonFunctions} (accessor : string → string)
  (access : AccessValue).

Lemma structured_registers_ECDSA :
  establishes
    (λ c, registered KImport "ECDSA" c =
       Some (PImport "@openzeppelin/contracts/utils/cryptography/ECDSA.sol"
               true))
    (Structured.addAddressVerification (storage := ModelStorage accessor)
       access).
Proof. unfold_structured. registered_here. Qed.

Lemma structured_registers_MessageHashUtils :
  establishes
    (λ c, registered KImport "MessageHashUtils" c =
       Some (PImport
               "@openzeppelin/contracts/utils/cryptography/MessageHashUtils.sol"
               true))
    (Structured.addAddressVerification (storage := ModelStorage accessor)
       access).
Proof.
  unfold_structured. apply establishes_later; intros ?. registered_here.
Qed.

Lemma structured_registers_AddressVerified :
  establishes
    (λ c, registered KNamedConstant
            "event AddressVerified(address indexed account);" c =
       Some (PNamedConstant "event AddressVerified(address indexed account);"
               ["/// @dev Emitted when an address is verified"]))
    (Structured.addAddressVerification (storage := ModelStorage accessor)
       access).
Proof.
  unfold_structured. do 2 (apply establishes_later; intros ?).
  registered_here.
Qed.

Lemma structured_registers_VerificationRevoked :
  establishes
    (λ c, registered KNamedConstant
            "event VerificationRevoked(address indexed account);" c =
       Some (PNamedConstant
               "event VerificationRevoked(address indexed account);"
               ["/// @dev Emitted when address verification is revoked"]))
    (Structured.addAddressVerification (storage := ModelStorage accessor)
       access).
Proof.
  unfold_structured. do 3 (apply establishes_later; intros ?).
  registered_here.
Qed.

Lemma structured_registers_InvalidSignature :
  establishes
    (λ c, registered KNamedConstant "error InvalidSignature();" c =
       Some (PNamedConstant "error InvalidSignature();"
               ["/// @dev Error thrown when signature verification fails"]))
    (Structured.addAddressVerification (storage := ModelStorage accessor)
       access).
Proof.
  unfold_structured. do 4 (apply establishes_later; intros ?).
  registered_here.
Qed.

Lemma structured_registers_AlreadyVerified :
  establishes
    (λ c, registered KNamedConstant "error AlreadyVerified();" c =
       Some (PNamedConstant "error AlreadyVerified();"
               ["/// @dev Error thrown when address is already verified"]))
    (Structured.addAddressVerification (storage := ModelStorage accessor)
       access).
Proof.
  unfold_structured. do 5 (apply establishes_later; intros ?).
  registered_here.
Qed.

End StructuredDeclarations.

(** X15. The structured variant of [addAddressVerification] passes its
    declarations through the Symbol Registry. When it returns, for every
    access value and on every model, the two imports are registered as
    import-only with their paths, and the two events and the two errors
    are registered under their declarations with the doc lines of the
    variant: what was registered under these keys before, if anything, was
    identical. *)
Theorem structured_declarations_registered `{!CommonFunctions}
    (accessor : string → string) (access : AccessValue)
    (c c' : Model.ContractModel) :
  Structured.addAddressVerification (storage := ModelStorage accessor)
    access c = inr (tt, c') →
  registered KImport "ECDSA" c' =
    Some (PImport "@openzeppelin/contracts/utils/cryptography/ECDSA.sol" true) ∧
  registered KImport "MessageHashUtils" c' =
    Some (PImport
            "@openzeppelin/contracts/utils/cryptography/MessageHashUtils.sol"
            true) ∧
  registered KNamedConstant "event AddressVerified(address indexed account);" c' =
    Some (PNamedConstant "event AddressVerified(address indexed account);"
            ["/// @dev Emitted when an address is verified"]) ∧
  registered KNamedConstant
      "event VerificationRevoked(address indexed account);" c' =
    Some (PNamedConstant "event VerificationRevoked(address indexed account);"
            ["/// @dev Emitted when address verification is revoked"]) ∧
  registered KNamedConstant "error InvalidSignature();" c' =
    Some (PNamedConstant "error InvalidSignature();"
            ["/// @dev Error thrown when signature verification fails"]) ∧
  registered KNamedConstant "error AlreadyVerified();" c' =
    Some (PNamedConstant "error AlreadyVerified();"
            ["/// @dev Error thrown when address is already verified"]).
Proof.
  intros Hrun. split_and!.
  - by eapply (structured_registers_ECDSA accessor access).
  - by eapply (structured_registers_MessageHashUtils accessor access).
  - by eapply (structured_registers_AddressVerified accessor access).
  - by eapply (structured_registers_VerificationRevoked accessor access).
  - by eapply (structured_registers_InvalidSignature accessor access).
  - by eapply (structured_registers_AlreadyVerified accessor access).
Qed.

Section StructuredDeclarationsWitness.
#[local] Existing Instance sampleFunctions.

Lemma structured_declarations_registered_witness :
  ∃ c',
    Structured.addAddressVerification (storage := ModelStorage sampleAccessor)
      (AStr "roles") (Model.empty "MyToken" true) = inr (tt, c') ∧
    registered KNamedConstant "error AlreadyVerified();" c' =
      Some (PNamedConstant "error AlreadyVerified();"
              ["/// @dev Error thrown when address is already verified"]).
Proof.
  assert (∃ c', Structured.addAddressVerification
                  (storage := ModelStorage sampleAccessor)
                  (AStr "roles") (Model.empty "MyToken" true)
                = inr (tt, c')) as [c' Hrun]
    by (eexists; vm_compute; reflexivity).
  exists c'. split; [done|].
  by destruct (structured_declarations_registered sampleAccessor (AStr "roles")
                 (Model.empty "MyToken" true) c' Hrun)
    as (_ & _ & _ & _ & _ & Herror).
Defined.

End StructuredDeclarationsWitness.

(** ** X16: when the structured variant returns *)

Section Runs.
Implicit Types c : Model.ContractModel.
Implicit Types P Q R E : Model.ContractModel → Prop.








Lemma preserves_view {A T : Type} (view : Model.ContractModel → T)
    (S : T → Prop) (op : Model.Build A) :
  keeps view op → preserves (λ c, S (view c)) op.
Proof. intros Hop c x c' Hv Hrun. by rewrite (Hop _ _ _ Hrun). Qed.

End Runs.

Section Free.
Implicit Types c : Model.ContractModel.
Implicit Types fn g : BaseFunction.






End Free.

Ltac frame_leaf :=
  first
    [ apply keeps_register; done
    | apply keeps_addParent; done
    | apply keeps_addArgument; done
    | apply keeps_addCode; done
    | apply keeps_setNamespacedStorage; done
    | apply keeps_table_addFunction; done
    | apply keeps_table_setBody; done
    | apply keeps_table_addModifier; done
    | apply keeps_table_addOverride; done ].

Section StructuredRuns.
Context `{!CommonFunctions} (accessor : string → string).
Implicit Types c : Model.ContractModel.
Implicit Types fn g : BaseFunction.

Lemma keeps_bodyOf_register fn kind key payload :
  keeps (bodyOf fn) (Model.register kind key payload).
Proof. by apply keeps_register. Qed.



Lemma preserves_upgradeable_addFunctionCode u code g :
  preserves (λ c, Model.cm_upgradeable c = u) (model_addFunctionCode code g).
Proof.
  apply (preserves_view Model.cm_upgradeable (λ b, b = u)).
  apply keeps_upgradeable_addFunctionCode.
Qed.


End StructuredRuns.

Section StructuredReturns.
Context `{!CommonFunctions} (accessor : string → string).
Implicit Types c : Model.ContractModel.





End StructuredReturns.


Section StructuredReturnsWitness.
#[local] Existing Instance sampleFunctions.


End StructuredReturnsWitness.

(** ** X17: an argument of the same name from another owner *)

Section Collision.
Context `{!CommonFunctions}.
Implicit Types c : Model.ContractModel.


End Collision.


Section CollisionWitness.
#[local] Existing Instance sampleFunctions.


End CollisionWitness.

(** ** X18: the text of the freeform declarations *)

(** X18. The five blocks of text that the freeform variant of
    [addAddressVerification] hands to [addVariable], written out. With
    [nl] the line feed: each block is a line feed, a comment indented by
    four spaces, a line feed, a declaration indented by four spaces, a line
    feed and two spaces. For every access value, when the variant returns,
    the freeform variables of the model are the former ones followed by the
    mapping [_verifiedAddresses], the events [AddressVerified] and
    [VerificationRevoked] and the errors [InvalidSignature] and
    [AlreadyVerified], each under its comment, in that order. *)
Theorem freeform_blocks_written_out `{!CommonFunctions} (access : AccessValue)
    (c c' : Model.ContractModel) (nl : string) :
  nl = String (Ascii.ascii_of_nat 10) EmptyString →
  Freeform.addAddressVerification access c = inr (tt, c') →
  Model.cm_variables c' =
    Model.cm_variables c ++
    [ nl +:+ "    // Mapping to track addresses that have been verified" +:+
      nl +:+ "    mapping(address => bool) private _verifiedAddresses;" +:+
      nl +:+ "  ";
      nl +:+ "    // Event emitted when an address is verified" +:+
      nl +:+ "    event AddressVerified(address indexed account);" +:+
      nl +:+ "  ";
      nl +:+ "    // Event emitted when address verification is revoked" +:+
      nl +:+ "    event VerificationRevoked(address indexed account);" +:+
      nl +:+ "  ";
      nl +:+ "    // Error thrown when signature verification fails" +:+
      nl +:+ "    error InvalidSignature();" +:+
      nl +:+ "  ";
      nl +:+ "    // Error thrown when address is already verified" +:+
      nl +:+ "    error AlreadyVerified();" +:+
      nl +:+ "  " ].
Proof.
  intros -> Hrun. rewrite (freeform_variables access c c' Hrun).
  f_equal.
Qed.

Section FreeformTextWitness.
#[local] Existing Instance sampleFunctions.

Lemma freeform_blocks_written_out_witness :
  ∃ c',
    Freeform.addAddressVerification AFalse (Model.empty "MyToken" false)
      = inr (tt, c') ∧
    length (Model.cm_variables c') = 5 ∧
    Model.cm_variables c' !! 3 =
      Some (Js.nl +:+ "    // Error thrown when signature verification fails" +:+
            Js.nl +:+ "    error InvalidSignature();" +:+ Js.nl +:+ "  ").
Proof.
  assert (∃ c', Freeform.addAddressVerification AFalse
                  (Model.empty "MyToken" false) = inr (tt, c')) as [c' Hrun]
    by (eexists; vm_compute; reflexivity).
  exists c'. split; [done|].
  rewrite (freeform_blocks_written_out AFalse (Model.empty "MyToken" false) c'
             Js.nl eq_refl Hrun).
  by split.
Defined.

End FreeformTextWitness.
